(** * Structural model extraction for Go source trees (package [uml])

    A shallow embedding of [uml/generate.go], [uml/model.go] and the
    options of the extractor, with the properties of the extraction
    engine stated and proved over it.

    Conventions of the embedding:
    - Go strings are [string], sequences of bytes that hold UTF-8
      text; [<] on Go strings is the byte-wise lexicographic order,
      [String.ltb].
    - Absolute, cleaned, slash-separated paths are lists of their
      components, outermost first ([[]] is the filesystem root).  On this
      representation [filepath.Clean] is the identity and [filepath.Dir]
      drops the last component.
    - A Go map is a [gmap]; a [range] loop over it sees its entries in
      an order that is a parameter ([MapRange]).
    - [(T, error)] results are sums [error + T]; state that the source
      threads through calls (the module cache, the package list) is
      passed explicitly.
    - The Go standard library is outside the repository: the printer
      ([exprString]) and [sort.Slice] are parameters with their
      documented contracts, the parser's result is part of the modelled
      file. *)

From Stdlib Require Import String Ascii List Bool Arith ZArith Lia.
From Stdlib Require Import Sorted Permutation OrdersEx.
From stdpp Require Import base option list gmap strings sorting.

Import ListNotations.
Local Open Scope string_scope.
Local Open Scope list_scope.

(** ** UTF-8 and Unicode classes

    Go strings are byte sequences that hold UTF-8 text; a rune is its
    code point. *)

Module utf8.

Definition RuneError : Z := 65533.

Definition byte (c : ascii) : Z := Z.of_N (N_of_ascii c).

Definition char (b : Z) : ascii := ascii_of_N (Z.to_N b).

Definition inRange (lo hi b : Z) : bool := (lo <=? b)%Z && (b <=? hi)%Z.

(** A continuation byte, [10xxxxxx]. *)
Definition cont (b : Z) : bool := inRange 128 191 b.

(** [utf8.DecodeRuneInString]: the first rune of [s] and its width in
    bytes; [(RuneError, 1)] for an encoding that is invalid, too short,
    overlong, a surrogate or out of range, [(RuneError, 0)] for the empty
    string. *)
Definition DecodeRuneInString (s : string) : Z * nat :=
  match s with
  | EmptyString => (RuneError, 0%nat)
  | String c0 s1 =>
      let b0 := byte c0 in
      if (b0 <? 128)%Z then (b0, 1%nat)
      else if inRange 194 223 b0 then
        match s1 with
        | String c1 _ =>
            let b1 := byte c1 in
            if cont b1
            then (Z.lor (Z.shiftl (Z.land b0 31) 6) (Z.land b1 63), 2%nat)
            else (RuneError, 1%nat)
        | EmptyString => (RuneError, 1%nat)
        end
      else if inRange 224 239 b0 then
        match s1 with
        | String c1 (String c2 _) =>
            let b1 := byte c1 in
            let b2 := byte c2 in
            let lo := if (b0 =? 224)%Z then 160%Z else 128%Z in
            let hi := if (b0 =? 237)%Z then 159%Z else 191%Z in
            if inRange lo hi b1 && cont b2
            then (Z.lor (Z.shiftl (Z.land b0 15) 12)
                    (Z.lor (Z.shiftl (Z.land b1 63) 6) (Z.land b2 63)), 3%nat)
            else (RuneError, 1%nat)
        | _ => (RuneError, 1%nat)
        end
      else if inRange 240 244 b0 then
        match s1 with
        | String c1 (String c2 (String c3 _)) =>
            let b1 := byte c1 in
            let b2 := byte c2 in
            let b3 := byte c3 in
            let lo := if (b0 =? 240)%Z then 144%Z else 128%Z in
            let hi := if (b0 =? 244)%Z then 143%Z else 191%Z in
            if inRange lo hi b1 && cont b2 && cont b3
            then (Z.lor (Z.shiftl (Z.land b0 7) 18)
                    (Z.lor (Z.shiftl (Z.land b1 63) 12)
                       (Z.lor (Z.shiftl (Z.land b2 63) 6) (Z.land b3 63))), 4%nat)
            else (RuneError, 1%nat)
        | _ => (RuneError, 1%nat)
        end
      else (RuneError, 1%nat)
  end.

(** [utf8.RuneStart]: [b] is not a continuation byte. *)
Definition RuneStart (b : Z) : bool := negb (Z.land b 192 =? 128)%Z.

(** The bytes [s[start:end]] that [DecodeLastRuneInString] decodes,
    found by its loop over the bytes before the last one, here [r], in
    reverse: back to the nearest byte that starts a rune among [n], and
    one byte further when there is none.  [w] holds the bytes passed. *)
Fixpoint runeWindow (n : nat) (r w : list ascii) {struct r} : list ascii :=
  match r with
  | [] => w
  | c :: r' =>
      match n with
      | O => c :: w
      | S n' => if RuneStart (byte c) then c :: w else runeWindow n' r' (c :: w)
      end
  end.

(** [utf8.DecodeLastRuneInString] on the bytes of the string in
    reverse: the last rune and its width; [(RuneError, 1)] when the
    bytes from the start found do not decode to one rune that reaches
    the end. *)
Definition decodeLast (r : list ascii) : Z * nat :=
  match r with
  | [] => (RuneError, 0%nat)
  | c :: r1 =>
      if (byte c <? 128)%Z then (byte c, 1%nat)
      else
        let w := runeWindow 3 r1 [c] in
        let (rune, size) := DecodeRuneInString (string_of_list_ascii w) in
        if (size =? length w)%nat then (rune, size) else (RuneError, 1%nat)
  end.

Definition DecodeLastRuneInString (s : string) : Z * nat :=
  decodeLast (rev (list_ascii_of_string s)).

Definition bytes (l : list Z) : string := string_of_list_ascii (map char l).

(** [utf8.AppendRune] on the empty string: the encoding of a rune. *)
Definition EncodeRune (r : Z) : string :=
  if (r <? 0)%Z then bytes [239; 191; 189]%Z
  else if (r <=? 127)%Z then bytes [r]
  else if (r <=? 2047)%Z then
    bytes [Z.lor 192 (Z.shiftr r 6); Z.lor 128 (Z.land r 63)]
  else if (1114111 <? r)%Z || inRange 55296 57343 r then bytes [239; 191; 189]%Z
  else if (r <=? 65535)%Z then
    bytes [Z.lor 224 (Z.shiftr r 12); Z.lor 128 (Z.land (Z.shiftr r 6) 63);
           Z.lor 128 (Z.land r 63)]
  else
    bytes [Z.lor 240 (Z.shiftr r 18); Z.lor 128 (Z.land (Z.shiftr r 12) 63);
           Z.lor 128 (Z.land (Z.shiftr r 6) 63); Z.lor 128 (Z.land r 63)].

End utf8.

Module unicode.

(** The runes with the property White_Space, which [unicode.IsSpace]
    tests: tab to carriage return, space, U+0085, U+00A0, U+1680,
    U+2000 to U+200A, U+2028, U+2029, U+202F, U+205F, U+3000. *)
Definition White_Space : list Z :=
  [9; 10; 11; 12; 13; 32; 133; 160; 5760;
   8192; 8193; 8194; 8195; 8196; 8197; 8198; 8199; 8200; 8201; 8202;
   8232; 8233; 8239; 8287; 12288]%Z.

Definition IsSpace (r : Z) : bool := existsb (Z.eqb r) White_Space.

(** The table [unicode.Upper], the upper case letters (category Lu,
    Unicode 15.0.0), as ranges [(lo, hi, stride)]. *)
Definition Upper : list (Z * Z * Z) :=
  [
   (65, 90, 1); (192, 214, 1); (216, 222, 1); (256, 310, 2); (313, 327, 2);
   (330, 376, 2); (377, 381, 2); (385, 386, 1); (388, 388, 1); (390, 391, 1);
   (393, 395, 1); (398, 401, 1); (403, 404, 1); (406, 408, 1); (412, 413, 1);
   (415, 416, 1); (418, 422, 2); (423, 423, 1); (425, 425, 1); (428, 428, 1);
   (430, 431, 1); (433, 435, 1); (437, 437, 1); (439, 440, 1); (444, 444, 1);
   (452, 461, 3); (463, 475, 2); (478, 494, 2); (497, 497, 1); (500, 500, 1);
   (502, 504, 1); (506, 562, 2); (570, 571, 1); (573, 574, 1); (577, 577, 1);
   (579, 582, 1); (584, 590, 2); (880, 880, 1); (882, 882, 1); (886, 886, 1);
   (895, 895, 1); (902, 902, 1); (904, 906, 1); (908, 908, 1); (910, 911, 1);
   (913, 929, 1); (931, 939, 1); (975, 975, 1); (978, 980, 1);
   (984, 1006, 2); (1012, 1012, 1); (1015, 1015, 1); (1017, 1018, 1);
   (1021, 1071, 1); (1120, 1152, 2); (1162, 1216, 2); (1217, 1229, 2);
   (1232, 1326, 2); (1329, 1366, 1); (4256, 4293, 1); (4295, 4295, 1);
   (4301, 4301, 1); (5024, 5109, 1); (7312, 7354, 1); (7357, 7359, 1);
   (7680, 7828, 2); (7838, 7934, 2); (7944, 7951, 1); (7960, 7965, 1);
   (7976, 7983, 1); (7992, 7999, 1); (8008, 8013, 1); (8025, 8031, 2);
   (8040, 8047, 1); (8120, 8123, 1); (8136, 8139, 1); (8152, 8155, 1);
   (8168, 8172, 1); (8184, 8187, 1); (8450, 8450, 1); (8455, 8455, 1);
   (8459, 8461, 1); (8464, 8466, 1); (8469, 8469, 1); (8473, 8477, 1);
   (8484, 8490, 2); (8491, 8493, 1); (8496, 8499, 1); (8510, 8511, 1);
   (8517, 8517, 1); (8579, 8579, 1); (11264, 11311, 1); (11360, 11360, 1);
   (11362, 11364, 1); (11367, 11373, 2); (11374, 11376, 1);
   (11378, 11378, 1); (11381, 11381, 1); (11390, 11392, 1);
   (11394, 11490, 2); (11499, 11499, 1); (11501, 11501, 1);
   (11506, 11506, 1); (42560, 42604, 2); (42624, 42650, 2);
   (42786, 42798, 2); (42802, 42862, 2); (42873, 42877, 2);
   (42878, 42886, 2); (42891, 42891, 1); (42893, 42893, 1);
   (42896, 42896, 1); (42898, 42898, 1); (42902, 42922, 2);
   (42923, 42926, 1); (42928, 42932, 1); (42934, 42948, 2);
   (42949, 42951, 1); (42953, 42953, 1); (42960, 42960, 1);
   (42966, 42966, 1); (42968, 42968, 1); (42997, 42997, 1);
   (65313, 65338, 1); (66560, 66599, 1); (66736, 66771, 1);
   (66928, 66938, 1); (66940, 66954, 1); (66956, 66962, 1);
   (66964, 66965, 1); (68736, 68786, 1); (71840, 71871, 1);
   (93760, 93791, 1); (119808, 119833, 1); (119860, 119885, 1);
   (119912, 119937, 1); (119964, 119964, 1); (119966, 119967, 1);
   (119970, 119970, 1); (119973, 119974, 1); (119977, 119980, 1);
   (119982, 119989, 1); (120016, 120041, 1); (120068, 120069, 1);
   (120071, 120074, 1); (120077, 120084, 1); (120086, 120092, 1);
   (120120, 120121, 1); (120123, 120126, 1); (120128, 120132, 1);
   (120134, 120134, 1); (120138, 120144, 1); (120172, 120197, 1);
   (120224, 120249, 1); (120276, 120301, 1); (120328, 120353, 1);
   (120380, 120405, 1); (120432, 120457, 1); (120488, 120512, 1);
   (120546, 120570, 1); (120604, 120628, 1); (120662, 120686, 1);
   (120720, 120744, 1); (120778, 120778, 1); (125184, 125217, 1)
  ]%Z.

Definition inTable (table : list (Z * Z * Z)) (r : Z) : bool :=
  existsb (fun '(lo, hi, stride) =>
             (lo <=? r)%Z && (r <=? hi)%Z && ((r - lo) mod stride =? 0)%Z) table.

(** [unicode.IsUpper] *)
Definition IsUpper (r : Z) : bool := inTable Upper r.

End unicode.

(** ** Go strings *)

Module strings.

(** [strings.HasPrefix] *)
Definition HasPrefix (s p : string) : bool := String.prefix p s.

(** [strings.HasSuffix] *)
Definition HasSuffix (s suffix : string) : bool :=
  let n := String.length s in
  let m := String.length suffix in
  (m <=? n)%nat && String.eqb (String.substring (n - m) m s) suffix.

(** [strings.Contains]: [substr] occurs somewhere in [s]. *)
Fixpoint Contains (s substr : string) : bool :=
  String.prefix substr s ||
  match s with
  | EmptyString => false
  | String _ s' => Contains s' substr
  end.

(** [strings.TrimPrefix] *)
Definition TrimPrefix (s p : string) : string :=
  if String.prefix p s
  then String.substring (String.length p) (String.length s - String.length p) s
  else s.

(** [strings.TrimSuffix] *)
Definition TrimSuffix (s suffix : string) : string :=
  if HasSuffix s suffix
  then String.substring 0 (String.length s - String.length suffix) s
  else s.

(** The white space runes in their UTF-8 encodings.  No encoding is the
    beginning or the end of another, so a string starts with at most
    one of them and ends with at most one; it starts with one exactly
    when [unicode.IsSpace] holds of the rune that
    [utf8.DecodeRuneInString] gives, and ends with one exactly when it
    holds of the rune that [utf8.DecodeLastRuneInString] gives, also
    where the text around is not valid UTF-8 ([leadingSpace_first_rune]
    and [trailingSpace_last_rune] below). *)
Definition spaceRunes : list string := map utf8.EncodeRune unicode.White_Space.

(** The encoding of the white space rune that [s] starts with, and of
    the one it ends with. *)
Definition leadingSpace (s : string) : option string :=
  List.find (HasPrefix s) spaceRunes.

Definition trailingSpace (s : string) : option string :=
  List.find (HasSuffix s) spaceRunes.

(** The loops of [strings.TrimLeftFunc] and [strings.TrimRightFunc]
    with [unicode.IsSpace], for at most [n] runes. *)
Fixpoint trimLeftN (n : nat) (s : string) : string :=
  match n with
  | O => s
  | S n' =>
      match leadingSpace s with
      | Some e => trimLeftN n' (TrimPrefix s e)
      | None => s
      end
  end.

Fixpoint trimRightN (n : nat) (s : string) : string :=
  match n with
  | O => s
  | S n' =>
      match trailingSpace s with
      | Some e => trimRightN n' (TrimSuffix s e)
      | None => s
      end
  end.

Definition trimLeft (s : string) : string := trimLeftN (String.length s) s.

Definition trimRight (s : string) : string := trimRightN (String.length s) s.

(** [strings.TrimSpace]: leading and trailing white space removed, as
    defined by Unicode. *)
Definition TrimSpace (s : string) : string := trimRight (trimLeft s).

(** [strings.Trim s cutset] for a one-character cutset. *)
Fixpoint trimLeftChar (c : ascii) (s : string) : string :=
  match s with
  | String d s' => if Ascii.eqb c d then trimLeftChar c s' else s
  | EmptyString => EmptyString
  end.

Fixpoint trimRightChar (c : ascii) (s : string) : string :=
  match s with
  | EmptyString => EmptyString
  | String d s' =>
      match trimRightChar c s' with
      | EmptyString => if Ascii.eqb c d then EmptyString else String d EmptyString
      | r => String d r
      end
  end.

Definition TrimChar (s : string) (c : ascii) : string :=
  trimRightChar c (trimLeftChar c s).

(** [strings.Join] *)
Definition Join (elems : list string) (sep : string) : string :=
  String.concat sep elems.

End strings.

(** The order [a < b] on Go strings, and its reflexive version. *)
Definition str_lt (a b : string) : bool := String.ltb a b.
Definition str_le (a b : string) : Prop := String.leb a b = true.

(** ** [sort.Slice] and [sort.Strings]

    [sort.Slice] promises a sorted rearrangement and no stability; the
    extractor relies on nothing else.  [less] must be a strict weak
    order, as every comparison of this file is. *)

Record StrictWeak {A} (less : A -> A -> bool) : Prop := {
  sw_irrefl : forall x, less x x = false;
  sw_trans : forall x y z, less x y = true -> less y z = true -> less x z = true;
  sw_incomp : forall x y z, less x y = false -> less y z = false -> less x z = false
}.

(** [x] may stand before [y] in a slice sorted by [less]. *)
Definition notAfter {A} (less : A -> A -> bool) (x y : A) : Prop := less y x = false.

Class Sorter := {
  sort_Slice : forall {A}, (A -> A -> bool) -> list A -> list A;
  sort_Slice_perm : forall A (less : A -> A -> bool) (l : list A),
      Permutation (sort_Slice less l) l;
  sort_Slice_sorted : forall A (less : A -> A -> bool) (l : list A),
      StrictWeak less -> Sorted (notAfter less) (sort_Slice less l)
}.

Definition sort_Strings `{Sorter} (x : list string) : list string :=
  sort_Slice str_lt x.

(** The algorithm the Go runtime runs on slices of at most twelve
    elements ([insertionSortLessFunc]): each element moves left while it
    is less than its left neighbour.  [acc] is the sorted prefix, last
    element first. *)
Fixpoint insertLeft {A} (less : A -> A -> bool) (x : A) (acc : list A) : list A :=
  match acc with
  | [] => [x]
  | y :: rest => if less x y then y :: insertLeft less x rest else x :: acc
  end.

Definition insertionSort {A} (less : A -> A -> bool) (l : list A) : list A :=
  reverse (fold_left (fun acc x => insertLeft less x acc) l []).

(** ** Syntax trees ([go/ast]), as far as the extractor inspects them *)

Module ast.

(** [token.Pos]; [NoPos] is 0 and [IsValid] means different from it. *)
Definition Pos := Z.
Definition NoPos : Pos := 0%Z.
Definition IsValid (p : Pos) : bool := negb (p =? NoPos)%Z.

(** A comment group is seen only through its [Text()]. *)
Record CommentGroup := mkCommentGroup { Text : string }.

(** [ast.Expr] with the node kinds the extractor tells apart, and the
    usual type expressions around them.  A field list is a pointer to a
    list of fields ([None] for a nil [*ast.FieldList]). *)
#[warnings="-register-all"]
Inductive Expr :=
| Ident (Name : string)
| StarExpr (X : Expr)
| IndexExpr (X Index : Expr)
| IndexListExpr (X : Expr) (Indices : list Expr)
| ParenExpr (X : Expr)
| SelectorExpr (X : Expr) (Sel : string)
| Ellipsis (Elt : option Expr)
| ArrayType (Len : option Expr) (Elt : Expr)
| MapType (Key Value : Expr)
| ChanType (Value : Expr)
| StructType (Fields : option (list Field))
| InterfaceType (Methods : option (list Field))
| FuncType (TypeParams Params Results : option (list Field))
| BadExpr
with Field :=
| mkField (Doc : option CommentGroup) (Names : list string)
          (Type_ : option Expr) (Tag : option string)
          (Comment : option CommentGroup).

Definition FieldList := option (list Field).

Definition Field_Doc (f : Field) := let 'mkField d _ _ _ _ := f in d.
Definition Field_Names (f : Field) := let 'mkField _ n _ _ _ := f in n.
Definition Field_Type (f : Field) := let 'mkField _ _ t _ _ := f in t.
Definition Field_Tag (f : Field) := let 'mkField _ _ _ t _ := f in t.
Definition Field_Comment (f : Field) := let 'mkField _ _ _ _ c := f in c.

Record TypeSpec := mkTypeSpec {
  TypeSpec_Doc : option CommentGroup;
  TypeSpec_Name : string;
  TypeSpec_TypeParams : FieldList;
  TypeSpec_Assign : Pos;          (* position of '=', if any *)
  TypeSpec_Type : Expr;
  TypeSpec_Comment : option CommentGroup
}.

Inductive Spec :=
| SpecType (ts : TypeSpec)
| SpecImport (path : string)
| SpecValue (names : list string).

Inductive Token := IMPORT | CONST | TYPE | VAR.

Record GenDecl := mkGenDecl {
  GenDecl_Doc : option CommentGroup;
  GenDecl_Tok : Token;
  GenDecl_Specs : list Spec
}.

Record FuncDecl := mkFuncDecl {
  FuncDecl_Doc : option CommentGroup;
  FuncDecl_Recv : FieldList;
  FuncDecl_Name : string;
  FuncDecl_TypeParams : FieldList;   (* fn.Type.TypeParams *)
  FuncDecl_Params : FieldList;       (* fn.Type.Params *)
  FuncDecl_Results : FieldList       (* fn.Type.Results *)
}.

Inductive Decl :=
| DeclGen (gen : GenDecl)
| DeclFunc (fn : FuncDecl)
| DeclBad.

Record File := mkFile {
  File_Name : string;               (* package clause *)
  File_Decls : list Decl
}.

(** [ast.IsExported]: the first rune of the name is an upper case
    letter. *)
Definition IsExported (name : string) : bool :=
  unicode.IsUpper (fst (utf8.DecodeRuneInString name)).

End ast.

(** ** Paths and the file system *)

Definition Path := list string.

Module filepath.

(** [filepath.Dir]: the root is its own parent. *)
Definition Dir (p : Path) : Path := removelast p.

(** [filepath.Base] *)
Definition Base (p : Path) : string := List.last p "/".

(** [filepath.Join dir name] for a single name, and for an absolute
    second argument, which is appended below [dir]. *)
Definition Join (dir : Path) (elem : Path) : Path := dir ++ elem.

(** The components of [base] and [targ] after their common prefix. *)
Fixpoint stripCommon (base targ : Path) : Path * Path :=
  match base, targ with
  | b :: base', t :: targ' =>
      if String.eqb b t then stripCommon base' targ' else (base, targ)
  | _, _ => (base, targ)
  end.

(** [filepath.Rel]: [None] is its error ("can't make targ relative to
    base"). *)
Definition Rel (base targ : Path) : option string :=
  if decide (base = targ) then Some "."
  else
    let '(b, t) := stripCommon base targ in
    match b with
    | ".." :: _ => None
    | _ => Some (strings.Join (map (fun _ => "..") b ++ t) "/")
    end.

(** The printed form of an absolute path, with slashes. *)
Definition ToSlash (p : Path) : string := "/" ++ strings.Join p "/".

End filepath.

(** What reading a file line by line gives: [os.Open] fails, or the
    scanner delivers [lines] and then stops at the end of the file
    ([failed = false]) or on a read error. *)
Inductive Reading :=
| OpenError
| Scanned (lines : list string) (failed : bool).

(** What [parser.ParseFile] gives for a file; an error carries its
    message and whether it is [os.ErrNotExist]. *)
Inductive ParseResult :=
| ParseError (notExist : bool) (msg : string)
| Parsed (f : ast.File).

(** A file-system tree; a directory lists its entries by name, in the
    order [os.ReadDir] returns them. *)
#[warnings="-register-all"]
Inductive Node :=
| FileNode (content : Reading) (parsed : ParseResult)
| DirNode (entries : list (string * Node)).

Definition IsDir (n : Node) : bool :=
  match n with DirNode _ => true | FileNode _ _ => false end.

Fixpoint assoc {A} (k : string) (l : list (string * A)) : option A :=
  match l with
  | [] => None
  | (k', v) :: l' => if String.eqb k k' then Some v else assoc k l'
  end.

(** [os.Stat]: the node at a path, if there is one. *)
Fixpoint fs_lookup (fs : Node) (p : Path) : option Node :=
  match p with
  | [] => Some fs
  | c :: p' =>
      match fs with
      | DirNode es =>
          match assoc c es with
          | Some n => fs_lookup n p'
          | None => None
          end
      | FileNode _ _ => None
      end
  end.

(** Opening and scanning the file at a path; a directory opens but does
    not read. *)
Definition fs_read (fs : Node) (p : Path) : Reading :=
  match fs_lookup fs p with
  | Some (FileNode content _) => content
  | Some (DirNode _) => Scanned [] true
  | None => OpenError
  end.

Inductive error :=
| errNoGoFiles
| errStatRoot (root : Path)
| errParseDir (dir : Path) (msg : string)
| errOpen (p : Path)
| errRead (p : Path)
| errNoModulePath (p : Path).

Definition is_errNoGoFiles (e : error) : bool :=
  match e with errNoGoFiles => true | _ => false end.

(** ** The model ([uml/model.go]) *)

Record Module_ := mkModule {
  Module_Path : string;
  Module_Dir : Path
}.

Inductive TypeKind := TypeKindStruct | TypeKindInterface | TypeKindAlias | TypeKindOther.

Definition TypeKind_string (k : TypeKind) : string :=
  match k with
  | TypeKindStruct => "struct"
  | TypeKindInterface => "interface"
  | TypeKindAlias => "alias"
  | TypeKindOther => "other"
  end.

Record Param := mkParam {
  Param_Name : string;
  Param_Type : string
}.

Record TypeParam := mkTypeParam {
  TypeParam_Name : string;
  TypeParam_Constraint : string
}.

Record Field := mkField {
  Field_Name : string;
  Field_Type : string;
  Field_Tag : string;
  Field_Embedded : bool;
  Field_Exported : bool
}.

Record Function := mkFunction {
  Function_Name : string;
  Function_Exported : bool;
  Function_Doc : string;
  Function_Receiver : string;
  Function_TypeParams : list TypeParam;
  Function_Params : list Param;
  Function_Results : list Param;
  Function_Variadic : bool
}.

Record Type_ := mkType {
  Type_Name : string;
  Type_Kind : TypeKind;
  Type_Exported : bool;
  Type_Doc : string;
  Type_TypeParams : list TypeParam;
  Type_Fields : list Field;
  Type_Embedded : list string;
  Type_Methods : list Function
}.

Record Package := mkPackage {
  Package_Name : string;
  Package_ImportPath : string;
  Package_Dir : string;
  Package_Files : list string;
  Package_Types : list Type_;
  Package_Functions : list Function
}.

Record Model := mkModel {
  Model_GeneratedAt : Z;
  Model_Root : Path;
  Model_Module : option Module_;
  Model_Packages : list Package
}.

(** [uml.Options] and its defaults. *)
Record Options := mkOptions {
  IncludeTests : bool;
  IncludeGenerated : bool;
  ExcludeDirNames : list string;
  Indent : string
}.

Definition withDefaults (o : Options) : Options :=
  let o1 :=
    if (length (ExcludeDirNames o) =? 0)%nat
    then mkOptions (IncludeTests o) (IncludeGenerated o)
           [".git"; ".idea"; ".vscode"; "node_modules"; "testdata"; "vendor"]
           (Indent o)
    else o in
  if String.eqb (Indent o1) ""
  then mkOptions (IncludeTests o1) (IncludeGenerated o1) (ExcludeDirNames o1) "  "
  else o1.

(** ** Module locator *)

Definition goModName : string := "go.mod".

(** [fileExists]: [os.Stat] succeeds. *)
Definition fileExists (fs : Node) (p : Path) : bool :=
  match fs_lookup fs p with Some _ => true | None => false end.

(** The scanning loop of [readModulePath]: the first line that, trimmed,
    starts with the module keyword and a space or a tab. *)
Fixpoint scanModuleLine (lines : list string) : option string :=
  match lines with
  | [] => None
  | l :: rest =>
      let line := strings.TrimSpace l in
      if strings.HasPrefix line "module "
      then Some (strings.TrimSpace (strings.TrimPrefix line "module "))
      else if strings.HasPrefix line ("module" ++ String (ascii_of_nat 9) "")
      then Some (strings.TrimSpace
                   (strings.TrimPrefix line ("module" ++ String (ascii_of_nat 9) "")))
      else scanModuleLine rest
  end.

Definition readModulePath (fs : Node) (goModPath : Path) : error + string :=
  match fs_read fs goModPath with
  | OpenError => inl (errOpen goModPath)
  | Scanned lines failed =>
      match scanModuleLine lines with
      | Some modPath => inr modPath
      | None =>
          if failed then inl (errRead goModPath)
          else inl (errNoModulePath goModPath)
      end
  end.

(** [moduleLocator]: the cache from directories to their module, where a
    cached [None] is Go's cached nil. *)
Abbreviation moduleLocator := (gmap Path (option Module_)).

Definition newModuleLocator : moduleLocator := ∅.

(** [moduleLocator.moduleForDir], by recursion on the directory read
    innermost component first, so that the parent is the tail; the empty
    path is the root, which is its own parent. *)
Fixpoint moduleForDirUp (fs : Node) (rdir : list string) (ml : moduleLocator)
  : (error + option Module_) * moduleLocator :=
  let dir := rev rdir in
  match ml !! dir with
  | Some cached => (inr cached, ml)
  | None =>
      let gomod := filepath.Join dir [goModName] in
      if fileExists fs gomod then
        match readModulePath fs gomod with
        | inl err => (inl err, ml)
        | inr modPath =>
            let found := Some (mkModule modPath dir) in
            (inr found, <[dir := found]> ml)
        end
      else
        match rdir with
        | [] => (inr None, <[dir := None]> ml)
        | _ :: rparent =>
            match moduleForDirUp fs rparent ml with
            | (inl err, ml') => (inl err, ml')
            | (inr found, ml') => (inr found, <[dir := found]> ml')
            end
        end
  end.

Definition moduleForDir (fs : Node) (ml : moduleLocator) (dir : Path)
  : (error + option Module_) * moduleLocator :=
  moduleForDirUp fs (rev dir) ml.

(** ** File filter *)

(** The scanning loop of [isGeneratedFile] over at most [n] lines. *)
Fixpoint scanGenerated (n : nat) (lines : list string) : bool :=
  match n, lines with
  | S n', line :: rest =>
      if strings.Contains line "DO NOT EDIT" && strings.Contains line "Code generated"
      then true
      else scanGenerated n' rest
  | _, _ => false
  end.

(** [isGeneratedFile]: the answer and whether an error came with it.  The
    scanner's error is looked at only when the loop ended because
    [Scan] returned false, that is with fewer than 20 lines read. *)
Definition isGeneratedFile (fs : Node) (path : Path) : bool * bool :=
  match fs_read fs path with
  | OpenError => (false, true)
  | Scanned lines failed =>
      if scanGenerated 20 lines then (true, false)
      else if failed && (length lines <? 20)%nat then (false, true)
      else (false, false)
  end.

(** The [filter] closure of [parseDir]. *)
Definition fileFilter (fs : Node) (dir : Path) (onlyFile : string) (opts : Options)
    (name : string) : bool :=
  if negb (strings.HasSuffix name ".go") then false
  else if negb (String.eqb onlyFile "") && negb (String.eqb name onlyFile) then false
  else if negb (IncludeTests opts) && strings.HasSuffix name "_test.go" then false
  else if negb (IncludeGenerated opts) then
    let '(isGen, err) := isGeneratedFile fs (filepath.Join dir [name]) in
    if negb err && isGen then false else true
  else true.

(** ** Ranging over Go maps

    The iteration order of a Go map is unspecified, and every [range]
    loop draws its own.  The four loops over maps of [generate.go] are
    told apart: each sees the entries of its map in an order that
    [rangeOrder] chooses for that loop and that map. *)

Inductive RangeSite :=
| rangeParsed    (* [parseDir]: the packages of a directory *)
| rangeTypes     (* [extractPackage]: the files, in pass 1 *)
| rangeFuncs     (* [extractPackage]: the files, in pass 2 *)
| rangeFiles.    (* [packageFiles]: the files *)

Class MapRange := {
  rangeOrder : RangeSite -> forall {K A}, list (K * A) -> list (K * A);
  rangeOrder_perm : forall site K A (l : list (K * A)),
      Permutation (rangeOrder site l) l
}.

Definition range `{MapRange} `{Countable K} {A} (site : RangeSite) (m : gmap K A)
  : list (K * A) :=
  rangeOrder site (map_to_list m).

(** [ast.Package] *)
Record ast_Package := mkAstPackage {
  ast_Package_Name : string;
  ast_Package_Files : gmap Path ast.File
}.

(** ** Declaration extractor and method binder *)

Definition Type_setMethods (t : Type_) (ms : list Function) : Type_ :=
  mkType (Type_Name t) (Type_Kind t) (Type_Exported t) (Type_Doc t)
         (Type_TypeParams t) (Type_Fields t) (Type_Embedded t) ms.

Definition Package_setTypes (p : Package) (ts : list Type_) : Package :=
  mkPackage (Package_Name p) (Package_ImportPath p) (Package_Dir p)
            (Package_Files p) ts (Package_Functions p).

Definition Package_setFunctions (p : Package) (fns : list Function) : Package :=
  mkPackage (Package_Name p) (Package_ImportPath p) (Package_Dir p)
            (Package_Files p) (Package_Types p) fns.

Definition Function_setReceiver (f : Function) (r : string) : Function :=
  mkFunction (Function_Name f) (Function_Exported f) (Function_Doc f) r
             (Function_TypeParams f) (Function_Params f) (Function_Results f)
             (Function_Variadic f).

Fixpoint receiverBaseName (expr : ast.Expr) : string :=
  match expr with
  | ast.Ident name => name
  | ast.StarExpr x => receiverBaseName x
  | ast.IndexExpr x _ => receiverBaseName x
  | ast.IndexListExpr x _ => receiverBaseName x
  | ast.ParenExpr x => receiverBaseName x
  | _ => ""
  end.

Definition docText (primary fallback : option ast.CommentGroup) (fallbackAllowed : bool)
  : string :=
  match primary with
  | Some c => strings.TrimSpace (ast.Text c)
  | None =>
      match fallback with
      | Some c => if fallbackAllowed then strings.TrimSpace (ast.Text c) else ""
      | None => ""
      end
  end.

Definition kindForTypeSpec (ts : ast.TypeSpec) : TypeKind :=
  if ast.IsValid (ast.TypeSpec_Assign ts) then TypeKindAlias
  else
    match ast.TypeSpec_Type ts with
    | ast.StructType _ => TypeKindStruct
    | ast.InterfaceType _ => TypeKindInterface
    | _ => TypeKindOther
    end.

Definition toRelPath (baseDir path : Path) : string :=
  match filepath.Rel baseDir path with
  | None => filepath.ToSlash path
  | Some rel => rel
  end.

Section Extractor.

Context {sorter : Sorter} {order : MapRange}.

(** [printer.Fprint] on an expression. *)
Variable printExpr : ast.Expr -> string.

(** [exprString]; printing a nil expression fails and leaves the
    buffer empty. *)
Definition exprString (expr : option ast.Expr) : string :=
  match expr with
  | Some e => printExpr e
  | None => ""
  end.

Definition isEllipsis (expr : option ast.Expr) : bool :=
  match expr with
  | Some (ast.Ellipsis _) => true
  | _ => false
  end.

Definition parseTypeParams (params : ast.FieldList) : list TypeParam :=
  match params with
  | None | Some [] => []
  | Some l =>
      flat_map (fun field =>
        let constraint :=
          match ast.Field_Type field with
          | Some e => exprString (Some e)
          | None => ""
          end in
        map (fun name => mkTypeParam name constraint) (ast.Field_Names field)) l
  end.

(** One parameter group: an unnamed parameter, or one per name. *)
Definition paramsOfField (field : ast.Field) : list Param :=
  let typ := exprString (ast.Field_Type field) in
  match ast.Field_Names field with
  | [] => [mkParam "" typ]
  | names => map (fun name => mkParam name typ) names
  end.

(** [parseParams]: [variadic] is set at the last group only. *)
Definition parseParams (params : ast.FieldList) : list Param * bool :=
  match params with
  | None | Some [] => ([], false)
  | Some l =>
      let n := length l in
      let '(out, variadic, _) :=
        fold_left (fun '(out, variadic, i) field =>
          let variadic' :=
            if (i =? n - 1)%nat then isEllipsis (ast.Field_Type field) else variadic in
          (out ++ paramsOfField field, variadic', S i)) l ([], false, 0%nat) in
      (out, variadic)
  end.

Definition parseResults (results : ast.FieldList) : list Param :=
  match results with
  | None | Some [] => []
  | Some l => flat_map paramsOfField l
  end.

Definition parseStructFields (fields : ast.FieldList) : list Field * list string :=
  match fields with
  | None | Some [] => ([], [])
  | Some l =>
      fold_left (fun '(out, embedded) field =>
        let typ := exprString (ast.Field_Type field) in
        let tag :=
          match ast.Field_Tag field with
          | Some v => strings.TrimChar v "`"%char
          | None => ""
          end in
        match ast.Field_Names field with
        | [] => (out, embedded ++ [typ])
        | names =>
            (out ++ map (fun name =>
                      mkField name typ tag false (ast.IsExported name)) names,
             embedded)
        end) l ([], [])
  end.

Definition parseInterfaceMethods (methods : ast.FieldList) : list Function * list string :=
  match methods with
  | None | Some [] => ([], [])
  | Some l =>
      fold_left (fun '(out, embedded) field =>
        match ast.Field_Names field with
        | [] => (out, embedded ++ [exprString (ast.Field_Type field)])
        | [name] =>
            match ast.Field_Type field with
            | Some (ast.FuncType typeParams params results) =>
                let '(ps, variadic) := parseParams params in
                let fnModel :=
                  mkFunction name (ast.IsExported name)
                    (docText (ast.Field_Doc field) (ast.Field_Comment field) false)
                    "" (parseTypeParams typeParams) ps (parseResults results) variadic in
                (out ++ [fnModel], embedded)
            | _ => (out, embedded)
            end
        | _ => (out, embedded)
        end) l ([], [])
  end.

(** Pass 1, the body of the loop over the specs of a type declaration:
    the [Type] of one spec is appended and indexed under its name. *)
Definition typeOfSpec (gen : ast.GenDecl) (ts : ast.TypeSpec) : Type_ :=
  let name := ast.TypeSpec_Name ts in
  let kind := kindForTypeSpec ts in
  let exported := ast.IsExported name in
  let doc := docText (ast.TypeSpec_Doc ts) (ast.GenDecl_Doc gen)
               (length (ast.GenDecl_Specs gen) =? 1)%nat in
  let tps := parseTypeParams (ast.TypeSpec_TypeParams ts) in
  match ast.TypeSpec_Type ts with
  | ast.StructType fields =>
      let '(fs, embedded) := parseStructFields fields in
      mkType name kind exported doc tps fs embedded []
  | ast.InterfaceType methods =>
      let '(ms, embedded) := parseInterfaceMethods methods in
      mkType name kind exported doc tps [] embedded ms
  | _ => mkType name kind exported doc tps [] [] []
  end.

Definition ExtractState : Type := Package * gmap string nat.

Definition declareSpec (gen : ast.GenDecl) (st : ExtractState) (spec : ast.Spec)
  : ExtractState :=
  let '(pkgModel, typesByName) := st in
  match spec with
  | ast.SpecType ts =>
      let t := typeOfSpec gen ts in
      let types := Package_Types pkgModel ++ [t] in
      (Package_setTypes pkgModel types, <[Type_Name t := (length types - 1)%nat]> typesByName)
  | _ => st
  end.

Definition declareDecl (st : ExtractState) (decl : ast.Decl) : ExtractState :=
  match decl with
  | ast.DeclGen gen =>
      match ast.GenDecl_Tok gen with
      | ast.TYPE => fold_left (declareSpec gen) (ast.GenDecl_Specs gen) st
      | _ => st
      end
  | _ => st
  end.

Definition declareFile (st : ExtractState) (file : Path * ast.File) : ExtractState :=
  fold_left declareDecl (ast.File_Decls (snd file)) st.

(** Pass 2, the body of the loop over declarations: a function is
    built and put on the free list or on the method list of its
    receiver's type. *)
Definition functionOfDecl (fn : ast.FuncDecl) : Function :=
  let name := ast.FuncDecl_Name fn in
  let '(ps, variadic) := parseParams (ast.FuncDecl_Params fn) in
  mkFunction name (ast.IsExported name)
    (docText (ast.FuncDecl_Doc fn) None false) ""
    (parseTypeParams (ast.FuncDecl_TypeParams fn)) ps
    (parseResults (ast.FuncDecl_Results fn)) variadic.

Definition appendFunction (pkgModel : Package) (fnModel : Function) : Package :=
  Package_setFunctions pkgModel (Package_Functions pkgModel ++ [fnModel]).

Definition appendMethod (pkgModel : Package) (idx : nat) (fnModel : Function) : Package :=
  Package_setTypes pkgModel
    (alter (fun t => Type_setMethods t (Type_Methods t ++ [fnModel])) idx
           (Package_Types pkgModel)).

Definition bindFunc (typesByName : gmap string nat) (pkgModel : Package)
    (fn : ast.FuncDecl) : Package :=
  let fnModel := functionOfDecl fn in
  match ast.FuncDecl_Recv fn with
  | None | Some [] => appendFunction pkgModel fnModel
  | Some (recv :: _) =>
      let recvType := ast.Field_Type recv in
      let fnModel := Function_setReceiver fnModel (exprString recvType) in
      let recvName :=
        match recvType with
        | Some e => receiverBaseName e
        | None => ""
        end in
      if String.eqb recvName "" then appendFunction pkgModel fnModel
      else
        match typesByName !! recvName with
        | Some idx => appendMethod pkgModel idx fnModel
        | None => appendFunction pkgModel fnModel
        end
  end.

Definition bindDecl (typesByName : gmap string nat) (pkgModel : Package)
    (decl : ast.Decl) : Package :=
  match decl with
  | ast.DeclFunc fn => bindFunc typesByName pkgModel fn
  | _ => pkgModel
  end.

Definition bindFile (typesByName : gmap string nat) (pkgModel : Package)
    (file : Path * ast.File) : Package :=
  fold_left (bindDecl typesByName) (ast.File_Decls (snd file)) pkgModel.

Definition packageFiles (relBase dir : Path) (pkg : ast_Package) : list string :=
  sort_Strings
    (map (fun file => toRelPath relBase (filepath.Join dir (fst file)))
         (range rangeFiles (ast_Package_Files pkg))).

(** The import path of a package in [dir] under the module [modl]. *)
Definition importPathFor (modl : option Module_) (dir : Path) : string :=
  match modl with
  | Some m =>
      match filepath.Rel (Module_Dir m) dir with
      | Some rel =>
          if String.eqb rel "." then Module_Path m
          else Module_Path m ++ "/" ++ rel
      | None => ""
      end
  | None => ""
  end.

(** The two passes of [extractPackage] over the files of the package. *)
Definition extractDecls (pkgModel : Package) (pkg : ast_Package) : Package :=
  let '(pkgModel, typesByName) :=
    fold_left declareFile (range rangeTypes (ast_Package_Files pkg)) (pkgModel, ∅) in
  fold_left (bindFile typesByName) (range rangeFuncs (ast_Package_Files pkg)) pkgModel.

Definition extractPackage (fs : Node) (ml : moduleLocator) (dir : Path)
    (pkgName : string) (pkg : ast_Package) (relBase : Path)
  : (error + Package) * moduleLocator :=
  match moduleForDir fs ml dir with
  | (inl err, ml') => (inl err, ml')
  | (inr modl, ml') =>
      let pkgModel :=
        mkPackage pkgName (importPathFor modl dir) (toRelPath relBase dir)
                  (packageFiles relBase dir pkg) [] [] in
      (inr (extractDecls pkgModel pkg), ml')
  end.

(** ** Canonicalizer *)

Definition byName {A} (name : A -> string) (a b : A) : bool :=
  str_lt (name a) (name b).

Definition sortType (t : Type_) : Type_ :=
  mkType (Type_Name t) (Type_Kind t) (Type_Exported t) (Type_Doc t)
         (Type_TypeParams t)
         (sort_Slice (byName Field_Name) (Type_Fields t))
         (sort_Strings (Type_Embedded t))
         (sort_Slice (byName Function_Name) (Type_Methods t)).

Definition sortPackage (pkg : Package) : Package :=
  mkPackage (Package_Name pkg) (Package_ImportPath pkg) (Package_Dir pkg)
            (sort_Strings (Package_Files pkg))
            (map sortType (sort_Slice (byName Type_Name) (Package_Types pkg)))
            (sort_Slice (byName Function_Name) (Package_Functions pkg)).

End Extractor.

(** ** [filepath.WalkDir] *)

(** What a walk function returns: nil, [fs.SkipDir], or another error. *)
Inductive WalkResult :=
| walkNil
| walkSkipDir
| walkFail (e : error).

Section WalkDir.

Context {S : Type}.

(** The walk function, given the path, [entry.Name()], [entry.IsDir()]
    and the state its closure updates. *)
Variable fn : Path -> string -> bool -> S -> WalkResult * S.

Fixpoint walkDir (path : Path) (name : string) (d : Node) (st : S) : WalkResult * S :=
  match fn path name (IsDir d) st with
  | (walkNil, st1) =>
      match d with
      | FileNode _ _ => (walkNil, st1)
      | DirNode es =>
          (fix walkEntries (es : list (string * Node)) (st : S) : WalkResult * S :=
             match es with
             | [] => (walkNil, st)
             | (n1, d1) :: es' =>
                 match walkDir (filepath.Join path [n1]) n1 d1 st with
                 | (walkNil, st') => walkEntries es' st'
                 | (walkSkipDir, st') => (walkNil, st')
                 | (walkFail e, st') => (walkFail e, st')
                 end
             end) es st1
      end
  | (walkSkipDir, st1) =>
      if IsDir d then (walkNil, st1) else (walkSkipDir, st1)
  | (walkFail e, st1) => (walkFail e, st1)
  end.

(** The loop of [walkDir] over the entries of a directory. *)
Fixpoint walkEntries (path : Path) (es : list (string * Node)) (st : S) : WalkResult * S :=
  match es with
  | [] => (walkNil, st)
  | (n1, d1) :: es' =>
      match walkDir (filepath.Join path [n1]) n1 d1 st with
      | (walkNil, st') => walkEntries path es' st'
      | (walkSkipDir, st') => (walkNil, st')
      | (walkFail e, st') => (walkFail e, st')
      end
  end.

Definition WalkDir (root : Path) (info : Node) (st : S) : option error * S :=
  match walkDir root (filepath.Base root) info st with
  | (walkFail e, st') => (Some e, st')
  | (_, st') => (None, st')
  end.

End WalkDir.

(** ** Model assembler *)

Section Assembler.

Context {sorter : Sorter} {order : MapRange}.
Variable printExpr : ast.Expr -> string.

Definition nodeParsed (d : Node) : ParseResult :=
  match d with
  | FileNode _ parsed => parsed
  | DirNode _ => ParseError false "is a directory"
  end.

(** One step of the loop of [parser.ParseDir] over the directory
    entries. *)
Definition parseEntry (dir : Path) (filter : string -> bool)
    (acc : gmap string ast_Package * option (bool * string))
    (entry : string * Node) : gmap string ast_Package * option (bool * string) :=
  let '(pkgs, first) := acc in
  let '(name, d) := entry in
  if IsDir d || negb (strings.HasSuffix name ".go") then acc
  else if negb (filter name) then acc
  else
    let filename := filepath.Join dir [name] in
    match nodeParsed d with
    | Parsed src =>
        let pname := ast.File_Name src in
        let pkg :=
          match pkgs !! pname with
          | Some pkg => pkg
          | None => mkAstPackage pname ∅
          end in
        (<[pname := mkAstPackage (ast_Package_Name pkg)
                      (<[filename := src]> (ast_Package_Files pkg))]> pkgs,
         first)
    | ParseError notExist msg =>
        (pkgs, match first with None => Some (notExist, msg) | Some _ => first end)
    end.

(** [parser.ParseDir]: the packages of the directory by name, and the
    first error. *)
Definition ParseDir (fs : Node) (dir : Path) (filter : string -> bool)
  : gmap string ast_Package * option (bool * string) :=
  match fs_lookup fs dir with
  | None => (∅, Some (true, ("open " ++ filepath.ToSlash dir ++ ": no such file or directory")%string))
  | Some (FileNode _ _) =>
      (∅, Some (false, ("open " ++ filepath.ToSlash dir ++ ": not a directory")%string))
  | Some (DirNode es) => fold_left (parseEntry dir filter) es (∅, None)
  end.

(** The loop of [parseDir] over the parsed packages. *)
Fixpoint extractAll (fs : Node) (ml : moduleLocator) (dir relBase : Path)
    (parsed : list (string * ast_Package)) (out : list Package)
  : (error + list Package) * moduleLocator :=
  match parsed with
  | [] => (inr out, ml)
  | (pkgName, pkg) :: rest =>
      match extractPackage printExpr fs ml dir pkgName pkg relBase with
      | (inl err, ml') => (inl err, ml')
      | (inr pkgModel, ml') =>
          extractAll fs ml' dir relBase rest (out ++ [sortPackage pkgModel])
      end
  end.

Definition parseDir (fs : Node) (ml : moduleLocator) (dir : Path) (onlyFile : string)
    (relBase : Path) (opts : Options) : (error + list Package) * moduleLocator :=
  match ParseDir fs dir (fileFilter fs dir onlyFile opts) with
  | (_, Some (notExist, msg)) =>
      if notExist then (inl errNoGoFiles, ml)
      else if strings.Contains msg "no Go files" then (inl errNoGoFiles, ml)
      else (inl (errParseDir dir msg), ml)
  | (parsed, None) =>
      if (size parsed =? 0)%nat then (inl errNoGoFiles, ml)
      else extractAll fs ml dir relBase (range rangeParsed parsed) []
  end.

(** The state the walk function of [Generate] closes over. *)
Definition WalkState : Type := list Package * moduleLocator.

(** The walk function of [Generate].  The directories of the model can
    always be listed, so the [walkErr] it is called with is nil. *)
Definition walkFn (fs : Node) (excluded : gset string) (baseDir : Path) (opts : Options)
    (path : Path) (name : string) (isDir : bool) (st : WalkState)
  : WalkResult * WalkState :=
  let '(pkgs, ml) := st in
  if negb isDir then (walkNil, st)
  else if bool_decide (name ∈ excluded) then (walkSkipDir, st)
  else
    match parseDir fs ml path "" baseDir opts with
    | (inl err, ml') =>
        if is_errNoGoFiles err then (walkNil, (pkgs, ml'))
        else (walkFail err, (pkgs, ml'))
    | (inr parsed, ml') => (walkNil, (pkgs ++ parsed, ml'))
    end.

(** The comparison of the final sort of [Generate]. *)
Definition packageLess (a b : Package) : bool :=
  if negb (String.eqb (Package_ImportPath a) (Package_ImportPath b))
  then str_lt (Package_ImportPath a) (Package_ImportPath b)
  else if negb (String.eqb (Package_Dir a) (Package_Dir b))
  then str_lt (Package_Dir a) (Package_Dir b)
  else str_lt (Package_Name a) (Package_Name b).

(** The packages of the run, before the final sort. *)
Definition collectPackages (fs : Node) (ml : moduleLocator) (rootAbs baseDir : Path)
    (onlyFile : string) (rootInfo : Node) (opts : Options) : error + list Package :=
  if negb (String.eqb onlyFile "") then
    match parseDir fs ml baseDir onlyFile baseDir opts with
    | (inl err, _) => inl err
    | (inr pkgs, _) => inr pkgs
    end
  else
    let excluded : gset string := list_to_set (ExcludeDirNames opts) in
    match WalkDir (walkFn fs excluded baseDir opts) rootAbs rootInfo ([], ml) with
    | (Some err, _) => inl err
    | (None, (pkgs, _)) => inr pkgs
    end.

(** [Generate], at the time [now], on the file system [fs]; [root] is
    the absolute path of the root. *)
Definition Generate (now : Z) (fs : Node) (root : Path) (opts : Options) : error + Model :=
  let opts := withDefaults opts in
  let rootAbs := root in
  match fs_lookup fs rootAbs with
  | None => inl (errStatRoot rootAbs)
  | Some rootInfo =>
      let '(baseDir, onlyFile) :=
        if negb (IsDir rootInfo)
        then (filepath.Dir rootAbs, filepath.Base rootAbs)
        else (rootAbs, "") in
      match moduleForDir fs newModuleLocator baseDir with
      | (inl err, _) => inl err
      | (inr rootModule, modLocator) =>
          match collectPackages fs modLocator rootAbs baseDir onlyFile rootInfo opts with
          | inl err => inl err
          | inr pkgs =>
              inr (mkModel now rootAbs rootModule (sort_Slice packageLess pkgs))
          end
      end
  end.

End Assembler.

(** * Properties *)

(** ** The order on strings *)

Lemma compare_as_OT (a b : string) : String.compare a b = String_as_OT.compare a b.
Proof. reflexivity. Qed.

Lemma compare_refl (a : string) : String.compare a a = Eq.
Proof.
  pose proof (String.compare_antisym a a) as E.
  destruct (String.compare a a); simpl in E; congruence.
Qed.

Lemma compare_lt_trans (a b c : string) :
  String.compare a b = Lt -> String.compare b c = Lt -> String.compare a c = Lt.
Proof.
  rewrite !compare_as_OT. intros Hab Hbc.
  exact (StrictOrder_Transitive (R := String_as_OT.lt) a b c Hab Hbc).
Qed.

Lemma str_lt_irrefl (a : string) : str_lt a a = false.
Proof. unfold str_lt, String.ltb. now rewrite compare_refl. Qed.

Lemma str_lt_iff (a b : string) : str_lt a b = true <-> String.compare a b = Lt.
Proof. unfold str_lt, String.ltb. destruct (String.compare a b); split; congruence. Qed.

Lemma str_lt_false_iff (a b : string) : str_lt a b = false <-> str_le b a.
Proof.
  unfold str_lt, str_le, String.ltb, String.leb.
  rewrite (String.compare_antisym b a).
  destruct (String.compare a b); simpl; split; congruence.
Qed.

Lemma str_lt_trans (a b c : string) :
  str_lt a b = true -> str_lt b c = true -> str_lt a c = true.
Proof. rewrite !str_lt_iff. apply compare_lt_trans. Qed.

Lemma str_lt_asym (a b : string) : str_lt a b = true -> str_lt b a = false.
Proof.
  rewrite str_lt_iff. intros Hab. unfold str_lt, String.ltb.
  rewrite (String.compare_antisym b a), Hab. reflexivity.
Qed.

Lemma str_lt_total (a b : string) :
  str_lt a b = false -> str_lt b a = false -> a = b.
Proof.
  unfold str_lt, String.ltb. intros Hab Hba.
  apply String.compare_eq_iff.
  rewrite (String.compare_antisym b a) in Hba.
  destruct (String.compare a b); simpl in *; congruence.
Qed.

Lemma str_lt_incomp (a b c : string) :
  str_lt a b = false -> str_lt b c = false -> str_lt a c = false.
Proof.
  intros Hab Hbc.
  destruct (str_lt a c) eqn:Hac; [|reflexivity].
  destruct (str_lt c b) eqn:Hcb.
  - rewrite (str_lt_trans a c b Hac Hcb) in Hab. discriminate.
  - pose proof (str_lt_total b c Hbc Hcb) as ->. congruence.
Qed.

Lemma str_le_refl (a : string) : str_le a a.
Proof. apply str_lt_false_iff, str_lt_irrefl. Qed.

Lemma str_le_trans (a b c : string) : str_le a b -> str_le b c -> str_le a c.
Proof.
  rewrite <- !str_lt_false_iff. intros Hba Hcb. exact (str_lt_incomp c b a Hcb Hba).
Qed.

Lemma str_lt_le (a b : string) : str_lt a b = true -> str_le a b.
Proof. intros Hlt. apply str_lt_false_iff, str_lt_asym, Hlt. Qed.

Lemma str_lt_StrictWeak : StrictWeak str_lt.
Proof.
  split; [apply str_lt_irrefl | apply str_lt_trans | apply str_lt_incomp].
Qed.

Lemma byName_StrictWeak {A} (name : A -> string) : StrictWeak (byName name).
Proof.
  unfold byName; split; intros.
  - apply str_lt_irrefl.
  - eapply str_lt_trans; eassumption.
  - eapply str_lt_incomp; eassumption.
Qed.

(** Sorted by a name: every element's name is at most the next one's. *)
Definition sortedBy {A} (name : A -> string) (l : list A) : Prop :=
  Sorted (fun a b => str_le (name a) (name b)) l.

Lemma Sorted_mono {A} (R1 R2 : A -> A -> Prop) (l : list A) :
  (forall a b, R1 a b -> R2 a b) -> Sorted R1 l -> Sorted R2 l.
Proof.
  intros Himpl Hs. induction Hs as [|a l Hs IH Hhd]; constructor; [exact IH|].
  destruct Hhd; constructor. now apply Himpl.
Qed.

Lemma sorted_byName {A} (name : A -> string) (l : list A) :
  Sorted (notAfter (byName name)) l -> sortedBy name l.
Proof.
  unfold sortedBy. apply Sorted_mono.
  intros a b Hab. apply str_lt_false_iff, Hab.
Qed.

(** ** Insertion sort meets the contract of [sort.Slice] *)

Section InsertionSort.

Context {A : Type} (less : A -> A -> bool).

Lemma insertLeft_perm (x : A) (acc : list A) :
  Permutation (insertLeft less x acc) (x :: acc).
Proof.
  induction acc as [|y rest IH]; simpl; [reflexivity|].
  destruct (less x y); [|reflexivity].
  rewrite IH. apply perm_swap.
Qed.

Lemma fold_insertLeft_perm (l acc : list A) :
  Permutation (fold_left (fun acc x => insertLeft less x acc) l acc) (l ++ acc).
Proof.
  revert acc; induction l as [|x l IH]; intros acc; simpl; [reflexivity|].
  rewrite IH, insertLeft_perm. symmetry. apply Permutation_middle.
Qed.

Lemma insertionSort_perm (l : list A) : Permutation (insertionSort less l) l.
Proof.
  unfold insertionSort. rewrite reverse_Permutation, fold_insertLeft_perm.
  now rewrite app_nil_r.
Qed.

Hypothesis less_sw : StrictWeak less.

Lemma less_asym (x y : A) : less x y = true -> less y x = false.
Proof.
  intros Hxy. destruct (less y x) eqn:Hyx; [|reflexivity].
  pose proof (sw_trans less less_sw x y x Hxy Hyx) as Hxx.
  rewrite (sw_irrefl less less_sw x) in Hxx. discriminate.
Qed.

Lemma insertLeft_HdRel (x y : A) (rest : list A) :
  less x y = true ->
  HdRel (flip (notAfter less)) y rest ->
  HdRel (flip (notAfter less)) y (insertLeft less x rest).
Proof.
  intros Hxy Hhd. destruct rest as [|z rest]; simpl.
  - constructor. now apply less_asym.
  - destruct (less x z).
    + constructor. now inversion Hhd.
    + constructor. now apply less_asym.
Qed.

Lemma insertLeft_sorted (x : A) (acc : list A) :
  Sorted (flip (notAfter less)) acc ->
  Sorted (flip (notAfter less)) (insertLeft less x acc).
Proof.
  induction 1 as [|y rest Hs IH Hhd]; simpl.
  - repeat constructor.
  - destruct (less x y) eqn:Hxy.
    + constructor; [exact IH|]. now apply insertLeft_HdRel.
    + constructor; [now constructor|]. constructor. exact Hxy.
Qed.

Lemma fold_insertLeft_sorted (l acc : list A) :
  Sorted (flip (notAfter less)) acc ->
  Sorted (flip (notAfter less)) (fold_left (fun acc x => insertLeft less x acc) l acc).
Proof.
  revert acc; induction l as [|x l IH]; intros acc Hacc; simpl; [exact Hacc|].
  apply IH, insertLeft_sorted, Hacc.
Qed.

Lemma insertionSort_sorted (l : list A) : Sorted (notAfter less) (insertionSort less l).
Proof.
  unfold insertionSort.
  eapply Sorted_mono; [|apply Sorted_reverse, (fold_insertLeft_sorted l []); constructor].
  intros a b Hab. exact Hab.
Qed.

End InsertionSort.

(** The sorter of short slices. *)
Definition insertionSorter : Sorter := {|
  sort_Slice := @insertionSort;
  sort_Slice_perm := @insertionSort_perm;
  sort_Slice_sorted := fun A less l Hsw => insertionSort_sorted less Hsw l
|}.

(** Iteration orders: the entries as the map lists them in every loop,
    that list backwards in every loop, and the list as it is in pass 1
    but backwards in the other loops. *)
Definition rangeForward : MapRange := {|
  rangeOrder := fun _ K A l => l;
  rangeOrder_perm := fun _ K A l => Permutation_refl l
|}.

Definition rangeBackward : MapRange := {|
  rangeOrder := fun _ K A l => reverse l;
  rangeOrder_perm := fun _ K A l => reverse_Permutation l
|}.

Definition rangeMixed : MapRange := {|
  rangeOrder := fun site K A l =>
    match site with rangeTypes => l | _ => reverse l end;
  rangeOrder_perm := fun site K A l =>
    match site return Permutation (match site with rangeTypes => l | _ => reverse l end) l
    with
    | rangeTypes => Permutation_refl l
    | _ => reverse_Permutation l
    end
|}.

(** A printer for the expressions of the examples. *)
Fixpoint printSimple (e : ast.Expr) : string :=
  match e with
  | ast.Ident name => name
  | ast.StarExpr x => "*" ++ printSimple x
  | ast.ParenExpr x => "(" ++ printSimple x ++ ")"
  | ast.IndexExpr x i => printSimple x ++ "[" ++ printSimple i ++ "]"
  | ast.IndexListExpr x l =>
      printSimple x ++ "[" ++ strings.Join (map printSimple l) ", " ++ "]"
  | ast.SelectorExpr x sel => printSimple x ++ "." ++ sel
  | ast.Ellipsis (Some x) => "..." ++ printSimple x
  | ast.ArrayType None x => "[]" ++ printSimple x
  | ast.MapType k v => "map[" ++ printSimple k ++ "]" ++ printSimple v
  | ast.ChanType v => "chan " ++ printSimple v
  | _ => "?"
  end.

(** ** Kind classification *)

(** C4, amended. The kind recorded for a type declaration is alias
    whenever the declaration has the alias-assignment sign, whatever
    its type expression; without it the kind is decided by the
    outermost node of the type expression as it is written: struct for
    a struct type, interface for an interface type, and other for every
    other expression, among them a struct or interface type in
    parentheses and the name of a type declared elsewhere.  Members are
    recorded by the same test: a type expression that is not itself a
    struct or an interface type gives no field, no embedded name and no
    method. *)
Theorem kind_classification (printExpr : ast.Expr -> string)
    (gen : ast.GenDecl) (ts : ast.TypeSpec) :
  Type_Kind (typeOfSpec printExpr gen ts) = kindForTypeSpec ts /\
  kindForTypeSpec ts =
    (if decide (ast.TypeSpec_Assign ts = ast.NoPos) then
       match ast.TypeSpec_Type ts with
       | ast.StructType _ => TypeKindStruct
       | ast.InterfaceType _ => TypeKindInterface
       | _ => TypeKindOther
       end
     else TypeKindAlias) /\
  match ast.TypeSpec_Type ts with
  | ast.StructType fields =>
      Type_Fields (typeOfSpec printExpr gen ts) = fst (parseStructFields printExpr fields) /\
      Type_Embedded (typeOfSpec printExpr gen ts)
        = snd (parseStructFields printExpr fields) /\
      Type_Methods (typeOfSpec printExpr gen ts) = []
  | ast.InterfaceType methods =>
      Type_Fields (typeOfSpec printExpr gen ts) = [] /\
      Type_Embedded (typeOfSpec printExpr gen ts)
        = snd (parseInterfaceMethods printExpr methods) /\
      Type_Methods (typeOfSpec printExpr gen ts)
        = fst (parseInterfaceMethods printExpr methods)
  | _ =>
      Type_Fields (typeOfSpec printExpr gen ts) = [] /\
      Type_Embedded (typeOfSpec printExpr gen ts) = [] /\
      Type_Methods (typeOfSpec printExpr gen ts) = []
  end.
Proof.
  split; [|split].
  - unfold typeOfSpec. destruct (ast.TypeSpec_Type ts); try reflexivity.
    + destruct (parseStructFields printExpr Fields); reflexivity.
    + destruct (parseInterfaceMethods printExpr Methods); reflexivity.
  - unfold kindForTypeSpec, ast.IsValid.
    destruct (decide (ast.TypeSpec_Assign ts = ast.NoPos)) as [E|E].
    + rewrite E. reflexivity.
    + apply Z.eqb_neq in E. rewrite E. reflexivity.
  - unfold typeOfSpec. destruct (ast.TypeSpec_Type ts); try (now repeat split).
    + destruct (parseStructFields printExpr Fields); now repeat split.
    + destruct (parseInterfaceMethods printExpr Methods); now repeat split.
Qed.

(** ** Struct fields *)

Section StructFields.

Context {sorter : Sorter} {order : MapRange}.
Variable printExpr : ast.Expr -> string.

(** What one member of a struct adds to the fields, in the words of the
    model: a [Field] for each of its names. *)
Definition namedFields (field : ast.Field) : list Field :=
  map (fun name =>
         mkField name (exprString printExpr (ast.Field_Type field))
           (match ast.Field_Tag field with
            | Some v => strings.TrimChar v "`"%char
            | None => ""
            end)
           false (ast.IsExported name))
      (ast.Field_Names field).

(** What it adds to the embedded names: its printed type, when it has no
    name. *)
Definition embeddedName (field : ast.Field) : list string :=
  match ast.Field_Names field with
  | [] => [exprString printExpr (ast.Field_Type field)]
  | _ => []
  end.

Lemma parseStructFields_loop (l : list ast.Field) (out : list Field) (emb : list string) :
  fold_left (fun '(out, embedded) field =>
      let typ := exprString printExpr (ast.Field_Type field) in
      let tag :=
        match ast.Field_Tag field with
        | Some v => strings.TrimChar v "`"%char
        | None => ""
        end in
      match ast.Field_Names field with
      | [] => (out, embedded ++ [typ])
      | names =>
          (out ++ map (fun name =>
                    mkField name typ tag false (ast.IsExported name)) names,
           embedded)
      end) l (out, emb)
  = (out ++ flat_map namedFields l, emb ++ flat_map embeddedName l).
Proof.
  revert out emb; induction l as [|field l IH]; intros out emb.
  - simpl. now rewrite !app_nil_r.
  - cbn [fold_left flat_map]. rewrite !app_assoc, <- IH. f_equal.
    unfold namedFields, embeddedName.
    destruct (ast.Field_Names field); [now rewrite app_nil_r|].
    now rewrite app_nil_r.
Qed.

Lemma parseStructFields_members (fields : ast.FieldList) :
  parseStructFields printExpr fields =
    (flat_map namedFields (default [] fields), flat_map embeddedName (default [] fields)).
Proof.
  destruct fields as [[|field l]|]; try reflexivity.
  unfold parseStructFields. now rewrite parseStructFields_loop.
Qed.

Lemma namedFields_spec (field : ast.Field) (f : Field) :
  In f (namedFields field) ->
  Field_Embedded f = false /\ In (Field_Name f) (ast.Field_Names field).
Proof.
  unfold namedFields. rewrite in_map_iff. intros (name & <- & Hin). now split.
Qed.

End StructFields.

(** ** Method binding *)

(** The index of the last occurrence of [n] in a list of names. *)
Fixpoint lastIndex (n : string) (names : list string) : option nat :=
  match names with
  | [] => None
  | x :: names' =>
      match lastIndex n names' with
      | Some i => Some (S i)
      | None => if String.eqb x n then Some 0%nat else None
      end
  end.

Lemma lastIndex_snoc (n x : string) (names : list string) :
  lastIndex n (names ++ [x]) =
    if String.eqb x n then Some (length names) else lastIndex n names.
Proof.
  induction names as [|y names IH]; simpl.
  - destruct (String.eqb x n); reflexivity.
  - rewrite IH. destruct (String.eqb x n); [reflexivity|].
    destruct (lastIndex n names); reflexivity.
Qed.

Lemma lastIndex_Some (n : string) (names : list string) (i : nat) :
  lastIndex n names = Some i -> names !! i = Some n.
Proof.
  revert i; induction names as [|x names IH]; intros i; simpl; [discriminate|].
  destruct (lastIndex n names) as [j|] eqn:Ej.
  - intros [= <-]. simpl. now apply IH.
  - destruct (String.eqb_spec x n) as [->|]; [|discriminate].
    now intros [= <-].
Qed.

Lemma lastIndex_None (n : string) (names : list string) :
  lastIndex n names = None <-> ~ In n names.
Proof.
  induction names as [|x names IH]; simpl; [tauto|].
  destruct (lastIndex n names) as [j|] eqn:Ej.
  - split; [discriminate|]. intros Hn. exfalso. apply Hn. right.
    apply lastIndex_Some in Ej. apply list_elem_of_In, list_elem_of_lookup. eauto.
  - destruct (String.eqb_spec x n) as [->|Hne].
    + split; [discriminate|]. tauto.
    + split; [|reflexivity]. intros _ [Hx|Hin]; [contradiction|]. now apply IH.
Qed.

Lemma lastIndex_last (n : string) (names : list string) (i j : nat) :
  lastIndex n names = Some i -> names !! j = Some n -> (j <= i)%nat.
Proof.
  revert i j; induction names as [|x names IH]; intros i j; simpl; [discriminate|].
  destruct (lastIndex n names) as [k|] eqn:Ek.
  - intros [= <-]. destruct j as [|j]; simpl; [lia|].
    intros Hj. specialize (IH k j eq_refl Hj). lia.
  - destruct (String.eqb x n); [|discriminate]. intros [= <-].
    destruct j as [|j]; simpl; [lia|]. intros Hj. exfalso.
    apply lastIndex_None in Ek. apply Ek.
    apply list_elem_of_In, list_elem_of_lookup. eauto.
Qed.

Lemma Package_setTypes_id (p : Package) : Package_setTypes p (Package_Types p) = p.
Proof. now destruct p. Qed.

Lemma Package_setTypes_twice (p : Package) (a b : list Type_) :
  Package_setTypes (Package_setTypes p a) b = Package_setTypes p b.
Proof. reflexivity. Qed.

Lemma fold_left_flat_map {X Y S : Type} (f : S -> Y -> S) (g : X -> list Y)
    (l : list X) (s : S) :
  fold_left f (flat_map g l) s = fold_left (fun s x => fold_left f (g x) s) l s.
Proof.
  revert s; induction l as [|x l IH]; intros s; simpl; [reflexivity|].
  now rewrite fold_left_app, IH.
Qed.

Section MethodBinding.

Context {sorter : Sorter} {order : MapRange}.
Variable printExpr : ast.Expr -> string.

(** The declarations of the files, in the order the loops meet them. *)
Definition typesOfSpec (gen : ast.GenDecl) (spec : ast.Spec) : list Type_ :=
  match spec with
  | ast.SpecType ts => [typeOfSpec printExpr gen ts]
  | _ => []
  end.

Definition typesOfDecl (decl : ast.Decl) : list Type_ :=
  match decl with
  | ast.DeclGen gen =>
      match ast.GenDecl_Tok gen with
      | ast.TYPE => flat_map (typesOfSpec gen) (ast.GenDecl_Specs gen)
      | _ => []
      end
  | _ => []
  end.

Definition declaredTypes (files : list (Path * ast.File)) : list Type_ :=
  flat_map (fun file => flat_map typesOfDecl (ast.File_Decls (snd file))) files.

Definition funcOfDecl (decl : ast.Decl) : list ast.FuncDecl :=
  match decl with
  | ast.DeclFunc fn => [fn]
  | _ => []
  end.

Definition funcDecls (files : list (Path * ast.File)) : list ast.FuncDecl :=
  flat_map (fun file => flat_map funcOfDecl (ast.File_Decls (snd file))) files.

(** The base identifier of the receiver of a function declaration; empty
    when there is none. *)
Definition recvBase (fn : ast.FuncDecl) : string :=
  match ast.FuncDecl_Recv fn with
  | Some (recv :: _) =>
      match ast.Field_Type recv with
      | Some e => receiverBaseName e
      | None => ""
      end
  | _ => ""
  end.

(** The record of a function declaration, with its receiver as written. *)
Definition boundFunction (fn : ast.FuncDecl) : Function :=
  match ast.FuncDecl_Recv fn with
  | Some (recv :: _) =>
      Function_setReceiver (functionOfDecl printExpr fn)
        (exprString printExpr (ast.Field_Type recv))
  | _ => functionOfDecl printExpr fn
  end.

(** Where the spec sends a function: to the type its receiver's base
    identifier names (the last one declared under that name), or nowhere,
    which is the free-function list. *)
Definition methodTarget (names : list string) (fn : ast.FuncDecl) : option nat :=
  if String.eqb (recvBase fn) "" then None else lastIndex (recvBase fn) names.

Definition freeFunctions (names : list string) (funcs : list ast.FuncDecl) : list Function :=
  flat_map (fun fn =>
    match methodTarget names fn with
    | None => [boundFunction fn]
    | Some _ => []
    end) funcs.

Definition methodsBoundTo (names : list string) (i : nat) (funcs : list ast.FuncDecl)
  : list Function :=
  flat_map (fun fn =>
    if decide (methodTarget names fn = Some i) then [boundFunction fn] else []) funcs.

(** The index agrees with the types recorded so far. *)
Definition indexed (st : ExtractState) : Prop :=
  forall n, snd st !! n = lastIndex n (map Type_Name (Package_Types (fst st))).

Lemma declareSpec_spec (gen : ast.GenDecl) (st : ExtractState) (spec : ast.Spec) :
  indexed st ->
  indexed (declareSpec printExpr gen st spec) /\
  fst (declareSpec printExpr gen st spec) =
    Package_setTypes (fst st) (Package_Types (fst st) ++ typesOfSpec gen spec).
Proof.
  intros Hst. destruct st as [pkgModel typesByName].
  destruct spec as [ts| |]; simpl;
    try (split; [exact Hst|]; now rewrite app_nil_r, Package_setTypes_id).
  split; [|reflexivity].
  intros n. cbn [fst snd Package_setTypes Package_Types].
  rewrite map_app. cbn [map]. rewrite lastIndex_snoc, length_app, length_map.
  cbn [length]. replace (length (Package_Types pkgModel) + 1 - 1)%nat
    with (length (Package_Types pkgModel)) by lia.
  destruct (String.eqb_spec (Type_Name (typeOfSpec printExpr gen ts)) n) as [->|Hne].
  - now rewrite lookup_insert_eq.
  - rewrite lookup_insert_ne by exact Hne. apply Hst.
Qed.

Lemma fold_declare {X} (step : ExtractState -> X -> ExtractState) (g : X -> list Type_) :
  (forall st x, indexed st ->
     indexed (step st x) /\
     fst (step st x) = Package_setTypes (fst st) (Package_Types (fst st) ++ g x)) ->
  forall l st, indexed st ->
    indexed (fold_left step l st) /\
    fst (fold_left step l st) =
      Package_setTypes (fst st) (Package_Types (fst st) ++ flat_map g l).
Proof.
  intros Hstep l. induction l as [|x l IH]; intros st Hst; simpl.
  - split; [exact Hst|]. now rewrite app_nil_r, Package_setTypes_id.
  - destruct (Hstep st x Hst) as [Hi Hf].
    destruct (IH _ Hi) as [Hi' Hf']. split; [exact Hi'|].
    rewrite Hf', Hf. cbn [Package_setTypes Package_Types]. now rewrite <- app_assoc.
Qed.

Lemma declareDecl_spec (st : ExtractState) (decl : ast.Decl) :
  indexed st ->
  indexed (declareDecl printExpr st decl) /\
  fst (declareDecl printExpr st decl) =
    Package_setTypes (fst st) (Package_Types (fst st) ++ typesOfDecl decl).
Proof.
  intros Hst. unfold declareDecl, typesOfDecl.
  destruct decl as [gen|fn|];
    try (split; [exact Hst|]; now rewrite app_nil_r, Package_setTypes_id).
  destruct (ast.GenDecl_Tok gen);
    try (split; [exact Hst|]; now rewrite app_nil_r, Package_setTypes_id).
  apply (fold_declare (declareSpec printExpr gen) (typesOfSpec gen)); [|exact Hst].
  intros st' spec. apply declareSpec_spec.
Qed.

Lemma declareFile_spec (st : ExtractState) (file : Path * ast.File) :
  indexed st ->
  indexed (declareFile printExpr st file) /\
  fst (declareFile printExpr st file) =
    Package_setTypes (fst st)
      (Package_Types (fst st) ++ flat_map typesOfDecl (ast.File_Decls (snd file))).
Proof.
  intros Hst. unfold declareFile.
  apply (fold_declare (declareDecl printExpr) typesOfDecl); [|exact Hst].
  intros st' decl. apply declareDecl_spec.
Qed.

(** Pass 1 records the declared types in order and indexes each name
    at its last declaration. *)
Lemma pass1_spec (pkgModel : Package) (files : list (Path * ast.File)) :
  Package_Types pkgModel = [] ->
  let st := fold_left (declareFile printExpr) files (pkgModel, ∅) in
  fst st = Package_setTypes pkgModel (declaredTypes files) /\
  forall n, snd st !! n = lastIndex n (map Type_Name (declaredTypes files)).
Proof.
  intros Hnil st.
  assert (Hi : indexed (pkgModel, (∅ : gmap string nat))).
  { intros n. cbn [fst snd]. rewrite Hnil. now rewrite lookup_empty. }
  destruct (fold_declare (declareFile printExpr)
              (fun file => flat_map typesOfDecl (ast.File_Decls (snd file)))
              (fun st' file => declareFile_spec st' file) files _ Hi) as [Hi' Hf'].
  fold st in Hi', Hf'. cbn [fst] in Hf'. rewrite Hnil in Hf'. cbn [app] in Hf'.
  split; [exact Hf'|].
  intros n. rewrite (Hi' n), Hf'. reflexivity.
Qed.

(** Pass 2 sends each function where [methodTarget] says. *)
Lemma bindFunc_spec (typesByName : gmap string nat) (names : list string)
    (pkgModel : Package) (fn : ast.FuncDecl) :
  (forall n, typesByName !! n = lastIndex n names) ->
  bindFunc printExpr typesByName pkgModel fn =
    match methodTarget names fn with
    | Some idx => appendMethod pkgModel idx (boundFunction fn)
    | None => appendFunction pkgModel (boundFunction fn)
    end.
Proof.
  intros Hidx. unfold bindFunc, methodTarget, recvBase, boundFunction.
  destruct (ast.FuncDecl_Recv fn) as [[|recv recvs]|]; try reflexivity.
  destruct (String.eqb _ ""); [reflexivity|].
  rewrite Hidx. reflexivity.
Qed.

Lemma methodsBoundTo_cons (names : list string) (i : nat) (fn : ast.FuncDecl)
    (funcs : list ast.FuncDecl) :
  methodsBoundTo names i (fn :: funcs) =
    (if decide (methodTarget names fn = Some i) then [boundFunction fn] else [])
    ++ methodsBoundTo names i funcs.
Proof. reflexivity. Qed.

Lemma bind_loop (typesByName : gmap string nat) (names : list string)
    (funcs : list ast.FuncDecl) (pkgModel : Package) :
  (forall n, typesByName !! n = lastIndex n names) ->
  let out := fold_left (bindFunc printExpr typesByName) funcs pkgModel in
  Package_Name out = Package_Name pkgModel /\
  Package_ImportPath out = Package_ImportPath pkgModel /\
  Package_Dir out = Package_Dir pkgModel /\
  Package_Files out = Package_Files pkgModel /\
  Package_Functions out = Package_Functions pkgModel ++ freeFunctions names funcs /\
  Package_Types out =
    imap (fun i t => Type_setMethods t (Type_Methods t ++ methodsBoundTo names i funcs))
         (Package_Types pkgModel).
Proof.
  intros Hidx. revert pkgModel.
  induction funcs as [|fn funcs IH]; intros pkgModel; cbn [fold_left].
  - repeat split; try reflexivity.
    + unfold freeFunctions. simpl. now rewrite app_nil_r.
    + apply list_eq. intros i. rewrite list_lookup_imap.
      destruct (Package_Types pkgModel !! i) as [t|]; [|reflexivity]. simpl.
      unfold methodsBoundTo. simpl. rewrite app_nil_r. now destruct t.
  - rewrite (bindFunc_spec typesByName names pkgModel fn Hidx).
    destruct (IH (match methodTarget names fn with
                  | Some idx => appendMethod pkgModel idx (boundFunction fn)
                  | None => appendFunction pkgModel (boundFunction fn)
                  end)) as (Hn & Hip & Hd & Hfl & Hfn & Hty).
    rewrite Hn, Hip, Hd, Hfl, Hfn, Hty. clear Hn Hip Hd Hfl Hfn Hty IH.
    unfold freeFunctions at 2. cbn [flat_map]. fold (freeFunctions names funcs).
    destruct (methodTarget names fn) as [idx|] eqn:Etarget.
    + repeat split; try reflexivity.
      cbn [appendMethod Package_setTypes Package_Types].
      apply list_eq. intros i. rewrite !list_lookup_imap, list_lookup_alter.
      rewrite methodsBoundTo_cons.
      destruct (decide (idx = i)) as [->|Hne].
      * rewrite decide_True by exact Etarget.
        destruct (Package_Types pkgModel !! i) as [t|]; [|reflexivity]. simpl.
        unfold Type_setMethods. simpl. now rewrite <- app_assoc.
      * rewrite decide_False by congruence. reflexivity.
    + repeat split; try reflexivity.
      * cbn [appendFunction Package_setFunctions Package_Functions].
        now rewrite <- app_assoc.
      * cbn [appendFunction Package_setFunctions Package_Types].
        apply list_eq. intros i. rewrite !list_lookup_imap, methodsBoundTo_cons.
        rewrite decide_False by congruence. reflexivity.
Qed.

Lemma bindFile_funcs (typesByName : gmap string nat) (files : list (Path * ast.File))
    (pkgModel : Package) :
  fold_left (bindFile printExpr typesByName) files pkgModel =
    fold_left (bindFunc printExpr typesByName) (funcDecls files) pkgModel.
Proof.
  unfold funcDecls. rewrite fold_left_flat_map.
  revert pkgModel; induction files as [|file files IH]; intros pkgModel; [reflexivity|].
  cbn [fold_left]. rewrite <- IH. f_equal.
  unfold bindFile. rewrite fold_left_flat_map.
  generalize (ast.File_Decls (snd file)); intros decls; revert pkgModel.
  induction decls as [|decl decls IHd]; intros pkgModel; [reflexivity|].
  cbn [fold_left]. rewrite IHd. f_equal. now destruct decl.
Qed.

(** The type specs of the files with their declarations, in the order
    pass 1 meets them. *)
Definition specsOfSpec (gen : ast.GenDecl) (spec : ast.Spec)
  : list (ast.GenDecl * ast.TypeSpec) :=
  match spec with
  | ast.SpecType ts => [(gen, ts)]
  | _ => []
  end.

Definition specsOfDecl (decl : ast.Decl) : list (ast.GenDecl * ast.TypeSpec) :=
  match decl with
  | ast.DeclGen gen =>
      match ast.GenDecl_Tok gen with
      | ast.TYPE => flat_map (specsOfSpec gen) (ast.GenDecl_Specs gen)
      | _ => []
      end
  | _ => []
  end.

Definition typeSpecs (files : list (Path * ast.File))
  : list (ast.GenDecl * ast.TypeSpec) :=
  flat_map (fun file => flat_map specsOfDecl (ast.File_Decls (snd file))) files.

(** The name a type spec declares. *)
Definition declaredName (spec : ast.GenDecl * ast.TypeSpec) : string :=
  ast.TypeSpec_Name (snd spec).

Definition typeOfDeclared (spec : ast.GenDecl * ast.TypeSpec) : Type_ :=
  typeOfSpec printExpr (fst spec) (snd spec).

Lemma typeOfSpec_Name (gen : ast.GenDecl) (ts : ast.TypeSpec) :
  Type_Name (typeOfSpec printExpr gen ts) = ast.TypeSpec_Name ts.
Proof.
  unfold typeOfSpec. destruct (ast.TypeSpec_Type ts); try reflexivity.
  - now destruct (parseStructFields printExpr _).
  - now destruct (parseInterfaceMethods printExpr _).
Qed.

Lemma flat_map_map {X Y Z} (f : X -> list Y) (g : Y -> Z) (l : list X) :
  map g (flat_map f l) = flat_map (fun x => map g (f x)) l.
Proof.
  induction l as [|x l IH]; [reflexivity|]. cbn [flat_map]. now rewrite map_app, IH.
Qed.

Lemma declaredTypes_typeSpecs (files : list (Path * ast.File)) :
  declaredTypes files = map typeOfDeclared (typeSpecs files).
Proof.
  unfold declaredTypes, typeSpecs. rewrite flat_map_map.
  apply flat_map_ext. intros file. rewrite flat_map_map.
  apply flat_map_ext. intros [gen| |]; try reflexivity. cbn [typesOfDecl specsOfDecl].
  destruct (ast.GenDecl_Tok gen); try reflexivity. rewrite flat_map_map.
  apply flat_map_ext. now intros [ts| |].
Qed.

Lemma declaredTypes_names (files : list (Path * ast.File)) :
  map Type_Name (declaredTypes files) = map declaredName (typeSpecs files).
Proof.
  rewrite declaredTypes_typeSpecs, map_map. apply map_ext.
  intros [gen ts]. apply typeOfSpec_Name.
Qed.

(** The result of the two passes over the files of a package; each
    pass meets the files in an order of its own. *)
Lemma extractDecls_spec (pkgModel : Package) (pkg : ast_Package) :
  Package_Types pkgModel = [] ->
  let typeFiles := range rangeTypes (ast_Package_Files pkg) in
  let funcFiles := range rangeFuncs (ast_Package_Files pkg) in
  let names := map Type_Name (declaredTypes typeFiles) in
  let out := extractDecls printExpr pkgModel pkg in
  Package_Name out = Package_Name pkgModel /\
  Package_ImportPath out = Package_ImportPath pkgModel /\
  Package_Dir out = Package_Dir pkgModel /\
  Package_Files out = Package_Files pkgModel /\
  Package_Functions out =
    Package_Functions pkgModel ++ freeFunctions names (funcDecls funcFiles) /\
  Package_Types out =
    imap (fun i t =>
            Type_setMethods t
              (Type_Methods t ++ methodsBoundTo names i (funcDecls funcFiles)))
         (declaredTypes typeFiles).
Proof.
  intros Hnil typeFiles funcFiles names out. unfold out, extractDecls.
  fold typeFiles funcFiles.
  pose proof (pass1_spec pkgModel typeFiles Hnil) as [Hfst Hidx].
  destruct (fold_left (declareFile printExpr) typeFiles (pkgModel, ∅))
    as [pkgModel1 typesByName].
  cbn [fst snd] in Hfst, Hidx. subst pkgModel1.
  rewrite bindFile_funcs.
  exact (bind_loop typesByName names (funcDecls funcFiles)
           (Package_setTypes pkgModel (declaredTypes typeFiles)) Hidx).
Qed.

Lemma methodTarget_Some (names : list string) (fn : ast.FuncDecl) (idx : nat) :
  methodTarget names fn = Some idx ->
  recvBase fn <> "" /\ names !! idx = Some (recvBase fn) /\
  (forall j, names !! j = Some (recvBase fn) -> (j <= idx)%nat).
Proof.
  unfold methodTarget. destruct (String.eqb_spec (recvBase fn) "") as [|Hne]; [discriminate|].
  intros Hlast. split; [exact Hne|]. split.
  - now apply lastIndex_Some.
  - intros j. now apply lastIndex_last.
Qed.

Lemma methodTarget_None (names : list string) (fn : ast.FuncDecl) :
  methodTarget names fn = None <-> recvBase fn = "" \/ ~ In (recvBase fn) names.
Proof.
  unfold methodTarget. destruct (String.eqb_spec (recvBase fn) "") as [E|Hne].
  - split; [now left|reflexivity].
  - rewrite lastIndex_None. split; [now right|]. intros [E|Hn]; [contradiction|exact Hn].
Qed.

(** C1. The receiver of a method is unwrapped through pointer, generic
    instantiation and parentheses down to an identifier.  Pass 1 records
    one type for each type spec of the files, in the order it meets
    them, under the name the spec declares.  Of the function
    declarations of the package, met by pass 2 in an order of its own,
    those whose receiver's base identifier is the name of a type
    recorded in pass 1 are appended, in order, to the method list of
    that type and of no other (the last type declared under the name),
    and all the others, among them those without a resolvable base
    identifier, are appended to the free functions: every declaration
    lands in exactly one list, and only the module lookup can make the
    extraction fail. *)
Theorem method_binding (fs : Node) (ml : moduleLocator) (dir relBase : Path)
    (pkgName importPath pkgDir : string) (fileNames : list string) (pkg : ast_Package) :
  let specs := typeSpecs (range rangeTypes (ast_Package_Files pkg)) in
  let names := map declaredName specs in
  let funcs := funcDecls (range rangeFuncs (ast_Package_Files pkg)) in
  let out :=
    extractDecls printExpr (mkPackage pkgName importPath pkgDir fileNames [] []) pkg in
  (forall (name : string) (x index : ast.Expr) (indices : list ast.Expr),
      receiverBaseName (ast.Ident name) = name /\
      receiverBaseName (ast.StarExpr x) = receiverBaseName x /\
      receiverBaseName (ast.IndexExpr x index) = receiverBaseName x /\
      receiverBaseName (ast.IndexListExpr x indices) = receiverBaseName x /\
      receiverBaseName (ast.ParenExpr x) = receiverBaseName x) /\
  map Type_Name (Package_Types out) = names /\
  Package_Functions out = freeFunctions names funcs /\
  Package_Types out =
    imap (fun i t => Type_setMethods t (Type_Methods t ++ methodsBoundTo names i funcs))
         (map typeOfDeclared specs) /\
  (forall fn, In fn funcs ->
     match methodTarget names fn with
     | Some idx =>
         recvBase fn <> "" /\
         (forall j, names !! j = Some (recvBase fn) -> (j <= idx)%nat) /\
         exists t, Package_Types out !! idx = Some t /\
                   Type_Name t = recvBase fn /\
                   In (boundFunction fn) (Type_Methods t)
     | None =>
         (recvBase fn = "" \/ ~ In (recvBase fn) names) /\
         In (boundFunction fn) (Package_Functions out)
     end) /\
  extractPackage printExpr fs ml dir pkgName pkg relBase =
    match moduleForDir fs ml dir with
    | (inl err, ml') => (inl err, ml')
    | (inr modl, ml') =>
        (inr (extractDecls printExpr
                (mkPackage pkgName (importPathFor modl dir) (toRelPath relBase dir)
                   (packageFiles relBase dir pkg) [] []) pkg), ml')
    end.
Proof.
  intros specs names funcs out.
  destruct (extractDecls_spec (mkPackage pkgName importPath pkgDir fileNames [] []) pkg
              eq_refl) as (_ & _ & _ & _ & Hfn & Hty).
  fold funcs out in Hfn, Hty. cbn [Package_Functions app] in Hfn.
  rewrite declaredTypes_names in Hfn, Hty. rewrite declaredTypes_typeSpecs in Hty.
  fold specs names in Hfn, Hty.
  assert (Hnames : map Type_Name (Package_Types out) = names).
  { rewrite Hty. apply list_eq. intros i.
    rewrite list_lookup_fmap, list_lookup_imap. unfold names.
    rewrite !list_lookup_fmap.
    destruct (specs !! i) as [[gen ts]|]; [|reflexivity]. cbn.
    f_equal. apply typeOfSpec_Name. }
  split; [intros; repeat split|].
  split; [exact Hnames|].
  split; [exact Hfn|]. split; [exact Hty|]. split; [|reflexivity].
  intros fn Hin. destruct (methodTarget names fn) as [idx|] eqn:Etarget.
  - destruct (methodTarget_Some names fn idx Etarget) as (Hne & Hidx & Hlast).
    split; [exact Hne|]. split; [exact Hlast|].
    rewrite <- Hnames, list_lookup_fmap in Hidx.
    destruct (Package_Types out !! idx) as [t|] eqn:Et; [|discriminate].
    injection Hidx as Hname. exists t. split; [reflexivity|]. split; [exact Hname|].
    rewrite Hty, list_lookup_imap in Et.
    destruct (map typeOfDeclared specs !! idx) as [t0|]; [|discriminate].
    injection Et as <-. cbn [Type_setMethods Type_Methods]. apply in_or_app. right.
    unfold methodsBoundTo. apply in_flat_map. exists fn. split; [exact Hin|].
    rewrite decide_True by exact Etarget. now left.
  - split; [now apply methodTarget_None|].
    rewrite Hfn. unfold freeFunctions. apply in_flat_map. exists fn.
    split; [exact Hin|]. rewrite Etarget. now left.
Qed.

End MethodBinding.

(** ** Module locator: the cache is transparent *)

(** The module of a directory without the cache, by the same walk. *)
Fixpoint locateUp (fs : Node) (rdir : list string) : error + option Module_ :=
  let dir := rev rdir in
  let gomod := filepath.Join dir [goModName] in
  if fileExists fs gomod then
    match readModulePath fs gomod with
    | inl err => inl err
    | inr modPath => inr (Some (mkModule modPath dir))
    end
  else
    match rdir with
    | [] => inr None
    | _ :: rparent => locateUp fs rparent
    end.

Definition locate (fs : Node) (dir : Path) : error + option Module_ :=
  locateUp fs (rev dir).

(** Every cached entry is what the walk finds. *)
Definition cacheOK (fs : Node) (ml : moduleLocator) : Prop :=
  forall dir cached, ml !! dir = Some cached -> locate fs dir = inr cached.

Lemma cacheOK_empty (fs : Node) : cacheOK fs newModuleLocator.
Proof. intros dir cached. unfold newModuleLocator. now rewrite lookup_empty. Qed.

Lemma cacheOK_insert (fs : Node) (ml : moduleLocator) (dir : Path)
    (found : option Module_) :
  cacheOK fs ml -> locate fs dir = inr found -> cacheOK fs (<[dir := found]> ml).
Proof.
  intros Hok Hloc dir' cached. destruct (decide (dir = dir')) as [<-|Hne].
  - rewrite lookup_insert_eq. now intros [= <-].
  - rewrite lookup_insert_ne by exact Hne. apply Hok.
Qed.

Lemma locateUp_eq (fs : Node) (rdir : list string) :
  locateUp fs rdir =
    if fileExists fs (filepath.Join (rev rdir) [goModName]) then
      match readModulePath fs (filepath.Join (rev rdir) [goModName]) with
      | inl err => inl err
      | inr modPath => inr (Some (mkModule modPath (rev rdir)))
      end
    else
      match rdir with
      | [] => inr None
      | _ :: rparent => locateUp fs rparent
      end.
Proof. destruct rdir; reflexivity. Qed.

Lemma moduleForDirUp_eq (fs : Node) (rdir : list string) (ml : moduleLocator) :
  moduleForDirUp fs rdir ml =
    match ml !! rev rdir with
    | Some cached => (inr cached, ml)
    | None =>
        if fileExists fs (filepath.Join (rev rdir) [goModName]) then
          match readModulePath fs (filepath.Join (rev rdir) [goModName]) with
          | inl err => (inl err, ml)
          | inr modPath =>
              (inr (Some (mkModule modPath (rev rdir))),
               <[rev rdir := Some (mkModule modPath (rev rdir))]> ml)
          end
        else
          match rdir with
          | [] => (inr None, <[rev rdir := None]> ml)
          | _ :: rparent =>
              match moduleForDirUp fs rparent ml with
              | (inl err, ml') => (inl err, ml')
              | (inr found, ml') => (inr found, <[rev rdir := found]> ml')
              end
          end
    end.
Proof. destruct rdir; reflexivity. Qed.

Lemma moduleForDirUp_locate (fs : Node) (rdir : list string) (ml : moduleLocator) :
  cacheOK fs ml ->
  fst (moduleForDirUp fs rdir ml) = locateUp fs rdir /\
  cacheOK fs (snd (moduleForDirUp fs rdir ml)).
Proof.
  revert ml; induction rdir as [|c rparent IH]; intros ml Hok;
    rewrite moduleForDirUp_eq, locateUp_eq.
  all: destruct (ml !! rev _) as [cached|] eqn:Ecache;
    [ split; [|exact Hok]; cbn [fst]; symmetry;
      pose proof (Hok _ cached Ecache) as Hloc; unfold locate in Hloc;
      rewrite rev_involutive, locateUp_eq in Hloc; exact Hloc |].
  all: destruct (fileExists fs _) eqn:Eex;
    [ destruct (readModulePath fs _) as [err|modPath] eqn:Eread;
      cbn [fst snd]; (split; [reflexivity|]); [exact Hok|];
      apply cacheOK_insert; [exact Hok|];
      unfold locate; rewrite rev_involutive, locateUp_eq, Eex, Eread; reflexivity |].
  - cbn [fst snd]. split; [reflexivity|].
    apply cacheOK_insert; [exact Hok|].
    unfold locate. rewrite rev_involutive, locateUp_eq, Eex. reflexivity.
  - destruct (IH ml Hok) as [Hfst Hsnd].
    destruct (moduleForDirUp fs rparent ml) as [[err|found] ml'];
      cbn [fst snd] in *; (split; [exact Hfst|]); [exact Hsnd|].
    apply cacheOK_insert; [exact Hsnd|].
    unfold locate. rewrite rev_involutive, locateUp_eq, Eex.
    symmetry. exact Hfst.
Qed.

Lemma moduleForDir_locate (fs : Node) (ml : moduleLocator) (dir : Path) :
  cacheOK fs ml ->
  fst (moduleForDir fs ml dir) = locate fs dir /\
  cacheOK fs (snd (moduleForDir fs ml dir)).
Proof. apply moduleForDirUp_locate. Qed.

(** ** Module locator: where the module is found *)

(** The directories on the walk from a directory up to the root,
    innermost first. *)
Fixpoint chainUp (rdir : list string) : list Path :=
  rev rdir ::
  match rdir with
  | [] => []
  | _ :: rparent => chainUp rparent
  end.

Definition chain (dir : Path) : list Path := chainUp (rev dir).

(** The directory holds a module declaration file. *)
Definition hasGoMod (fs : Node) (dir : Path) : bool :=
  fileExists fs (filepath.Join dir [goModName]).

(** The module declaration file cannot be opened, or reading it ends,
    by a read error or at its end, before a module line is met. *)
Definition goModBad (fs : Node) (dir : Path) : Prop :=
  match fs_read fs (filepath.Join dir [goModName]) with
  | OpenError => True
  | Scanned lines _ => scanModuleLine lines = None
  end.

(** The nearest directory on the walk that holds a module declaration
    file. *)
Definition nearestGoMod (fs : Node) (dir : Path) : option Path :=
  List.find (hasGoMod fs) (chain dir).

Lemma readModulePath_error (fs : Node) (dir : Path) :
  (exists err, readModulePath fs (filepath.Join dir [goModName]) = inl err) <->
  goModBad fs dir.
Proof.
  unfold readModulePath, goModBad.
  destruct (fs_read fs _) as [|lines failed].
  - split; [trivial|]. intros _. eexists; reflexivity.
  - destruct (scanModuleLine lines) as [modPath|].
    + split; [intros [err Herr]; discriminate|discriminate].
    + split; [reflexivity|]. intros _. destruct failed; eexists; reflexivity.
Qed.

Lemma locateUp_nearest (fs : Node) (rdir : list string) :
  locateUp fs rdir =
    match List.find (hasGoMod fs) (chainUp rdir) with
    | Some d =>
        match readModulePath fs (filepath.Join d [goModName]) with
        | inl err => inl err
        | inr modPath => inr (Some (mkModule modPath d))
        end
    | None => inr None
    end.
Proof.
  induction rdir as [|c rparent IH]; rewrite locateUp_eq;
    cbn [chainUp List.find]; unfold hasGoMod at 1;
    destruct (fileExists fs _); try reflexivity.
  exact IH.
Qed.

Lemma chainUp_prefix (rdir : list string) (d : Path) :
  In d (chainUp rdir) -> exists rel, rev rdir = d ++ rel.
Proof.
  induction rdir as [|c rparent IH]; cbn [chainUp]; intros [<-|Hin].
  - now exists [].
  - destruct Hin.
  - now exists []; rewrite app_nil_r.
  - destruct (IH Hin) as [rel Hrel]. exists (rel ++ [c]).
    cbn [rev]. rewrite Hrel. now rewrite <- app_assoc.
Qed.

Lemma nearestGoMod_prefix (fs : Node) (dir d : Path) :
  nearestGoMod fs dir = Some d -> hasGoMod fs d = true /\ exists rel, dir = d ++ rel.
Proof.
  unfold nearestGoMod, chain. intros Hfind.
  apply find_some in Hfind as [Hin Hhas]. split; [exact Hhas|].
  destruct (chainUp_prefix _ _ Hin) as [rel Hrel].
  exists rel. now rewrite rev_involutive in Hrel.
Qed.

(** C7, amended. With a cache that agrees with the file system, the
    lookup fails exactly when the nearest directory on the walk from the
    directory up to the root that holds a module declaration file holds
    one that cannot be opened or read or has no module line; when no
    directory on the walk holds such a file, the result is nil without
    error. *)
Theorem module_lookup_fails_at_nearest (fs : Node) (ml : moduleLocator) (dir : Path) :
  cacheOK fs ml ->
  ((exists err, fst (moduleForDir fs ml dir) = inl err) <->
   (exists d, nearestGoMod fs dir = Some d /\ goModBad fs d)) /\
  ((forall d, In d (chain dir) -> hasGoMod fs d = false) ->
   fst (moduleForDir fs ml dir) = inr None).
Proof.
  intros Hok. destruct (moduleForDir_locate fs ml dir Hok) as [-> _].
  unfold locate. rewrite locateUp_nearest. fold (chain dir). fold (nearestGoMod fs dir).
  split.
  - destruct (nearestGoMod fs dir) as [d|].
    + split.
      * intros [err Herr]. exists d. split; [reflexivity|].
        apply readModulePath_error.
        destruct (readModulePath fs _) as [err'|modPath]; [now exists err'|discriminate].
      * intros (d' & [= <-] & Hbad).
        apply readModulePath_error in Hbad as [err Herr]. exists err. now rewrite Herr.
    + split; [intros [err Herr]; discriminate|intros (d & Hd & _); discriminate].
  - intros Hnone. unfold nearestGoMod.
    destruct (List.find (hasGoMod fs) (chain dir)) as [d|] eqn:Efind; [|reflexivity].
    apply find_some in Efind as [Hin Hhas]. rewrite (Hnone d Hin) in Hhas. discriminate.
Qed.

(** ** Import paths *)

Lemma stripCommon_prefix (base rel : Path) :
  filepath.stripCommon base (base ++ rel) = ([], rel).
Proof.
  induction base as [|b base IH]; simpl.
  - now destruct rel.
  - now rewrite String.eqb_refl.
Qed.

Lemma Rel_below (base rel : Path) :
  filepath.Rel base (base ++ rel) =
    Some (if decide (rel = []) then "." else strings.Join rel "/").
Proof.
  unfold filepath.Rel. destruct (decide (rel = [])) as [->|Hne].
  - rewrite app_nil_r. now rewrite decide_True.
  - rewrite decide_False.
    + now rewrite stripCommon_prefix.
    + intros Heq. apply Hne. apply (app_inv_head base). now rewrite app_nil_r.
Qed.

Lemma Join_not_dot (rel : Path) :
  rel <> [] -> ~ In "." rel -> strings.Join rel "/" <> ".".
Proof.
  destruct rel as [|x [|y rel]]; [congruence| |].
  - simpl. intros _ Hn E. apply Hn. now left.
  - intros _ _. unfold strings.Join. cbn [String.concat].
    destruct x as [|c [|c' x]]; simpl; discriminate.
Qed.

Section ImportPath.

Context {sorter : Sorter} {order : MapRange}.
Variable printExpr : ast.Expr -> string.

(** The import path the spec gives a package analysed in [dir]: none
    without enclosing module; the module path in the module's own
    directory; below it the module path, a slash, and the directory
    relative to the module's, with slashes. *)
Definition importPathSpec (fs : Node) (dir : Path) (importPath : string) : Prop :=
  match nearestGoMod fs dir with
  | None => importPath = ""
  | Some modDir =>
      exists modPath rel,
        readModulePath fs (filepath.Join modDir [goModName]) = inr modPath /\
        dir = modDir ++ rel /\
        importPath =
          if decide (rel = []) then modPath
          else (modPath ++ "/" ++ strings.Join rel "/")%string
  end.

Lemma importPathFor_spec (fs : Node) (dir : Path) (modl : option Module_) :
  ~ In "." dir -> locate fs dir = inr modl ->
  importPathSpec fs dir (importPathFor modl dir).
Proof.
  intros Hdot. unfold locate. rewrite locateUp_nearest.
  fold (chain dir). fold (nearestGoMod fs dir). unfold importPathSpec.
  destruct (nearestGoMod fs dir) as [modDir|] eqn:Enear.
  - destruct (readModulePath fs _) as [err|modPath] eqn:Eread; [discriminate|].
    intros [= <-]. exists modPath.
    destruct (nearestGoMod_prefix fs dir modDir Enear) as [_ [rel Hrel]].
    exists rel. split; [reflexivity|]. split; [exact Hrel|].
    unfold importPathFor. cbn [Module_Dir Module_Path].
    rewrite Hrel at 1. rewrite Rel_below.
    destruct (decide (rel = [])) as [->|Hne]; [now rewrite decide_True|].
    rewrite decide_False by exact Hne.
    destruct (String.eqb_spec (strings.Join rel "/") ".") as [E|_]; [|reflexivity].
    exfalso. revert E. apply Join_not_dot; [exact Hne|].
    intros Hin. apply Hdot. rewrite Hrel. apply in_or_app. now right.
  - now intros [= <-].
Qed.

Lemma sortPackage_ImportPath (pk : Package) :
  Package_ImportPath (sortPackage pk) = Package_ImportPath pk.
Proof. reflexivity. Qed.

(** C8. A package extracted in a directory whose components are proper
    names, with a cache that agrees with the file system, has the module
    path as import path when the directory is the one that declares the
    enclosing module, the module path followed by a slash and the
    slash-separated relative directory when it lies below, and the empty
    import path when no module encloses it. *)
Theorem import_path_of_package (fs : Node) (ml ml' : moduleLocator) (dir relBase : Path)
    (pkgName : string) (pkg : ast_Package) (pk : Package) :
  cacheOK fs ml ->
  ~ In "." dir ->
  extractPackage printExpr fs ml dir pkgName pkg relBase = (inr pk, ml') ->
  importPathSpec fs dir (Package_ImportPath (sortPackage pk)).
Proof.
  intros Hok Hdot. unfold extractPackage.
  destruct (moduleForDir_locate fs ml dir Hok) as [Hloc _].
  destruct (moduleForDir fs ml dir) as [[err|modl] ml1]; [discriminate|].
  cbn [fst] in Hloc. intros [= <- <-].
  rewrite sortPackage_ImportPath.
  destruct (extractDecls_spec printExpr
              (mkPackage pkgName (importPathFor modl dir) (toRelPath relBase dir)
                 (packageFiles relBase dir pkg) [] []) pkg eq_refl)
    as (_ & -> & _).
  cbn [Package_ImportPath]. apply importPathFor_spec; [exact Hdot|now symmetry].
Qed.

End ImportPath.

(** ** File filter: generated files *)

(** A line that carries both phrases of a generated-file header. *)
Definition generatedHeader (line : string) : bool :=
  strings.Contains line "DO NOT EDIT" && strings.Contains line "Code generated".

Lemma scanGenerated_spec (n : nat) (lines : list string) :
  scanGenerated n lines = true <->
  exists line, In line (take n lines) /\ generatedHeader line = true.
Proof.
  revert lines; induction n as [|n IH]; intros [|line rest]; simpl;
    try (split; [discriminate|intros (l & [] & _)]).
  fold (generatedHeader line). destruct (generatedHeader line) eqn:Eh.
  - split; [|reflexivity]. intros _. exists line. split; [now left|exact Eh].
  - rewrite IH. split.
    + intros (l & Hin & Hl). exists l. split; [now right|exact Hl].
    + intros (l & [<-|Hin] & Hl); [congruence|]. now exists l.
Qed.

(** A file that the rules before the header sniffing let through. *)
Definition candidate (onlyFile : string) (opts : Options) (name : string) : Prop :=
  strings.HasSuffix name ".go" = true /\
  (onlyFile = "" \/ name = onlyFile) /\
  (IncludeTests opts = true \/ strings.HasSuffix name "_test.go" = false).

Lemma fileFilter_candidate (fs : Node) (dir : Path) (onlyFile : string) (opts : Options)
    (name : string) :
  candidate onlyFile opts name ->
  IncludeGenerated opts = false ->
  fileFilter fs dir onlyFile opts name =
    let '(isGen, err) := isGeneratedFile fs (filepath.Join dir [name]) in
    negb (negb err && isGen).
Proof.
  intros (Hgo & Honly & Htest) Hgen. unfold fileFilter.
  rewrite Hgo, Hgen. cbn [negb].
  assert (Eonly : negb (String.eqb onlyFile "") && negb (String.eqb name onlyFile) = false).
  { destruct Honly as [->| ->]; [reflexivity|].
    rewrite String.eqb_refl. now rewrite andb_false_r. }
  rewrite Eonly.
  assert (Etest : negb (IncludeTests opts) && strings.HasSuffix name "_test.go" = false).
  { destruct Htest as [-> | ->]; [reflexivity|now rewrite andb_false_r]. }
  rewrite Etest. destruct (isGeneratedFile fs _) as [isGen err].
  now destruct err, isGen.
Qed.

(** C5, amended. With generated files not included, a candidate file is
    suppressed exactly when one line among the first 20 that the scanner
    delivers carries both the generated-code phrase and the do-not-edit
    phrase; a file that cannot be opened, and a file whose reading fails
    before such a line, is kept. *)
Theorem generated_file_suppressed (fs : Node) (dir : Path) (onlyFile : string)
    (opts : Options) (name : string) :
  candidate onlyFile opts name ->
  IncludeGenerated opts = false ->
  (fileFilter fs dir onlyFile opts name = false <->
   exists lines failed line,
     fs_read fs (filepath.Join dir [name]) = Scanned lines failed /\
     In line (take 20 lines) /\
     strings.Contains line "DO NOT EDIT" = true /\
     strings.Contains line "Code generated" = true) /\
  (fs_read fs (filepath.Join dir [name]) = OpenError ->
   fileFilter fs dir onlyFile opts name = true) /\
  (forall lines,
     fs_read fs (filepath.Join dir [name]) = Scanned lines true ->
     scanGenerated 20 lines = false ->
     fileFilter fs dir onlyFile opts name = true).
Proof.
  intros Hcand Hgen. rewrite (fileFilter_candidate fs dir onlyFile opts name Hcand Hgen).
  unfold isGeneratedFile.
  destruct (fs_read fs _) as [|lines failed].
  - split; [|split; [reflexivity|discriminate]].
    split; [discriminate|]. intros (? & ? & ? & ? & _). discriminate.
  - split; [|split; [discriminate|]].
    + destruct (scanGenerated 20 lines) eqn:Escan.
      * split; [|reflexivity]. intros _.
        apply scanGenerated_spec in Escan as (line & Hin & Hh).
        apply andb_true_iff in Hh as [Hd Hc]. now exists lines, failed, line.
      * split.
        -- destruct (failed && (length lines <? 20)%nat); discriminate.
        -- intros (lines' & failed' & line & [= <- <-] & Hin & Hd & Hc). exfalso.
           assert (Ht : scanGenerated 20 lines = true).
           { apply scanGenerated_spec. exists line. split; [exact Hin|].
             unfold generatedHeader. now rewrite Hd, Hc. }
           congruence.
    + intros lines' Heq Hscan. injection Heq as -> ->. rewrite Hscan.
      now destruct (length lines' <? 20)%nat.
Qed.

(** ** Canonical order *)

(** The lists of a type, and of a package, are in ascending order of
    name (of path, for files). *)
Definition canonicalType (t : Type_) : Prop :=
  sortedBy Field_Name (Type_Fields t) /\
  sortedBy (fun s : string => s) (Type_Embedded t) /\
  sortedBy Function_Name (Type_Methods t).

Definition canonicalPackage (pk : Package) : Prop :=
  sortedBy (fun s : string => s) (Package_Files pk) /\
  sortedBy Type_Name (Package_Types pk) /\
  sortedBy Function_Name (Package_Functions pk) /\
  Forall canonicalType (Package_Types pk).

(** [a] comes no later than [b] in the order of (import path,
    directory, name). *)
Definition packageLe (a b : Package) : Prop :=
  str_lt (Package_ImportPath a) (Package_ImportPath b) = true \/
  (Package_ImportPath a = Package_ImportPath b /\
   (str_lt (Package_Dir a) (Package_Dir b) = true \/
    (Package_Dir a = Package_Dir b /\ str_le (Package_Name a) (Package_Name b)))).

Lemma packageLess_cases (a b : Package) :
  packageLess a b =
    if String.eqb (Package_ImportPath a) (Package_ImportPath b) then
      if String.eqb (Package_Dir a) (Package_Dir b)
      then str_lt (Package_Name a) (Package_Name b)
      else str_lt (Package_Dir a) (Package_Dir b)
    else str_lt (Package_ImportPath a) (Package_ImportPath b).
Proof.
  unfold packageLess.
  destruct (String.eqb (Package_ImportPath a) _); [|reflexivity].
  now destruct (String.eqb (Package_Dir a) _).
Qed.

Lemma str_lt_or (a b : string) : a <> b -> str_lt a b = false -> str_lt b a = true.
Proof.
  intros Hne Hab. destruct (str_lt b a) eqn:Hba; [reflexivity|].
  exfalso. apply Hne. now apply str_lt_total.
Qed.

Lemma packageLess_false (a b : Package) : packageLess b a = false -> packageLe a b.
Proof.
  rewrite packageLess_cases. unfold packageLe.
  destruct (String.eqb_spec (Package_ImportPath b) (Package_ImportPath a)) as [Ei|Ni].
  - destruct (String.eqb_spec (Package_Dir b) (Package_Dir a)) as [Ed|Nd].
    + intros Hn. right. split; [now symmetry|]. right. split; [now symmetry|].
      now apply str_lt_false_iff.
    + intros Hd. right. split; [now symmetry|]. left.
      apply str_lt_or; [exact Nd|exact Hd].
  - intros Hi. left. apply str_lt_or; [exact Ni|exact Hi].
Qed.

Ltac order_close :=
  first
    [ assumption
    | eapply str_lt_trans; eassumption
    | eapply str_lt_incomp; eassumption
    | exfalso;
      match goal with
      | H1 : str_lt ?a ?b = true, H2 : str_lt ?b ?a = true |- _ =>
          rewrite (str_lt_asym _ _ H1) in H2; discriminate
      | H1 : str_lt ?a ?b = false, H2 : str_lt ?b ?a = false, N : ?a <> ?b |- _ =>
          apply N; now apply str_lt_total
      | H1 : str_lt ?a ?b = false, H2 : str_lt ?b ?a = false, N : ?b <> ?a |- _ =>
          apply N; symmetry; now apply str_lt_total
      end ].

Ltac order_cases :=
  repeat match goal with
         | |- context [String.eqb ?a ?b] => destruct (String.eqb_spec a b); subst
         end;
  try congruence; intros; order_close.

Lemma packageLess_StrictWeak : StrictWeak packageLess.
Proof.
  split.
  - intros x. rewrite packageLess_cases, !String.eqb_refl. apply str_lt_irrefl.
  - intros x y z. rewrite !packageLess_cases.
    generalize (Package_ImportPath x) (Package_ImportPath y) (Package_ImportPath z)
               (Package_Dir x) (Package_Dir y) (Package_Dir z)
               (Package_Name x) (Package_Name y) (Package_Name z).
    intros ix iy iz dx dy dz nx ny nz. order_cases.
  - intros x y z. rewrite !packageLess_cases.
    generalize (Package_ImportPath x) (Package_ImportPath y) (Package_ImportPath z)
               (Package_Dir x) (Package_Dir y) (Package_Dir z)
               (Package_Name x) (Package_Name y) (Package_Name z).
    intros ix iy iz dx dy dz nx ny nz. order_cases.
Qed.

Lemma Sorted_map {A B} (f : A -> B) (R1 : A -> A -> Prop) (R2 : B -> B -> Prop)
    (l : list A) :
  (forall a b, R1 a b -> R2 (f a) (f b)) -> Sorted R1 l -> Sorted R2 (map f l).
Proof.
  intros Hf Hs. induction Hs as [|a l Hs IH Hhd]; simpl; constructor; [exact IH|].
  destruct Hhd; simpl; constructor. now apply Hf.
Qed.

Section Canonical.

Context {sorter : Sorter}.

Lemma sort_Slice_sortedBy {A} (name : A -> string) (l : list A) :
  sortedBy name (sort_Slice (byName name) l).
Proof. apply sorted_byName, sort_Slice_sorted, byName_StrictWeak. Qed.

Lemma sort_Strings_sorted (l : list string) :
  sortedBy (fun s : string => s) (sort_Strings l).
Proof. exact (sort_Slice_sortedBy (fun s : string => s) l). Qed.

Lemma sortType_canonical (t : Type_) : canonicalType (sortType t).
Proof.
  unfold canonicalType, sortType; cbn [Type_Fields Type_Embedded Type_Methods].
  split; [apply sort_Slice_sortedBy|].
  split; [apply sort_Strings_sorted|apply sort_Slice_sortedBy].
Qed.

Lemma sortPackage_canonical (pk : Package) : canonicalPackage (sortPackage pk).
Proof.
  unfold canonicalPackage, sortPackage;
    cbn [Package_Files Package_Types Package_Functions].
  split; [apply sort_Strings_sorted|]. split; [|split].
  - eapply Sorted_map; [|apply (sort_Slice_sortedBy Type_Name)].
    intros a b Hab. exact Hab.
  - apply sort_Slice_sortedBy.
  - apply List.Forall_forall. intros t Hin. apply in_map_iff in Hin as (t0 & <- & _).
    apply sortType_canonical.
Qed.

End Canonical.

(** ** The packages of a run *)

#[warnings="-register-all"]
Fixpoint Node_induction (P : Node -> Prop)
    (Hfile : forall content parsed, P (FileNode content parsed))
    (Hdir : forall es, Forall (fun e => P (snd e)) es -> P (DirNode es))
    (n : Node) : P n :=
  match n with
  | FileNode content parsed => Hfile content parsed
  | DirNode es =>
      Hdir es
        ((fix entries (es : list (string * Node)) : Forall (fun e => P (snd e)) es :=
            match es with
            | [] => @List.Forall_nil _ _
            | e :: es' =>
                @List.Forall_cons _ _ e es'
                  (Node_induction P Hfile Hdir (snd e)) (entries es')
            end) es)
  end.

Lemma locate_error_kind (fs : Node) (dir : Path) (err : error) :
  locate fs dir = inl err -> is_errNoGoFiles err = false.
Proof.
  unfold locate. rewrite locateUp_nearest.
  destruct (List.find _ _) as [d|]; [|discriminate].
  unfold readModulePath. destruct (fs_read fs _) as [|lines failed].
  - now intros [= <-].
  - destruct (scanModuleLine lines); [discriminate|].
    destruct failed; now intros [= <-].
Qed.

Section AssemblerFacts.

Context {sorter : Sorter} {order : MapRange}.
Variable printExpr : ast.Expr -> string.

(** The package of the files [pkg] of a directory, under the module
    [modl], as [parseDir] appends it. *)
Definition packageOf (dir relBase : Path) (pkgName : string) (pkg : ast_Package)
    (modl : option Module_) : Package :=
  sortPackage
    (extractDecls printExpr
       (mkPackage pkgName (importPathFor modl dir) (toRelPath relBase dir)
          (packageFiles relBase dir pkg) [] []) pkg).

(** [pk] is the package of one of the package names that
    [parser.ParseDir] finds in the directory. *)
Definition extractedAt (fs : Node) (dir : Path) (onlyFile : string) (relBase : Path)
    (opts : Options) (pk : Package) : Prop :=
  exists pkgName pkg modl,
    fst (ParseDir fs dir (fileFilter fs dir onlyFile opts)) !! pkgName = Some pkg /\
    locate fs dir = inr modl /\
    pk = packageOf dir relBase pkgName pkg modl.

Lemma extractPackage_spec (fs : Node) (ml : moduleLocator) (dir relBase : Path)
    (pkgName : string) (pkg : ast_Package) :
  cacheOK fs ml ->
  cacheOK fs (snd (extractPackage printExpr fs ml dir pkgName pkg relBase)) /\
  match fst (extractPackage printExpr fs ml dir pkgName pkg relBase) with
  | inr pkgModel =>
      exists modl, locate fs dir = inr modl /\
                   sortPackage pkgModel = packageOf dir relBase pkgName pkg modl
  | inl err => is_errNoGoFiles err = false
  end.
Proof.
  intros Hok. unfold extractPackage.
  destruct (moduleForDir_locate fs ml dir Hok) as [Hloc Hok'].
  destruct (moduleForDir fs ml dir) as [[err|modl] ml1]; cbn [fst snd] in *.
  - split; [exact Hok'|]. eapply locate_error_kind. symmetry. exact Hloc.
  - split; [exact Hok'|]. exists modl. split; [now symmetry|reflexivity].
Qed.

Lemma extractAll_spec (fs : Node) (dir relBase : Path)
    (parsed : list (string * ast_Package)) (ml : moduleLocator) (out : list Package) :
  cacheOK fs ml ->
  cacheOK fs (snd (extractAll printExpr fs ml dir relBase parsed out)) /\
  match fst (extractAll printExpr fs ml dir relBase parsed out) with
  | inr pkgs =>
      exists new, pkgs = out ++ new /\
        Forall (fun pk => exists pkgName pkg modl,
                  In (pkgName, pkg) parsed /\ locate fs dir = inr modl /\
                  pk = packageOf dir relBase pkgName pkg modl) new
  | inl err => is_errNoGoFiles err = false
  end.
Proof.
  revert ml out; induction parsed as [|[pkgName pkg] rest IH]; intros ml out Hok;
    cbn [extractAll].
  - split; [exact Hok|]. exists []. split; [now rewrite app_nil_r|constructor].
  - destruct (extractPackage_spec fs ml dir relBase pkgName pkg Hok) as [Hok1 Hres].
    destruct (extractPackage printExpr fs ml dir pkgName pkg relBase)
      as [[err|pkgModel] ml1]; cbn [fst snd] in *.
    + split; [exact Hok1|exact Hres].
    + destruct (IH ml1 (out ++ [sortPackage pkgModel]) Hok1) as [Hok2 Hrest].
      split; [exact Hok2|].
      destruct (fst (extractAll printExpr fs ml1 dir relBase rest _)) as [err|pkgs];
        [exact Hrest|].
      destruct Hrest as (new & -> & Hnew). destruct Hres as (modl & Hloc & Hpk).
      exists (sortPackage pkgModel :: new). split; [now rewrite <- app_assoc|].
      constructor.
      * exists pkgName, pkg, modl. split; [now left|]. split; [exact Hloc|exact Hpk].
      * eapply Forall_impl; [exact Hnew|].
        intros pk (n & p & m & Hin & Hl & Hp). exists n, p, m.
        split; [now right|]. now split.
Qed.

Lemma range_lookup {A} (site : RangeSite) (m : gmap string A) (k : string) (v : A) :
  In (k, v) (range site m) -> m !! k = Some v.
Proof.
  unfold range. intros Hin. apply elem_of_map_to_list.
  apply list_elem_of_In. eapply Permutation_in; [apply rangeOrder_perm|exact Hin].
Qed.

Lemma parseDir_spec (fs : Node) (ml : moduleLocator) (dir : Path) (onlyFile : string)
    (relBase : Path) (opts : Options) :
  cacheOK fs ml ->
  cacheOK fs (snd (parseDir printExpr fs ml dir onlyFile relBase opts)) /\
  match fst (parseDir printExpr fs ml dir onlyFile relBase opts) with
  | inr pkgs => Forall (extractedAt fs dir onlyFile relBase opts) pkgs
  | inl _ => True
  end.
Proof.
  intros Hok. unfold parseDir, extractedAt.
  destruct (ParseDir fs dir (fileFilter fs dir onlyFile opts))
    as [parsed [[notExist msg]|]]; cbn [fst snd].
  - destruct notExist; [now split|].
    destruct (strings.Contains msg "no Go files"); now split.
  - destruct (size parsed =? 0)%nat; [now split|].
    destruct (extractAll_spec fs dir relBase (range rangeParsed parsed) ml [] Hok)
      as [Hok' Hres].
    split; [exact Hok'|].
    destruct (fst (extractAll printExpr fs ml dir relBase (range rangeParsed parsed) []))
      as [err|pkgs]; [trivial|].
    destruct Hres as (new & -> & Hnew). cbn [app].
    eapply Forall_impl; [exact Hnew|].
    intros pk (n & p & m & Hin & Hl & Hp). exists n, p, m.
    split; [now apply (range_lookup rangeParsed)|]. now split.
Qed.

Lemma walkDir_dir {S} (fn : Path -> string -> bool -> S -> WalkResult * S)
    (path : Path) (name : string) (es : list (string * Node)) (st : S) :
  walkDir fn path name (DirNode es) st =
    match fn path name true st with
    | (walkNil, st1) => walkEntries fn path es st1
    | (walkSkipDir, st1) => (walkNil, st1)
    | (walkFail e, st1) => (walkFail e, st1)
    end.
Proof.
  cbn [walkDir IsDir]. destruct (fn path name true st) as [[| |e] st1]; try reflexivity.
  revert st1. induction es as [|[n1 d1] es IH]; intros st1; [reflexivity|].
  cbn [walkEntries].
  destruct (walkDir fn (filepath.Join path [n1]) n1 d1 st1) as [[| |e] st'];
    try reflexivity.
  apply IH.
Qed.

Section Walk.

Variable fs : Node.
Variable excluded : gset string.
Variable baseDir : Path.
Variable opts : Options.

(** The packages a walk adds come from directories none of whose names,
    from the start of the walk down, is excluded. *)
Definition addedBelow (path : Path) (names : list string) (st st' : WalkState) : Prop :=
  exists new,
    fst st' = fst st ++ new /\
    Forall (fun pk => exists rel,
              Forall (fun n => n ∉ excluded) (names ++ rel) /\
              extractedAt fs (path ++ rel) "" baseDir opts pk) new.

Definition walkOutcome (path : Path) (names : list string) (st : WalkState)
    (res : WalkResult * WalkState) : Prop :=
  cacheOK fs (snd (snd res)) /\
  (forall err, fst res = walkFail err -> is_errNoGoFiles err = false) /\
  addedBelow path names st (snd res).

Lemma addedBelow_refl (path : Path) (names : list string) (st : WalkState) :
  addedBelow path names st st.
Proof. exists []. split; [now rewrite app_nil_r|constructor]. Qed.

Lemma addedBelow_trans (path : Path) (names : list string) (st1 st2 st3 : WalkState) :
  addedBelow path names st1 st2 -> addedBelow path names st2 st3 ->
  addedBelow path names st1 st3.
Proof.
  intros (n1 & E1 & F1) (n2 & E2 & F2). exists (n1 ++ n2). split.
  - rewrite E2, E1. now rewrite <- app_assoc.
  - apply Forall_app. now split.
Qed.

Lemma addedBelow_child (path : Path) (name n1 : string) (st st' : WalkState) :
  name ∉ excluded ->
  addedBelow (filepath.Join path [n1]) [n1] st st' ->
  addedBelow path [name] st st'.
Proof.
  intros Hname (new & E & F). exists new. split; [exact E|].
  eapply Forall_impl; [exact F|]. intros pk (rel & Hrel & Hpk).
  exists (n1 :: rel). split.
  - constructor; [exact Hname|exact Hrel].
  - unfold filepath.Join in Hpk. now rewrite <- app_assoc in Hpk.
Qed.

Lemma walkFn_outcome (path : Path) (name : string) (isDir : bool) (st : WalkState) :
  cacheOK fs (snd st) ->
  walkOutcome path [name] st (walkFn printExpr fs excluded baseDir opts path name isDir st) /\
  (fst (walkFn printExpr fs excluded baseDir opts path name isDir st) = walkNil ->
   isDir = true -> name ∉ excluded).
Proof.
  intros Hok. destruct st as [pkgs ml]. unfold walkFn, walkOutcome.
  destruct isDir; cbn [negb].
  2: { split; [|discriminate]. split; [exact Hok|]. split; [discriminate|].
       apply addedBelow_refl. }
  destruct (bool_decide (name ∈ excluded)) eqn:Eex.
  { split; [|discriminate]. split; [exact Hok|]. split; [discriminate|].
    apply addedBelow_refl. }
  apply bool_decide_eq_false in Eex.
  destruct (parseDir_spec fs ml path "" baseDir opts Hok) as [Hok' Hres].
  destruct (parseDir printExpr fs ml path "" baseDir opts) as [[err|parsed] ml'];
    cbn [fst snd] in *.
  - destruct (is_errNoGoFiles err) eqn:Eerr; cbn [fst snd].
    + split; [|intros _ _; exact Eex]. split; [exact Hok'|]. split; [discriminate|].
      exists []. split; [now rewrite app_nil_r|constructor].
    + split; [|discriminate]. split; [exact Hok'|]. split.
      * now intros err' [= <-].
      * exists []. split; [now rewrite app_nil_r|constructor].
  - split; [|intros _ _; exact Eex]. split; [exact Hok'|]. split; [discriminate|].
    exists parsed. split; [reflexivity|].
    eapply Forall_impl; [exact Hres|]. intros pk Hpk. exists [].
    split; [constructor; [exact Eex|constructor]|]. now rewrite app_nil_r.
Qed.

Lemma walkDir_outcome (d : Node) (path : Path) (name : string) (st : WalkState) :
  cacheOK fs (snd st) ->
  walkOutcome path [name] st
    (walkDir (walkFn printExpr fs excluded baseDir opts) path name d st).
Proof.
  revert path name st. induction d as [content parsed|es IH] using Node_induction;
    intros path name st Hok.
  - cbn [walkDir IsDir].
    destruct (walkFn_outcome path name false st Hok) as [Hout _].
    destruct (walkFn printExpr fs excluded baseDir opts path name false st)
      as [[| |e] st1]; exact Hout.
  - rewrite walkDir_dir.
    destruct (walkFn_outcome path name true st Hok) as [Hout Hname].
    destruct (walkFn printExpr fs excluded baseDir opts path name true st)
      as [[| |e] st1]; cbn [fst snd] in *.
    2: { destruct Hout as (Hc & _ & Ha). split; [exact Hc|]. split; [discriminate|exact Ha]. }
    2: exact Hout.
    specialize (Hname eq_refl eq_refl).
    destruct Hout as (Hc & _ & Ha).
    assert (Hentries : forall st1', cacheOK fs (snd st1') ->
              walkOutcome path [name] st1'
                (walkEntries (walkFn printExpr fs excluded baseDir opts) path es st1')).
    { clear Hc Ha st1 Hok st. induction IH as [|[n1 d1] es' Hd Hes IHes]; intros st1 Hc.
      - cbn [walkEntries]. split; [exact Hc|]. split; [discriminate|].
        apply addedBelow_refl.
      - cbn [walkEntries]. cbn [snd] in Hd.
        destruct (Hd (filepath.Join path [n1]) n1 st1 Hc) as (Hc1 & He1 & Ha1).
        destruct (walkDir (walkFn printExpr fs excluded baseDir opts)
                    (filepath.Join path [n1]) n1 d1 st1) as [[| |e] st2];
          cbn [fst snd] in *.
        + destruct (IHes st2 Hc1) as (Hc2 & He2 & Ha2).
          split; [exact Hc2|]. split; [exact He2|].
          eapply addedBelow_trans; [|exact Ha2].
          now apply (addedBelow_child path name n1).
        + split; [exact Hc1|]. split; [discriminate|].
          now apply (addedBelow_child path name n1).
        + split; [exact Hc1|]. split; [exact He1|].
          now apply (addedBelow_child path name n1). }
    destruct (Hentries st1 Hc) as (Hc2 & He2 & Ha2).
    split; [exact Hc2|]. split; [exact He2|].
    eapply addedBelow_trans; [exact Ha|exact Ha2].
Qed.

End Walk.

(** The set of excluded directory names of a run. *)
Definition excludedNames (opts : Options) : gset string :=
  list_to_set (ExcludeDirNames (withDefaults opts)).

(** Where the packages of a model come from: in a walk, from the root
    directory or a directory below it, with no excluded name from the
    root's own name down; for a single file, from its directory. *)
Definition packageOrigin (fs : Node) (root : Path) (opts : Options) (pk : Package) : Prop :=
  match fs_lookup fs root with
  | Some (DirNode _) =>
      exists rel,
        Forall (fun n => n ∉ excludedNames opts) (filepath.Base root :: rel) /\
        extractedAt fs (root ++ rel) "" root (withDefaults opts) pk
  | Some (FileNode _ _) =>
      extractedAt fs (filepath.Dir root) (filepath.Base root) (filepath.Dir root)
        (withDefaults opts) pk
  | None => False
  end.

Lemma collectPackages_dir (fs : Node) (ml : moduleLocator) (root : Path)
    (es : list (string * Node)) (opts : Options) (pkgs : list Package) :
  cacheOK fs ml ->
  collectPackages printExpr fs ml root root "" (DirNode es) opts = inr pkgs ->
  Forall (fun pk => exists rel,
            Forall (fun n => n ∉ (list_to_set (ExcludeDirNames opts) : gset string))
                   (filepath.Base root :: rel) /\
            extractedAt fs (root ++ rel) "" root opts pk) pkgs.
Proof.
  intros Hok. unfold collectPackages, WalkDir. cbn [String.eqb negb].
  pose proof (walkDir_outcome fs (list_to_set (ExcludeDirNames opts)) root opts
                (DirNode es) root (filepath.Base root) ([], ml) Hok) as (_ & _ & Hadd).
  destruct (walkDir (walkFn printExpr fs (list_to_set (ExcludeDirNames opts)) root opts)
              root (filepath.Base root) (DirNode es) ([], ml))
    as [[| |e] [pkgs' ml']]; cbn [fst snd] in *; try discriminate.
  all: intros [= <-]; destruct Hadd as (new & E & Hnew); cbn [fst app] in E;
    subst pkgs'; exact Hnew.
Qed.

Lemma collectPackages_file (fs : Node) (ml : moduleLocator) (root : Path)
    (content : Reading) (parsed : ParseResult) (opts : Options) (pkgs : list Package) :
  cacheOK fs ml ->
  collectPackages printExpr fs ml root (filepath.Dir root) (filepath.Base root)
    (FileNode content parsed) opts = inr pkgs ->
  Forall (extractedAt fs (filepath.Dir root) (filepath.Base root) (filepath.Dir root) opts)
         pkgs.
Proof.
  intros Hok. unfold collectPackages.
  destruct (negb (String.eqb (filepath.Base root) "")).
  - destruct (parseDir_spec fs ml (filepath.Dir root) (filepath.Base root)
                (filepath.Dir root) opts Hok) as [_ Hres].
    destruct (parseDir printExpr fs ml _ _ _ opts) as [[err|pkgs'] ml'];
      cbn [fst] in Hres; [discriminate|].
    now intros [= <-].
  - unfold WalkDir. cbn [walkDir IsDir walkFn negb].
    intros [= <-]. constructor.
Qed.

(** Every package of a model has its origin, and the model lists the
    packages in the order of the final sort. *)
Lemma Generate_packages (now : Z) (fs : Node) (root : Path) (opts : Options) (m : Model) :
  Generate printExpr now fs root opts = inr m ->
  Forall (packageOrigin fs root opts) (Model_Packages m) /\
  Sorted (notAfter packageLess) (Model_Packages m).
Proof.
  unfold Generate, packageOrigin.
  destruct (fs_lookup fs root) as [rootInfo|]; [|discriminate].
  destruct rootInfo as [content parsed|es]; cbn [IsDir negb].
  - destruct (moduleForDir_locate fs newModuleLocator (filepath.Dir root)
                (cacheOK_empty fs)) as [_ Hok].
    destruct (moduleForDir fs newModuleLocator (filepath.Dir root))
      as [[err|rootModule] ml]; [discriminate|]. cbn [snd] in Hok.
    destruct (collectPackages printExpr fs ml root _ _ _ _) as [err|pkgs] eqn:Ecollect;
      [discriminate|].
    intros [= <-]. cbn [Model_Packages].
    split; [|apply sort_Slice_sorted, packageLess_StrictWeak].
    apply collectPackages_file in Ecollect; [|exact Hok].
    apply List.Forall_forall. intros pk Hin.
    eapply List.Forall_forall in Ecollect; [exact Ecollect|].
    eapply Permutation_in; [apply sort_Slice_perm|exact Hin].
  - destruct (moduleForDir_locate fs newModuleLocator root (cacheOK_empty fs))
      as [_ Hok].
    destruct (moduleForDir fs newModuleLocator root) as [[err|rootModule] ml];
      [discriminate|]. cbn [snd] in Hok.
    destruct (collectPackages printExpr fs ml root _ _ _ _) as [err|pkgs] eqn:Ecollect;
      [discriminate|].
    intros [= <-]. cbn [Model_Packages].
    split; [|apply sort_Slice_sorted, packageLess_StrictWeak].
    apply collectPackages_dir in Ecollect; [|exact Hok].
    apply List.Forall_forall. intros pk Hin.
    eapply List.Forall_forall in Ecollect; [exact Ecollect|].
    eapply Permutation_in; [apply sort_Slice_perm|exact Hin].
Qed.

(** C2. In the model of a successful run every package has its files,
    types and functions, and every type its fields, embedded names and
    methods, in ascending byte order of the name (of the path, for
    files), and the packages are in ascending order of (import path,
    directory, name). *)
Theorem model_in_canonical_order (now : Z) (fs : Node) (root : Path) (opts : Options)
    (m : Model) :
  Generate printExpr now fs root opts = inr m ->
  Forall canonicalPackage (Model_Packages m) /\
  Sorted packageLe (Model_Packages m).
Proof.
  intros Hgen. destruct (Generate_packages now fs root opts m Hgen) as [Horigin Hsorted].
  split.
  - eapply Forall_impl; [exact Horigin|]. intros pk. unfold packageOrigin.
    assert (Hex : forall dir onlyFile relBase, extractedAt fs dir onlyFile relBase
                    (withDefaults opts) pk -> canonicalPackage pk).
    { intros dir onlyFile relBase (pkgName & pkg & modl & _ & _ & ->).
      apply sortPackage_canonical. }
    destruct (fs_lookup fs root) as [[content parsed|es]|]; [| |contradiction].
    + apply Hex.
    + intros (rel & _ & Hpk). eapply Hex, Hpk.
  - eapply Sorted_mono; [|exact Hsorted]. intros a b. apply packageLess_false.
Qed.

(** ** Excluded directories *)

Lemma walkDir_excluded (fs : Node) (excluded : gset string) (baseDir : Path)
    (opts : Options) (path : Path) (name : string) (es : list (string * Node))
    (st : WalkState) :
  name ∈ excluded ->
  walkDir (walkFn printExpr fs excluded baseDir opts) path name (DirNode es) st
    = (walkNil, st).
Proof.
  intros Hex. rewrite walkDir_dir. destruct st as [pkgs ml]. unfold walkFn. cbn [negb].
  now rewrite bool_decide_eq_true_2.
Qed.

(** C3, amended. In a walk of a root directory, a directory at or below
    the root whose name is excluded is left at once, with no package
    added and whatever it contains; every package of the model comes
    from the root or a directory below it with no excluded name from the
    root's own name down; a root with an excluded name gives no package.
    Names above the root, and the directory of a root that is a single
    file, are not looked at. *)
Theorem excluded_subtrees_contribute_nothing (now : Z) (fs : Node) (root : Path)
    (opts : Options) :
  (forall path name es st,
     name ∈ excludedNames opts ->
     walkDir (walkFn printExpr fs (excludedNames opts) root (withDefaults opts))
       path name (DirNode es) st = (walkNil, st)) /\
  (forall es m,
     fs_lookup fs root = Some (DirNode es) ->
     Generate printExpr now fs root opts = inr m ->
     (forall pk, In pk (Model_Packages m) ->
        exists rel,
          Forall (fun n => n ∉ excludedNames opts) (filepath.Base root :: rel) /\
          extractedAt fs (root ++ rel) "" root (withDefaults opts) pk) /\
     (filepath.Base root ∈ excludedNames opts -> Model_Packages m = [])).
Proof.
  split; [intros; now apply walkDir_excluded|].
  intros es m Hroot Hgen.
  destruct (Generate_packages now fs root opts m Hgen) as [Horigin _].
  unfold packageOrigin in Horigin. rewrite Hroot in Horigin.
  assert (Hall : forall pk, In pk (Model_Packages m) ->
            exists rel,
              Forall (fun n => n ∉ excludedNames opts) (filepath.Base root :: rel) /\
              extractedAt fs (root ++ rel) "" root (withDefaults opts) pk).
  { intros pk Hin. eapply List.Forall_forall in Horigin; [exact Horigin|exact Hin]. }
  split; [exact Hall|].
  intros Hex. destruct (Model_Packages m) as [|pk pkgs]; [reflexivity|].
  destruct (Hall pk (or_introl eq_refl)) as (rel & Hrel & _).
  inversion Hrel; subst. contradiction.
Qed.

(** ** Directories without source files *)

(** No entry of the directory is a file that [parser.ParseDir] and the
    filter let through. *)
Definition noMatchingFiles (fs : Node) (dir : Path) (onlyFile : string) (opts : Options)
  : Prop :=
  exists es,
    fs_lookup fs dir = Some (DirNode es) /\
    Forall (fun e =>
              IsDir (snd e) || negb (strings.HasSuffix (fst e) ".go")
              || negb (fileFilter fs dir onlyFile opts (fst e)) = true) es.

Lemma parseDir_noMatchingFiles (fs : Node) (ml : moduleLocator) (dir : Path)
    (onlyFile : string) (relBase : Path) (opts : Options) :
  noMatchingFiles fs dir onlyFile opts ->
  parseDir printExpr fs ml dir onlyFile relBase opts = (inl errNoGoFiles, ml).
Proof.
  intros (es & Hdir & Hes). unfold parseDir, ParseDir. rewrite Hdir. clear Hdir.
  assert (Hfold : fold_left (parseEntry dir (fileFilter fs dir onlyFile opts)) es (∅, None)
                  = (∅, None)).
  { induction Hes as [|[name d] es Hskip Hes IH]; [reflexivity|].
    cbn [fold_left parseEntry]. cbn [fst snd] in Hskip.
    apply orb_true_iff in Hskip as [Hskip|Hskip].
    - rewrite Hskip. exact IH.
    - destruct (IsDir d || negb (strings.HasSuffix name ".go")); [exact IH|].
      rewrite Hskip. exact IH. }
  rewrite Hfold. reflexivity.
Qed.

Lemma collectPackages_dir_error (fs : Node) (ml : moduleLocator) (root : Path)
    (es : list (string * Node)) (opts : Options) (err : error) :
  cacheOK fs ml ->
  collectPackages printExpr fs ml root root "" (DirNode es) opts = inl err ->
  is_errNoGoFiles err = false.
Proof.
  intros Hok. unfold collectPackages, WalkDir. cbn [String.eqb negb].
  pose proof (walkDir_outcome fs (list_to_set (ExcludeDirNames opts)) root opts
                (DirNode es) root (filepath.Base root) ([], ml) Hok) as (_ & Herr & _).
  destruct (walkDir (walkFn printExpr fs (list_to_set (ExcludeDirNames opts)) root opts)
              root (filepath.Base root) (DirNode es) ([], ml))
    as [[| |e] [pkgs' ml']]; cbn [fst snd] in *; try discriminate.
  intros [= <-]. now apply Herr.
Qed.

(** C6, amended. In a walk, a directory that is not excluded and yields
    no matching file is skipped: the walk function returns nil and
    leaves the package list and the cache as they were; and a run on a
    root directory never returns the no-source-files error.  When the
    root is a single file, the error of its directory is returned as it
    is. *)
Theorem directory_without_sources_skipped (now : Z) (fs : Node) (root : Path)
    (opts : Options) :
  (forall path name st,
     name ∉ excludedNames opts ->
     noMatchingFiles fs path "" (withDefaults opts) ->
     walkFn printExpr fs (excludedNames opts) root (withDefaults opts) path name true st
       = (walkNil, st)) /\
  (forall es,
     fs_lookup fs root = Some (DirNode es) ->
     Generate printExpr now fs root opts <> inl errNoGoFiles) /\
  (forall content parsed modl,
     fs_lookup fs root = Some (FileNode content parsed) ->
     filepath.Base root <> "" ->
     locate fs (filepath.Dir root) = inr modl ->
     noMatchingFiles fs (filepath.Dir root) (filepath.Base root) (withDefaults opts) ->
     Generate printExpr now fs root opts = inl errNoGoFiles).
Proof.
  split; [|split].
  - intros path name [pkgs ml] Hname Hnone. unfold walkFn. cbn [negb].
    rewrite bool_decide_eq_false_2 by exact Hname.
    now rewrite (parseDir_noMatchingFiles fs ml path "" root _ Hnone).
  - intros es Hroot. unfold Generate. rewrite Hroot. cbn [IsDir negb].
    destruct (moduleForDir_locate fs newModuleLocator root (cacheOK_empty fs))
      as [Hloc Hok].
    destruct (moduleForDir fs newModuleLocator root) as [[err|rootModule] ml];
      cbn [fst snd] in *.
    + intros [= ->]. symmetry in Hloc. apply locate_error_kind in Hloc. discriminate.
    + destruct (collectPackages printExpr fs ml root root "" (DirNode es)
                  (withDefaults opts)) as [err|pkgs] eqn:Ecollect; [|discriminate].
      intros [= ->]. apply collectPackages_dir_error in Ecollect; [|exact Hok].
      discriminate.
  - intros content parsed modl Hroot Hbase Hloc Hnone. unfold Generate. rewrite Hroot.
    cbn [IsDir negb].
    destruct (moduleForDir_locate fs newModuleLocator (filepath.Dir root)
                (cacheOK_empty fs)) as [Hloc' _].
    destruct (moduleForDir fs newModuleLocator (filepath.Dir root)) as [r ml].
    cbn [fst] in Hloc'. rewrite Hloc in Hloc'. subst r.
    unfold collectPackages.
    destruct (String.eqb_spec (filepath.Base root) "") as [E|_]; [contradiction|].
    cbn [negb]. now rewrite (parseDir_noMatchingFiles fs ml _ _ _ _ Hnone).
Qed.

(** ** Fields of the model *)

(** The parser never produces an empty identifier; for the names of
    struct members this is a check on the parsed files of a tree. *)
Definition memberNamesOK (field : ast.Field) : bool :=
  forallb (fun name => negb (String.eqb name "")) (ast.Field_Names field).

Definition typeSpecOK (ts : ast.TypeSpec) : bool :=
  match ast.TypeSpec_Type ts with
  | ast.StructType (Some fields) => forallb memberNamesOK fields
  | _ => true
  end.

Definition specOK (spec : ast.Spec) : bool :=
  match spec with
  | ast.SpecType ts => typeSpecOK ts
  | _ => true
  end.

Definition declOK (decl : ast.Decl) : bool :=
  match decl with
  | ast.DeclGen gen => forallb specOK (ast.GenDecl_Specs gen)
  | _ => true
  end.

Definition fileOK (f : ast.File) : bool := forallb declOK (ast.File_Decls f).

Fixpoint treeOK (n : Node) : bool :=
  match n with
  | FileNode _ (Parsed f) => fileOK f
  | FileNode _ (ParseError _ _) => true
  | DirNode es => forallb (fun e => treeOK (snd e)) es
  end.

Lemma assoc_In {A} (k : string) (l : list (string * A)) (v : A) :
  assoc k l = Some v -> In (k, v) l.
Proof.
  induction l as [|[k' v'] l IH]; simpl; [discriminate|].
  destruct (String.eqb_spec k k') as [->|_].
  - intros [= ->]. now left.
  - intros Hl. right. now apply IH.
Qed.

Lemma treeOK_lookup (p : Path) (fs n : Node) :
  treeOK fs = true -> fs_lookup fs p = Some n -> treeOK n = true.
Proof.
  revert fs; induction p as [|c p IH]; intros fs Hok; cbn [fs_lookup].
  - now intros [= <-].
  - destruct fs as [content parsed|es]; [discriminate|].
    destruct (assoc c es) as [n1|] eqn:Eassoc; [|discriminate].
    apply IH. cbn [treeOK] in Hok.
    eapply forallb_forall in Hok; [|apply assoc_In, Eassoc]. exact Hok.
Qed.

Lemma typeOfSpec_fields (gen : ast.GenDecl) (ts : ast.TypeSpec) (f : Field) :
  In f (Type_Fields (typeOfSpec printExpr gen ts)) ->
  Field_Embedded f = false /\ (typeSpecOK ts = true -> Field_Name f <> "").
Proof.
  unfold typeOfSpec, typeSpecOK.
  destruct (ast.TypeSpec_Type ts) as [| | | | | | | | | |fields|methods| |];
    try (cbn [Type_Fields]; contradiction).
  - rewrite (parseStructFields_members printExpr fields). cbn [Type_Fields].
    intros Hin. apply in_flat_map in Hin as (field & Hfield & Hf).
    destruct (namedFields_spec printExpr field f Hf) as [Hemb Hname].
    split; [exact Hemb|]. destruct fields as [l|]; [|contradiction].
    intros Hok E. cbn [default] in Hfield.
    eapply forallb_forall in Hok; [|exact Hfield].
    unfold memberNamesOK in Hok. eapply forallb_forall in Hok; [|exact Hname].
    rewrite E in Hok. discriminate.
  - destruct (parseInterfaceMethods printExpr methods). cbn [Type_Fields]. contradiction.
Qed.

Lemma declaredTypes_origin (files : list (Path * ast.File)) (t : Type_) :
  In t (declaredTypes printExpr files) ->
  exists file gen ts,
    In file files /\ In (ast.DeclGen gen) (ast.File_Decls (snd file)) /\
    In (ast.SpecType ts) (ast.GenDecl_Specs gen) /\
    t = typeOfSpec printExpr gen ts.
Proof.
  unfold declaredTypes. intros Hin.
  apply in_flat_map in Hin as (file & Hfile & Hin).
  apply in_flat_map in Hin as (decl & Hdecl & Hin).
  destruct decl as [gen| |]; cbn [typesOfDecl] in Hin; try contradiction.
  destruct (ast.GenDecl_Tok gen); try contradiction.
  apply in_flat_map in Hin as (spec & Hspec & Hin).
  destruct spec as [ts| |]; cbn [typesOfSpec] in Hin; try contradiction.
  destruct Hin as [<-|[]]. now exists file, gen, ts.
Qed.

Lemma packageOf_fields (dir relBase : Path) (pkgName : string) (pkg : ast_Package)
    (modl : option Module_) (t : Type_) (f : Field) :
  In t (Package_Types (packageOf dir relBase pkgName pkg modl)) ->
  In f (Type_Fields t) ->
  exists t0, In t0 (declaredTypes printExpr (range rangeTypes (ast_Package_Files pkg))) /\
             In f (Type_Fields t0).
Proof.
  unfold packageOf, sortPackage. cbn [Package_Types].
  intros Ht Hf. apply in_map_iff in Ht as (t1 & <- & Ht1).
  cbn [sortType Type_Fields] in Hf.
  eapply Permutation_in in Hf; [|apply sort_Slice_perm].
  eapply Permutation_in in Ht1; [|apply sort_Slice_perm].
  destruct (extractDecls_spec printExpr
              (mkPackage pkgName (importPathFor modl dir) (toRelPath relBase dir)
                 (packageFiles relBase dir pkg) [] []) pkg eq_refl)
    as (_ & _ & _ & _ & _ & Hty).
  rewrite Hty in Ht1. apply list_elem_of_In, list_elem_of_lookup in Ht1 as [i Hi].
  rewrite list_lookup_imap in Hi.
  destruct (declaredTypes printExpr (range rangeTypes (ast_Package_Files pkg)) !! i)
    as [t0|] eqn:Et0;
    [|discriminate].
  injection Hi as <-. exists t0. split; [|exact Hf].
  apply list_elem_of_In, list_elem_of_lookup. now exists i.
Qed.

Lemma parseEntry_files (dir : Path) (filter : string -> bool) (es l : list (string * Node))
    (acc : gmap string ast_Package * option (bool * string)) :
  (forall e, In e l -> In e es) ->
  (forall pname pkg path f,
     fst acc !! pname = Some pkg -> ast_Package_Files pkg !! path = Some f ->
     exists e, In e es /\ nodeParsed (snd e) = Parsed f) ->
  forall pname pkg path f,
    fst (fold_left (parseEntry dir filter) l acc) !! pname = Some pkg ->
    ast_Package_Files pkg !! path = Some f ->
    exists e, In e es /\ nodeParsed (snd e) = Parsed f.
Proof.
  revert acc; induction l as [|[name d] l IH]; intros acc Hsub Hacc; [exact Hacc|].
  cbn [fold_left]. apply IH; [intros e He; apply Hsub; now right|].
  destruct acc as [pkgs first]. unfold parseEntry.
  destruct (IsDir d || negb (strings.HasSuffix name ".go")); [exact Hacc|].
  destruct (negb (filter name)); [exact Hacc|].
  destruct (nodeParsed d) as [notExist msg|src] eqn:Eparsed; [exact Hacc|].
  cbn [fst] in *. intros pname pkg path f.
  destruct (decide (ast.File_Name src = pname)) as [<-|Hne].
  - rewrite lookup_insert_eq. intros [= <-]. cbn [ast_Package_Files].
    destruct (decide (filepath.Join dir [name] = path)) as [<-|Hnp].
    + rewrite lookup_insert_eq. intros [= <-].
      exists (name, d). split; [apply Hsub; now left|exact Eparsed].
    + rewrite lookup_insert_ne by exact Hnp.
      destruct (pkgs !! ast.File_Name src) as [pkg0|] eqn:Epkg0.
      * now apply (Hacc (ast.File_Name src) pkg0 path f).
      * cbn [ast_Package_Files]. now rewrite lookup_empty.
  - rewrite lookup_insert_ne by exact Hne. apply Hacc.
Qed.

Lemma ParseDir_files (fs : Node) (dir : Path) (filter : string -> bool)
    (pname : string) (pkg : ast_Package) (path : Path) (f : ast.File) :
  treeOK fs = true ->
  fst (ParseDir fs dir filter) !! pname = Some pkg ->
  ast_Package_Files pkg !! path = Some f ->
  fileOK f = true.
Proof.
  intros Hok. unfold ParseDir.
  destruct (fs_lookup fs dir) as [[content parsed|es]|] eqn:Elookup;
    cbn [fst]; try (now rewrite lookup_empty).
  intros Hpkg Hfile.
  destruct (parseEntry_files dir filter es es (∅, None) (fun e He => He)
              (fun pname pkg path f Hp => ltac:(cbn [fst] in Hp; now rewrite lookup_empty in Hp))
              pname pkg path f Hpkg Hfile) as ([name d] & Hin & Hparsed).
  pose proof (treeOK_lookup dir fs _ Hok Elookup) as Hdir. cbn [treeOK] in Hdir.
  eapply forallb_forall in Hdir; [|exact Hin]. cbn [snd] in *.
  destruct d as [content parsed|es']; cbn [nodeParsed] in Hparsed; [|discriminate].
  subst parsed. exact Hdir.
Qed.

Lemma range_lookup_files (site : RangeSite) (m : gmap Path ast.File) (k : Path)
    (v : ast.File) :
  In (k, v) (range site m) -> m !! k = Some v.
Proof.
  unfold range. intros Hin. apply elem_of_map_to_list.
  apply list_elem_of_In. eapply Permutation_in; [apply rangeOrder_perm|exact Hin].
Qed.

Lemma extractedAt_fields (fs : Node) (dir : Path) (onlyFile : string) (relBase : Path)
    (opts : Options) (pk : Package) (t : Type_) (f : Field) :
  treeOK fs = true ->
  extractedAt fs dir onlyFile relBase opts pk ->
  In t (Package_Types pk) -> In f (Type_Fields t) ->
  Field_Name f <> "" /\ Field_Embedded f = false.
Proof.
  intros Hok (pkgName & pkg & modl & Hpkg & _ & ->) Ht Hf.
  destruct (packageOf_fields dir relBase pkgName pkg modl t f Ht Hf) as (t0 & Ht0 & Hf0).
  destruct (declaredTypes_origin _ t0 Ht0) as ([path file] & gen & ts & Hfile & Hdecl & Hspec & ->).
  destruct (typeOfSpec_fields gen ts f Hf0) as [Hemb Hname].
  split; [|exact Hemb]. apply Hname.
  apply range_lookup_files in Hfile.
  pose proof (ParseDir_files fs dir _ pkgName pkg path file Hok Hpkg Hfile) as Hfok.
  unfold fileOK in Hfok. eapply forallb_forall in Hfok; [|exact Hdecl].
  cbn [declOK snd] in Hfok. eapply forallb_forall in Hfok; [|exact Hspec].
  exact Hfok.
Qed.

(** [t] is the record of the type spec [spec]: it has the name the
    spec declares and, for a struct type, the named members as its
    fields and the printed types of the unnamed members as its embedded
    names; for another type expression it has no field. *)
Definition recordsMembers (t : Type_) (spec : ast.GenDecl * ast.TypeSpec) : Prop :=
  Type_Name t = declaredName spec /\
  match ast.TypeSpec_Type (snd spec) with
  | ast.StructType fields =>
      Permutation (Type_Fields t)
        (flat_map (namedFields printExpr) (default [] fields)) /\
      Permutation (Type_Embedded t)
        (flat_map (embeddedName printExpr) (default [] fields))
  | _ => Type_Fields t = []
  end.

Lemma packageOf_members (dir relBase : Path) (pkgName : string) (pkg : ast_Package)
    (modl : option Module_) :
  exists types0,
    Permutation (Package_Types (packageOf dir relBase pkgName pkg modl)) types0 /\
    Forall2 recordsMembers types0
      (typeSpecs (range rangeTypes (ast_Package_Files pkg))).
Proof.
  unfold packageOf, sortPackage. cbn [Package_Types].
  destruct (extractDecls_spec printExpr
              (mkPackage pkgName (importPathFor modl dir) (toRelPath relBase dir)
                 (packageFiles relBase dir pkg) [] []) pkg eq_refl)
    as (_ & _ & _ & _ & _ & Hty).
  rewrite Hty, (declaredTypes_typeSpecs printExpr). clear Hty.
  set (specs := typeSpecs (range rangeTypes (ast_Package_Files pkg))).
  set (bound := imap _ (map (typeOfDeclared printExpr) specs)).
  exists (map sortType bound). split; [apply Permutation_map, sort_Slice_perm|].
  apply Forall2_same_length_lookup_2.
  - unfold bound. now rewrite !length_map, length_imap, length_map.
  - intros i t [gen ts]. unfold bound.
    rewrite list_lookup_fmap, list_lookup_imap, list_lookup_fmap.
    intros Ht Hspec. rewrite Hspec in Ht. cbn in Ht. injection Ht as <-.
    unfold recordsMembers, declaredName, typeOfDeclared. cbn [fst snd].
    cbn [sortType Type_setMethods Type_Name Type_Fields Type_Embedded].
    split; [apply typeOfSpec_Name|].
    unfold typeOfSpec.
    destruct (ast.TypeSpec_Type ts) as [| | | | | | | | | |fields|methods| |];
      cbn [Type_Fields Type_Embedded];
      try (apply Permutation_nil; symmetry; apply sort_Slice_perm).
    + rewrite (parseStructFields_members printExpr fields).
      cbn [Type_Fields Type_Embedded]. split; [apply sort_Slice_perm|].
      apply (sort_Slice_perm _ str_lt).
    + destruct (parseInterfaceMethods printExpr methods). cbn [Type_Fields].
      apply Permutation_nil. symmetry. apply sort_Slice_perm.
Qed.

(** C10. A struct member without a name adds its printed type to the
    embedded names of its type and no field; each name of a named member
    adds one field and nothing to the embedded names.  In the model of
    a run, the types of every package are the records of the type specs
    of its parsed files, one for each: a struct type has as fields the
    named members and as embedded names the printed types of the
    unnamed members, each up to the order of the list.  So, the
    identifiers of parsed files never being empty, every field of every
    type has a non-empty name and its embedded flag unset. *)
Theorem fields_are_named_members (now : Z) (fs : Node) (root : Path) (opts : Options)
    (m : Model) :
  treeOK fs = true ->
  Generate printExpr now fs root opts = inr m ->
  (forall l : list ast.Field,
     parseStructFields printExpr (Some l) =
       (flat_map (namedFields printExpr) l, flat_map (embeddedName printExpr) l)) /\
  (forall field : ast.Field,
     match ast.Field_Names field with
     | [] => namedFields printExpr field = [] /\
             embeddedName printExpr field = [exprString printExpr (ast.Field_Type field)]
     | names => map Field_Name (namedFields printExpr field) = names /\
                embeddedName printExpr field = []
     end) /\
  (forall pk, In pk (Model_Packages m) ->
     exists dir onlyFile pkgName pkg types0,
       fst (ParseDir fs dir (fileFilter fs dir onlyFile (withDefaults opts))) !! pkgName
         = Some pkg /\
       Permutation (Package_Types pk) types0 /\
       Forall2 recordsMembers types0
         (typeSpecs (range rangeTypes (ast_Package_Files pkg)))) /\
  (forall pk t f,
     In pk (Model_Packages m) -> In t (Package_Types pk) -> In f (Type_Fields t) ->
     Field_Name f <> "" /\ Field_Embedded f = false).
Proof.
  intros Hok Hgen.
  destruct (Generate_packages now fs root opts m Hgen) as [Horigin _].
  split; [|split; [|split]].
  - intros l. apply (parseStructFields_members printExpr (Some l)).
  - intros field. unfold namedFields, embeddedName.
    destruct (ast.Field_Names field) as [|name names]; [now split|].
    split; [|reflexivity]. rewrite map_map. cbn [Field_Name]. apply map_id.
  - intros pk Hpk.
    assert (Hex : forall dir onlyFile relBase,
               extractedAt fs dir onlyFile relBase (withDefaults opts) pk ->
               exists dir onlyFile pkgName pkg types0,
                 fst (ParseDir fs dir (fileFilter fs dir onlyFile (withDefaults opts)))
                   !! pkgName = Some pkg /\
                 Permutation (Package_Types pk) types0 /\
                 Forall2 recordsMembers types0
                   (typeSpecs (range rangeTypes (ast_Package_Files pkg)))).
    { intros dir onlyFile relBase (pkgName & pkg & modl & Hparsed & _ & ->).
      destruct (packageOf_members dir relBase pkgName pkg modl) as (types0 & Hperm & Hall).
      now exists dir, onlyFile, pkgName, pkg, types0. }
    eapply List.Forall_forall in Horigin; [|exact Hpk].
    unfold packageOrigin in Horigin.
    destruct (fs_lookup fs root) as [[content parsed|es]|]; [| |contradiction].
    + exact (Hex _ _ _ Horigin).
    + destruct Horigin as (rel & _ & Hpkg). exact (Hex _ _ _ Hpkg).
  - intros pk t f Hpk Ht Hf.
    eapply List.Forall_forall in Horigin; [|exact Hpk].
    unfold packageOrigin in Horigin.
    destruct (fs_lookup fs root) as [[content parsed|es]|]; [| |contradiction].
    + exact (extractedAt_fields fs _ _ _ _ pk t f Hok Horigin Ht Hf).
    + destruct Horigin as (rel & _ & Hex).
      exact (extractedAt_fields fs _ _ _ _ pk t f Hok Hex Ht Hf).
Qed.

End AssemblerFacts.

(** ** Iteration order of the files

    Where the names that a sort compares are pairwise distinct, the
    order in which the files of a package are met does not show in the
    sorted package. *)

Lemma sortedBy_unique {A} (name : A -> string) (l1 l2 : list A) :
  sortedBy name l1 -> sortedBy name l2 -> Permutation l1 l2 ->
  NoDup (map name l1) -> l1 = l2.
Proof.
  intros Hs1 Hs2 Hperm Hnodup.
  assert (Htrans : Transitive (fun a b : A => str_le (name a) (name b))).
  { intros a b c. apply str_le_trans. }
  apply (Sorted_unique_strong (fun a b => str_le (name a) (name b)));
    [|exact Hs1|exact Hs2|exact Hperm].
  intros x1 x2 Hx1 Hx2 H12 H21.
  assert (Hname : name x1 = name x2) by now apply String.leb_antisym.
  apply list_elem_of_In in Hx1, Hx2.
  apply (Permutation_in _ (Permutation_sym Hperm)) in Hx2.
  clear Hs1 Hs2 Hperm. induction l1 as [|x l1 IH]; [destruct Hx1|].
  cbn [map] in Hnodup. apply NoDup_cons in Hnodup as [Hnotin Hnodup].
  rewrite list_elem_of_In in Hnotin.
  destruct Hx1 as [<-|Hx1], Hx2 as [<-|Hx2]; try reflexivity.
  - exfalso. apply Hnotin. rewrite Hname. now apply in_map.
  - exfalso. apply Hnotin. rewrite <- Hname. now apply in_map.
  - now apply IH.
Qed.

Section IterationOrder.

Context {sorter : Sorter}.
Variable printExpr : ast.Expr -> string.
Variables order1 order2 : MapRange.

Lemma sort_Slice_unique {A} (name : A -> string) (l1 l2 : list A) :
  Permutation l1 l2 -> NoDup (map name l1) ->
  sort_Slice (byName name) l1 = sort_Slice (byName name) l2.
Proof.
  intros Hperm Hnodup. apply (sortedBy_unique name).
  - apply sort_Slice_sortedBy.
  - apply sort_Slice_sortedBy.
  - rewrite !sort_Slice_perm. exact Hperm.
  - assert (Hnames : Permutation (map name (sort_Slice (byName name) l1)) (map name l1))
      by apply Permutation_map, sort_Slice_perm.
    rewrite Hnames. exact Hnodup.
Qed.

Lemma sort_Strings_unique (l1 l2 : list string) :
  Permutation l1 l2 -> sort_Strings l1 = sort_Strings l2.
Proof.
  intros Hperm.
  assert (Htrans : Transitive str_le) by (intros a b c; apply str_le_trans).
  assert (Hanti : AntiSymm eq str_le) by (intros a b; apply String.leb_antisym).
  apply (Sorted_unique str_le).
  - apply (sort_Strings_sorted l1).
  - apply (sort_Strings_sorted l2).
  - unfold sort_Strings. rewrite !sort_Slice_perm. exact Hperm.
Qed.

(** The methods that pass 2 gives the type of a name. *)
Definition methodsNamed (n : string) (funcs : list ast.FuncDecl) : list Function :=
  flat_map (fun fn =>
    if decide (recvBase fn <> "" /\ recvBase fn = n)
    then [boundFunction printExpr fn] else []) funcs.

Definition withMethods (funcs : list ast.FuncDecl) (t : Type_) : Type_ :=
  Type_setMethods t (Type_Methods t ++ methodsNamed (Type_Name t) funcs).

(** The names compared by the sorts of a package are pairwise distinct:
    the type names, the names of the free functions, and for each type
    the names of its methods. *)
Definition distinctNames (files : list (Path * ast.File)) : Prop :=
  let types := declaredTypes printExpr files in
  let funcs := funcDecls files in
  NoDup (map Type_Name types) /\
  NoDup (map Function_Name (freeFunctions printExpr (map Type_Name types) funcs)) /\
  Forall (fun t => NoDup (map Function_Name (Type_Methods (withMethods funcs t)))) types.

Lemma lastIndex_NoDup (names : list string) (i : nat) (n : string) :
  NoDup names -> names !! i = Some n -> lastIndex n names = Some i.
Proof.
  intros Hnodup Hi. destruct (lastIndex n names) as [j|] eqn:Elast.
  - f_equal. apply lastIndex_Some in Elast.
    exact (NoDup_lookup names j i n Hnodup Elast Hi).
  - exfalso. apply lastIndex_None in Elast. apply Elast.
    apply list_elem_of_In, list_elem_of_lookup. now exists i.
Qed.

Lemma methodsBoundTo_named (names : list string) (i : nat) (n : string)
    (funcs : list ast.FuncDecl) :
  NoDup names -> names !! i = Some n ->
  methodsBoundTo printExpr names i funcs = methodsNamed n funcs.
Proof.
  intros Hnodup Hi. unfold methodsBoundTo, methodsNamed.
  induction funcs as [|fn funcs IH]; [reflexivity|]. cbn [flat_map]. rewrite IH. f_equal.
  destruct (decide (methodTarget names fn = Some i)) as [Ht|Ht];
    destruct (decide (recvBase fn <> "" /\ recvBase fn = n)) as [Hn|Hn]; try reflexivity.
  - exfalso. apply Hn. destruct (methodTarget_Some names fn i Ht) as (Hne & Hlook & _).
    split; [exact Hne|]. congruence.
  - exfalso. apply Ht. destruct Hn as [Hne <-]. unfold methodTarget.
    destruct (String.eqb_spec (recvBase fn) "") as [E|_]; [contradiction|].
    now apply lastIndex_NoDup.
Qed.

Lemma extractDecls_named (order : MapRange) (pkgModel : Package) (pkg : ast_Package) :
  Package_Types pkgModel = [] ->
  let typeFiles := @range order _ _ _ _ rangeTypes (ast_Package_Files pkg) in
  let funcFiles := @range order _ _ _ _ rangeFuncs (ast_Package_Files pkg) in
  NoDup (map Type_Name (declaredTypes printExpr typeFiles)) ->
  Package_Types (@extractDecls order printExpr pkgModel pkg) =
    map (withMethods (funcDecls funcFiles)) (declaredTypes printExpr typeFiles).
Proof.
  intros Hnil typeFiles funcFiles Hnodup.
  destruct (@extractDecls_spec order printExpr pkgModel pkg Hnil) as (_ & _ & _ & _ & _ & Hty).
  fold typeFiles funcFiles in Hty. rewrite Hty. apply list_eq. intros i.
  rewrite list_lookup_imap, list_lookup_fmap.
  destruct (declaredTypes printExpr typeFiles !! i) as [t|] eqn:Et; [|reflexivity].
  cbn [fmap option_fmap option_map]. f_equal. unfold withMethods. f_equal. f_equal.
  apply methodsBoundTo_named; [exact Hnodup|].
  rewrite list_lookup_fmap, Et. reflexivity.
Qed.

Lemma range_Permutation {A} (order order' : MapRange) (site site' : RangeSite)
    (m : gmap Path A) :
  Permutation (@range order _ _ _ _ site m) (@range order' _ _ _ _ site' m).
Proof.
  unfold range. rewrite (@rangeOrder_perm order), (@rangeOrder_perm order'). reflexivity.
Qed.

Lemma freeFunctions_Permutation (names1 names2 : list string)
    (funcs1 funcs2 : list ast.FuncDecl) :
  Permutation names1 names2 -> Permutation funcs1 funcs2 ->
  Permutation (freeFunctions printExpr names1 funcs1)
              (freeFunctions printExpr names2 funcs2).
Proof.
  intros Hnames Hfuncs. unfold freeFunctions.
  rewrite Hfuncs. clear Hfuncs funcs1.
  induction funcs2 as [|fn funcs IH]; [reflexivity|]. cbn [flat_map].
  apply Permutation_app; [|exact IH].
  destruct (methodTarget names1 fn) as [i|] eqn:E1;
    destruct (methodTarget names2 fn) as [j|] eqn:E2; try reflexivity; exfalso.
  - apply methodTarget_None in E2. destruct (methodTarget_Some names1 fn i E1) as (Hne & Hi & _).
    destruct E2 as [E2|E2]; [contradiction|]. apply E2.
    eapply Permutation_in; [exact Hnames|].
    apply list_elem_of_In, list_elem_of_lookup. now exists i.
  - apply methodTarget_None in E1. destruct (methodTarget_Some names2 fn j E2) as (Hne & Hj & _).
    destruct E1 as [E1|E1]; [contradiction|]. apply E1.
    eapply Permutation_in; [symmetry; exact Hnames|].
    apply list_elem_of_In, list_elem_of_lookup. now exists j.
Qed.

Lemma sortType_withMethods (funcs1 funcs2 : list ast.FuncDecl) (t : Type_) :
  Permutation funcs1 funcs2 ->
  NoDup (map Function_Name (Type_Methods (withMethods funcs1 t))) ->
  sortType (withMethods funcs1 t) = sortType (withMethods funcs2 t).
Proof.
  intros Hperm Hnodup. unfold sortType, withMethods in *.
  cbn [Type_setMethods Type_Name Type_Kind Type_Exported Type_Doc Type_TypeParams
       Type_Fields Type_Embedded Type_Methods] in *.
  f_equal. apply sort_Slice_unique; [|exact Hnodup].
  apply Permutation_app_head. unfold methodsNamed. now rewrite Hperm.
Qed.

Lemma methodsNamed_Permutation (n : string) (funcs1 funcs2 : list ast.FuncDecl) :
  Permutation funcs1 funcs2 ->
  Permutation (methodsNamed n funcs1) (methodsNamed n funcs2).
Proof. intros Hperm. unfold methodsNamed. now rewrite Hperm. Qed.

(** Under distinct names the package of a directory does not depend on
    the orders in which its files are met. *)
Theorem distinct_names_fix_the_package (dir relBase : Path) (pkgName : string)
    (pkg : ast_Package) (modl : option Module_) :
  distinctNames (@range order1 _ _ _ _ rangeTypes (ast_Package_Files pkg)) ->
  @packageOf sorter order1 printExpr dir relBase pkgName pkg modl =
  @packageOf sorter order2 printExpr dir relBase pkgName pkg modl.
Proof.
  intros (Htypes & Hfree & Hmethods).
  set (types1 := @range order1 _ _ _ _ rangeTypes (ast_Package_Files pkg)) in *.
  set (funcs1 := @range order1 _ _ _ _ rangeFuncs (ast_Package_Files pkg)).
  set (types2 := @range order2 _ _ _ _ rangeTypes (ast_Package_Files pkg)).
  set (funcs2 := @range order2 _ _ _ _ rangeFuncs (ast_Package_Files pkg)).
  assert (Hdecl : Permutation (declaredTypes printExpr types1) (declaredTypes printExpr types2)).
  { assert (Hp : Permutation types1 types2) by apply range_Permutation.
    unfold declaredTypes. now rewrite Hp. }
  assert (Hfuncs0 : Permutation (funcDecls types1) (funcDecls funcs1)).
  { assert (Hp : Permutation types1 funcs1) by apply range_Permutation.
    unfold funcDecls. now rewrite Hp. }
  assert (Hfuncs : Permutation (funcDecls funcs1) (funcDecls funcs2)).
  { assert (Hp : Permutation funcs1 funcs2) by apply range_Permutation.
    unfold funcDecls. now rewrite Hp. }
  assert (Htypes2 : NoDup (map Type_Name (declaredTypes printExpr types2))).
  { assert (Hnames : Permutation (map Type_Name (declaredTypes printExpr types2))
                                 (map Type_Name (declaredTypes printExpr types1)))
      by (apply Permutation_map; now symmetry).
    rewrite Hnames. exact Htypes. }
  assert (Hfree1 : NoDup (map Function_Name
                            (freeFunctions printExpr
                               (map Type_Name (declaredTypes printExpr types1))
                               (funcDecls funcs1)))).
  { assert (Hp : Permutation
                   (map Function_Name
                      (freeFunctions printExpr
                         (map Type_Name (declaredTypes printExpr types1))
                         (funcDecls funcs1)))
                   (map Function_Name
                      (freeFunctions printExpr
                         (map Type_Name (declaredTypes printExpr types1))
                         (funcDecls types1)))).
    { apply Permutation_map, freeFunctions_Permutation; [reflexivity|now symmetry]. }
    rewrite Hp. exact Hfree. }
  assert (Hmethods1 : Forall (fun t => NoDup (map Function_Name
                                (Type_Methods (withMethods (funcDecls funcs1) t))))
                        (declaredTypes printExpr types1)).
  { eapply Forall_impl; [exact Hmethods|]. intros t Ht.
    unfold withMethods in *. cbn [Type_setMethods Type_Methods Type_Name] in *.
    assert (Hp : Permutation
                   (map Function_Name
                      (Type_Methods t ++ methodsNamed (Type_Name t) (funcDecls funcs1)))
                   (map Function_Name
                      (Type_Methods t ++ methodsNamed (Type_Name t) (funcDecls types1)))).
    { apply Permutation_map, Permutation_app_head, methodsNamed_Permutation.
      now symmetry. }
    rewrite Hp. exact Ht. }
  unfold packageOf, sortPackage.
  set (pkg1 := mkPackage pkgName (importPathFor modl dir) (toRelPath relBase dir)
                 (@packageFiles sorter order1 relBase dir pkg) [] []).
  set (pkg2 := mkPackage pkgName (importPathFor modl dir) (toRelPath relBase dir)
                 (@packageFiles sorter order2 relBase dir pkg) [] []).
  destruct (@extractDecls_spec order1 printExpr pkg1 pkg eq_refl)
    as (Hn1 & Hi1 & Hd1 & Hf1 & Hfn1 & _).
  destruct (@extractDecls_spec order2 printExpr pkg2 pkg eq_refl)
    as (Hn2 & Hi2 & Hd2 & Hf2 & Hfn2 & _).
  rewrite Hn1, Hi1, Hd1, Hf1, Hfn1, Hn2, Hi2, Hd2, Hf2, Hfn2.
  rewrite (extractDecls_named order1 pkg1 pkg eq_refl Htypes).
  rewrite (extractDecls_named order2 pkg2 pkg eq_refl Htypes2).
  fold types1 funcs1 types2 funcs2.
  cbn [pkg1 pkg2 Package_Name Package_ImportPath Package_Dir
       Package_Files Package_Functions app].
  f_equal.
  - unfold packageFiles.
    rewrite (sort_Strings_unique _ _
               (Permutation_map _ (range_Permutation order1 order2 rangeFiles rangeFiles
                                     (ast_Package_Files pkg)))).
    reflexivity.
  - apply (sortedBy_unique Type_Name).
    + eapply Sorted_map; [|apply (sort_Slice_sortedBy Type_Name)]. intros a b Hab. exact Hab.
    + eapply Sorted_map; [|apply (sort_Slice_sortedBy Type_Name)]. intros a b Hab. exact Hab.
    + rewrite !sort_Slice_perm, !map_map.
      rewrite <- Hdecl. apply Permutation_refl'. apply map_ext_in. intros t Ht.
      apply sortType_withMethods; [exact Hfuncs|].
      eapply List.Forall_forall in Hmethods1; [exact Hmethods1|exact Ht].
    + rewrite map_map.
      assert (Hnames :
                Permutation
                  (map (fun t => Type_Name (sortType t))
                     (sort_Slice (byName Type_Name)
                        (map (withMethods (funcDecls funcs1))
                           (declaredTypes printExpr types1))))
                  (map Type_Name (declaredTypes printExpr types1))).
      { etransitivity; [apply Permutation_map, sort_Slice_perm|].
        rewrite map_map. reflexivity. }
      rewrite Hnames. exact Htypes.
  - apply sort_Slice_unique; [|exact Hfree1].
    apply freeFunctions_Permutation; [now apply Permutation_map|exact Hfuncs].
Qed.

End IterationOrder.

(** * Concrete runs *)

Definition defaultOptions : Options := mkOptions false false [] "".

Definition plainFile (lines : list string) (f : ast.File) : Node :=
  FileNode (Scanned lines false) (Parsed f).

Definition textFile (lines : list string) : Node :=
  FileNode (Scanned lines false) (ParseError false "not a source file").

(** [type Box struct { Value int }] and
    [func (b *Box) Double() int]. *)
Definition boxFile : ast.File :=
  ast.mkFile "sample"
    [ ast.DeclGen (ast.mkGenDecl None ast.TYPE
        [ast.SpecType
           (ast.mkTypeSpec None "Box" None ast.NoPos
              (ast.StructType
                 (Some [ast.mkField None ["Value"] (Some (ast.Ident "int")) None None]))
              None)]);
      ast.DeclFunc (ast.mkFuncDecl None
        (Some [ast.mkField None ["b"] (Some (ast.StarExpr (ast.Ident "Box"))) None None])
        "Double" None (Some [])
        (Some [ast.mkField None [] (Some (ast.Ident "int")) None None])) ].

(** A module at [/root] with a package in [/root/sub], vendored copies
    and a directory without source files. *)
Definition sampleTree : Node :=
  DirNode
    [("root",
      DirNode
        [("docs", DirNode [("README.md", textFile ["# sample"])]);
         ("go.mod", textFile ["module example.com/m"; ""; "go 1.21"]);
         ("sub", DirNode [("box.go", plainFile ["package sample"] boxFile)]);
         ("vendor",
          DirNode
            [("box.go", plainFile ["package sample"] boxFile);
             ("dep", DirNode [("box.go", plainFile ["package sample"] boxFile)])])])].

Definition GenerateSample (root : Path) : error + Model :=
  @Generate insertionSorter rangeForward printSimple 0%Z sampleTree root defaultOptions.

Definition modelOf (r : error + Model) : Model :=
  match r with
  | inr m => m
  | inl _ => mkModel 0%Z [] None []
  end.

(** The end-to-end scenario of the spec. *)
Example sample_run :
  GenerateSample ["root"] =
    inr (mkModel 0%Z ["root"] (Some (mkModule "example.com/m" ["root"]))
           [mkPackage "sample" "example.com/m/sub" "sub" ["sub/root/sub/box.go"]
              [mkType "Box" TypeKindStruct true "" []
                 [mkField "Value" "int" "" false true] []
                 [mkFunction "Double" true "" "*Box" [] []
                    [mkParam "" "int"] false]]
              []]).
Proof. vm_compute. reflexivity. Qed.

(** ** A module with several packages

    White space and line ends for the comments. *)
Definition nl : string := utf8.EncodeRune 10.
Definition nbsp : string := utf8.EncodeRune 160.
Definition emsp : string := utf8.EncodeRune 8195.

Definition comment (text : string) : option ast.CommentGroup :=
  Some (ast.mkCommentGroup text).

Definition member (names : list string) (typ : ast.Expr) : ast.Field :=
  ast.mkField None names (Some typ) None None.

Definition typeDecl (doc : option ast.CommentGroup) (name : string) (typ : ast.Expr)
  : ast.Decl :=
  ast.DeclGen (ast.mkGenDecl doc ast.TYPE
                 [ast.SpecType (ast.mkTypeSpec None name None ast.NoPos typ None)]).

Definition funcDecl (doc : option ast.CommentGroup) (recv : ast.FieldList) (name : string)
  : ast.Decl :=
  ast.DeclFunc (ast.mkFuncDecl doc recv name None (Some []) None).

(** [zoo.go]: a struct with named and embedded members, an interface
    with methods and an embedded interface, two methods and a function,
    none of the lists in the order of the names. *)
Definition zooFile : ast.File :=
  ast.mkFile "zoo"
    [ typeDecl (comment (nbsp ++ "Zebra is striped." ++ nl)) "Zebra"
        (ast.StructType
           (Some [member ["Stripes"; "Age"] (ast.Ident "int");
                  member [] (ast.SelectorExpr (ast.Ident "io") "Reader");
                  member [] (ast.Ident "Animal");
                  member ["name"] (ast.Ident "string")]));
      typeDecl None "Animal"
        (ast.InterfaceType
           (Some [ast.mkField (comment ("Sound is heard." ++ emsp ++ nl)) ["Sound"]
                    (Some (ast.FuncType None (Some [])
                             (Some [member [] (ast.Ident "string")]))) None None;
                  member ["Move"] (ast.FuncType None (Some []) None);
                  member [] (ast.SelectorExpr (ast.Ident "fmt") "Stringer")]));
      funcDecl (comment ("Run runs." ++ nl))
        (Some [member ["z"] (ast.StarExpr (ast.Ident "Zebra"))]) "Run";
      funcDecl None (Some [member ["z"] (ast.Ident "Zebra")]) "Eat";
      funcDecl None None "main" ].

(** [alpha.go], of the same package. *)
Definition alphaFile : ast.File :=
  ast.mkFile "zoo"
    [ funcDecl (comment ("  Helper helps." ++ nl ++ nl)) None "Helper";
      typeDecl None "Ant" (ast.StructType (Some []));
      funcDecl None (Some [member ["a"] (ast.Ident "Ant")]) "Dig" ].

Definition oneFunc (pkg name : string) : ast.File :=
  ast.mkFile pkg [funcDecl None None name].

(** The module [example.com/ws] at [/ws], with packages in [/ws],
    [/ws/a], [/ws/a/b] and [/ws/a-b]; a walk meets the directories in
    this order. *)
Definition zooTree : Node :=
  DirNode
    [("ws",
      DirNode
        [("a",
          DirNode
            [("b", DirNode [("y.go", plainFile ["package b"] (oneFunc "b" "Y"))]);
             ("x.go", plainFile ["package a"] (oneFunc "a" "X"))]);
         ("a-b", DirNode [("w.go", plainFile ["package ab"] (oneFunc "ab" "W"))]);
         ("alpha.go", plainFile ["package zoo"] alphaFile);
         ("go.mod", textFile ["module example.com/ws"]);
         ("zoo.go", plainFile ["package zoo"] zooFile)])].

Definition GenerateZoo : error + Model :=
  @Generate insertionSorter rangeMixed printSimple 0%Z zooTree ["ws"] defaultOptions.

(** The package of [/ws] and its type [Zebra] in the model. *)
Definition zooPackage : Package :=
  List.hd (mkPackage "" "" "" [] [] []) (Model_Packages (modelOf GenerateZoo)).

Definition zebraType : Type_ :=
  List.last (Package_Types zooPackage) (mkType "" TypeKindOther false "" [] [] [] []).

(** What the extraction of [/ws] gives before the lists are sorted:
    pass 1 meets [zoo.go] first, pass 2 [alpha.go]. *)
Example zoo_before_sorting :
  let out :=
    @extractDecls rangeMixed printSimple (mkPackage "zoo" "" "." [] [] [])
      (mkAstPackage "zoo"
         {[ ["ws"; "alpha.go"] := alphaFile; ["ws"; "zoo.go"] := zooFile ]}) in
  map (fun t => (Type_Name t, map Field_Name (Type_Fields t), Type_Embedded t,
                 map Function_Name (Type_Methods t)))
      (Package_Types out)
    = [("Zebra", ["Stripes"; "Age"; "name"], ["io.Reader"; "Animal"], ["Run"; "Eat"]);
       ("Animal", [], ["fmt.Stringer"], ["Sound"; "Move"]);
       ("Ant", [], [], ["Dig"])] /\
  map Function_Name (Package_Functions out) = ["Helper"; "main"].
Proof. vm_compute. split; reflexivity. Qed.

(** The same package in the model, and the packages of the model: the
    walk meets [/ws/a/b] before [/ws/a-b], the model lists them by
    import path. *)
Example zoo_run :
  map (fun pk => (Package_ImportPath pk, Package_Dir pk, Package_Name pk))
      (Model_Packages (modelOf GenerateZoo))
    = [("example.com/ws", ".", "zoo"); ("example.com/ws/a", "a", "a");
       ("example.com/ws/a-b", "a-b", "ab"); ("example.com/ws/a/b", "a/b", "b")] /\
  Package_Files zooPackage = ["ws/alpha.go"; "ws/zoo.go"] /\
  map (fun t => (Type_Name t, map Field_Name (Type_Fields t), Type_Embedded t,
                 map Function_Name (Type_Methods t)))
      (Package_Types zooPackage)
    = [("Animal", [], ["fmt.Stringer"], ["Move"; "Sound"]);
       ("Ant", [], [], ["Dig"]);
       ("Zebra", ["Age"; "Stripes"; "name"], ["Animal"; "io.Reader"], ["Eat"; "Run"])] /\
  map Function_Name (Package_Functions zooPackage) = ["Helper"; "main"].
Proof. vm_compute. repeat split; reflexivity. Qed.

Lemma model_in_canonical_order_witness :
  GenerateZoo = inr (modelOf GenerateZoo) /\
  length (Model_Packages (modelOf GenerateZoo)) = 4%nat /\
  Forall canonicalPackage (Model_Packages (modelOf GenerateZoo)) /\
  Sorted packageLe (Model_Packages (modelOf GenerateZoo)).
Proof.
  assert (Hrun : GenerateZoo = inr (modelOf GenerateZoo)) by (vm_compute; reflexivity).
  split; [exact Hrun|]. split; [vm_compute; reflexivity|].
  exact (@model_in_canonical_order insertionSorter rangeMixed printSimple 0%Z
           zooTree ["ws"] defaultOptions _ Hrun).
Defined.

Lemma fields_are_named_members_witness :
  treeOK zooTree = true /\
  GenerateZoo = inr (modelOf GenerateZoo) /\
  (In zooPackage (Model_Packages (modelOf GenerateZoo)) /\
   In zebraType (Package_Types zooPackage) /\
   Type_Name zebraType = "Zebra" /\
   map Field_Name (Type_Fields zebraType) = ["Age"; "Stripes"; "name"] /\
   Type_Embedded zebraType = ["Animal"; "io.Reader"]) /\
  (exists dir onlyFile pkgName pkg types0,
     fst (ParseDir zooTree dir
            (fileFilter zooTree dir onlyFile (withDefaults defaultOptions))) !! pkgName
       = Some pkg /\
     Permutation (Package_Types zooPackage) types0 /\
     Forall2 (@recordsMembers printSimple) types0
       (typeSpecs (@range rangeMixed _ _ _ _ rangeTypes (ast_Package_Files pkg)))) /\
  (forall f, In f (Type_Fields zebraType) ->
     Field_Name f <> "" /\ Field_Embedded f = false).
Proof.
  assert (Hok : treeOK zooTree = true) by (vm_compute; reflexivity).
  assert (Hrun : GenerateZoo = inr (modelOf GenerateZoo)) by (vm_compute; reflexivity).
  assert (Hpk : In zooPackage (Model_Packages (modelOf GenerateZoo)))
    by (vm_compute; left; reflexivity).
  assert (Ht : In zebraType (Package_Types zooPackage))
    by (vm_compute; right; right; left; reflexivity).
  destruct (@fields_are_named_members insertionSorter rangeMixed printSimple
              0%Z zooTree ["ws"] defaultOptions _ Hok Hrun) as (_ & _ & Hrecords & Hfields).
  split; [exact Hok|]. split; [exact Hrun|]. split.
  - split; [exact Hpk|]. split; [exact Ht|]. vm_compute. repeat split; reflexivity.
  - split; [exact (Hrecords zooPackage Hpk)|].
    intros f Hf. exact (Hfields zooPackage zebraType f Hpk Ht Hf).
Defined.

(** The files of the package in [/root/sub], as [parser.ParseDir] gives
    them. *)
Definition samplePackage : ast_Package :=
  mkAstPackage "sample" {[ ["root"; "sub"; "box.go"] := boxFile ]}.

Definition sampleExtract : (error + Package) * moduleLocator :=
  @extractPackage insertionSorter rangeForward printSimple sampleTree newModuleLocator
    ["root"; "sub"] "sample" samplePackage ["root"].

Definition packageOfResult (r : error + Package) : Package :=
  match r with
  | inr pk => pk
  | inl _ => mkPackage "" "" "" [] [] []
  end.

(** The module resolution example of the spec: the package analysed at
    [/root/sub] under the module [example.com/m] declared in [/root]. *)
Lemma import_path_of_package_witness :
  cacheOK sampleTree newModuleLocator /\
  ~ In "." ["root"; "sub"] /\
  importPathSpec sampleTree ["root"; "sub"]
    (Package_ImportPath
       (@sortPackage insertionSorter (packageOfResult (fst sampleExtract)))) /\
  Package_ImportPath (@sortPackage insertionSorter (packageOfResult (fst sampleExtract)))
    = "example.com/m/sub".
Proof.
  assert (Hdot : ~ In "." ["root"; "sub"]).
  { intros [E|[E|[]]]; discriminate. }
  assert (Hrun : sampleExtract = (inr (packageOfResult (fst sampleExtract)), snd sampleExtract))
    by (vm_compute; reflexivity).
  split; [apply cacheOK_empty|]. split; [exact Hdot|]. split.
  - exact (@import_path_of_package insertionSorter rangeForward printSimple sampleTree
             newModuleLocator (snd sampleExtract) ["root"; "sub"] ["root"] "sample"
             samplePackage _ (cacheOK_empty sampleTree) Hdot Hrun).
  - vm_compute. reflexivity.
Defined.

(** A module at [/a] and, nearer to [/a/b/c], a module declaration
    file without module line at [/a/b]; and a tree without any module
    declaration file. *)
Definition brokenModules : Node :=
  DirNode
    [("a",
      DirNode
        [("b", DirNode [("c", DirNode []); ("go.mod", textFile ["go 1.21"])]);
         ("go.mod", textFile ["module example.com/a"])])].

(** The cache that a lookup of [/a] leaves. *)
Definition warmCache : moduleLocator :=
  snd (moduleForDir brokenModules newModuleLocator ["a"]).

Definition bareTree : Node := DirNode [("x", DirNode [("y", DirNode [])])].

Lemma module_lookup_fails_at_nearest_witness :
  (cacheOK brokenModules warmCache /\
   warmCache !! ["a"] = Some (Some (mkModule "example.com/a" ["a"])) /\
   nearestGoMod brokenModules ["a"; "b"; "c"] = Some ["a"; "b"] /\
   goModBad brokenModules ["a"; "b"] /\
   (exists err, fst (moduleForDir brokenModules warmCache ["a"; "b"; "c"]) = inl err) /\
   fst (moduleForDir brokenModules warmCache ["a"; "b"; "c"])
     = inl (errNoModulePath ["a"; "b"; "go.mod"])) /\
  (cacheOK bareTree newModuleLocator /\
   (forall d, In d (chain ["x"; "y"]) -> hasGoMod bareTree d = false) /\
   fst (moduleForDir bareTree newModuleLocator ["x"; "y"]) = inr None).
Proof.
  assert (Hwarm : cacheOK brokenModules warmCache)
    by apply (moduleForDir_locate brokenModules newModuleLocator ["a"]
                (cacheOK_empty brokenModules)).
  assert (Hnearest : nearestGoMod brokenModules ["a"; "b"; "c"] = Some ["a"; "b"])
    by (vm_compute; reflexivity).
  assert (Hbad : goModBad brokenModules ["a"; "b"]) by (vm_compute; reflexivity).
  assert (Hnone : forall d, In d (chain ["x"; "y"]) -> hasGoMod bareTree d = false).
  { intros d Hin. vm_compute in Hin.
    destruct Hin as [<-|[<-|[<-|[]]]]; vm_compute; reflexivity. }
  split.
  - split; [exact Hwarm|]. split; [vm_compute; reflexivity|].
    split; [exact Hnearest|]. split; [exact Hbad|]. split; [|vm_compute; reflexivity].
    apply (proj1 (module_lookup_fails_at_nearest brokenModules warmCache ["a"; "b"; "c"]
                    Hwarm)).
    exists ["a"; "b"]. split; [exact Hnearest|exact Hbad].
  - split; [apply cacheOK_empty|]. split; [exact Hnone|].
    exact (proj2 (module_lookup_fails_at_nearest bareTree newModuleLocator ["x"; "y"]
                    (cacheOK_empty bareTree)) Hnone).
Defined.

(** A directory with a generated file, a file whose header comes after
    twenty other lines, a file that cannot be opened and a file whose
    reading fails after its first line. *)
Definition generatedHeaderLine : string := "// Code generated by stringer. DO NOT EDIT.".

Definition generatedTree : Node :=
  DirNode
    [("g",
      DirNode
        [("gen.go",
          plainFile [generatedHeaderLine; "package g"] (ast.mkFile "g" []));
         ("late.go",
          plainFile (repeat "//" 20 ++ [generatedHeaderLine; "package g"])
            (ast.mkFile "g" []));
         ("locked.go", FileNode OpenError (ParseError false "permission denied"));
         ("torn.go", FileNode (Scanned ["package g"] true) (Parsed (ast.mkFile "g" [])))])].

Lemma generated_file_suppressed_witness :
  IncludeGenerated defaultOptions = false /\
  (candidate "" defaultOptions "gen.go" /\
   fileFilter generatedTree ["g"] "" defaultOptions "gen.go" = false) /\
  (candidate "" defaultOptions "late.go" /\
   fileFilter generatedTree ["g"] "" defaultOptions "late.go" = true) /\
  (candidate "" defaultOptions "locked.go" /\
   fs_read generatedTree ["g"; "locked.go"] = OpenError /\
   fileFilter generatedTree ["g"] "" defaultOptions "locked.go" = true) /\
  (candidate "" defaultOptions "torn.go" /\
   fs_read generatedTree ["g"; "torn.go"] = Scanned ["package g"] true /\
   fileFilter generatedTree ["g"] "" defaultOptions "torn.go" = true).
Proof.
  assert (Hcand : forall name, strings.HasSuffix name ".go" = true ->
                               strings.HasSuffix name "_test.go" = false ->
                               candidate "" defaultOptions name).
  { intros name Hgo Htest. split; [exact Hgo|]. split; [now left|now right]. }
  assert (Hgen : candidate "" defaultOptions "gen.go") by now apply Hcand.
  assert (Hlate : candidate "" defaultOptions "late.go") by now apply Hcand.
  assert (Hlocked : candidate "" defaultOptions "locked.go") by now apply Hcand.
  assert (Htorn : candidate "" defaultOptions "torn.go") by now apply Hcand.
  split; [reflexivity|]. split; [|split; [|split]].
  - split; [exact Hgen|].
    apply (proj1 (generated_file_suppressed generatedTree ["g"] "" defaultOptions
                    "gen.go" Hgen eq_refl)).
    exists [generatedHeaderLine; "package g"], false, generatedHeaderLine.
    split; [vm_compute; reflexivity|]. split; [now left|].
    split; vm_compute; reflexivity.
  - split; [exact Hlate|].
    destruct (generated_file_suppressed generatedTree ["g"] "" defaultOptions
                "late.go" Hlate eq_refl) as (Hiff & _ & _).
    destruct (fileFilter generatedTree ["g"] "" defaultOptions "late.go") eqn:E;
      [reflexivity|].
    destruct (proj1 Hiff eq_refl) as (lines & failed & line & Hread & Hin & Hd & _).
    vm_compute in Hread. injection Hread as <- <-. exfalso.
    cbn [take repeat app] in Hin.
    repeat (destruct Hin as [<-|Hin]; [vm_compute in Hd; discriminate Hd|]).
    exact Hin.
  - split; [exact Hlocked|].
    assert (Hread : fs_read generatedTree ["g"; "locked.go"] = OpenError)
      by (vm_compute; reflexivity).
    split; [exact Hread|].
    exact (proj1 (proj2 (generated_file_suppressed generatedTree ["g"] "" defaultOptions
                           "locked.go" Hlocked eq_refl)) Hread).
  - split; [exact Htorn|].
    assert (Hread : fs_read generatedTree ["g"; "torn.go"] = Scanned ["package g"] true)
      by (vm_compute; reflexivity).
    split; [exact Hread|].
    exact (proj2 (proj2 (generated_file_suppressed generatedTree ["g"] "" defaultOptions
                           "torn.go" Htorn eq_refl)) ["package g"] Hread eq_refl).
Defined.

Lemma excluded_subtrees_contribute_nothing_witness :
  "vendor" ∈ excludedNames defaultOptions /\
  map Package_Dir (Model_Packages (modelOf (GenerateSample ["root"]))) = ["sub"] /\
  forall pk, In pk (Model_Packages (modelOf (GenerateSample ["root"]))) ->
    exists rel,
      Forall (fun n => n ∉ excludedNames defaultOptions) ("root" :: rel) /\
      @extractedAt insertionSorter rangeForward printSimple sampleTree (["root"] ++ rel) ""
        ["root"] (withDefaults defaultOptions) pk.
Proof.
  assert (Hrun : GenerateSample ["root"] = inr (modelOf (GenerateSample ["root"])))
    by (vm_compute; reflexivity).
  split; [apply (bool_decide_unpack _); vm_compute; exact I|].
  split; [vm_compute; reflexivity|].
  exact (proj1 (proj2 (@excluded_subtrees_contribute_nothing insertionSorter rangeForward
                         printSimple 0%Z sampleTree ["root"] defaultOptions)
                 _ _ eq_refl Hrun)).
Defined.

Lemma directory_without_sources_skipped_witness :
  ("docs" ∉ excludedNames defaultOptions) /\
  noMatchingFiles sampleTree ["root"; "docs"] "" (withDefaults defaultOptions) /\
  (forall st,
     @walkFn insertionSorter rangeForward printSimple sampleTree
       (excludedNames defaultOptions) ["root"] (withDefaults defaultOptions)
       ["root"; "docs"] "docs" true st = (walkNil, st)) /\
  GenerateSample ["root"] <> inl errNoGoFiles.
Proof.
  assert (Hname : "docs" ∉ excludedNames defaultOptions).
  { apply (bool_decide_unpack _). vm_compute. exact I. }
  assert (Hnone : noMatchingFiles sampleTree ["root"; "docs"] ""
                    (withDefaults defaultOptions)).
  { eexists. split; [vm_compute; reflexivity|].
    constructor; [vm_compute; reflexivity|constructor]. }
  destruct (@directory_without_sources_skipped insertionSorter rangeForward printSimple
              0%Z sampleTree ["root"] defaultOptions) as (Hskip & Hrun & _).
  split; [exact Hname|]. split; [exact Hnone|]. split.
  - intros st. exact (Hskip ["root"; "docs"] "docs" st Hname Hnone).
  - exact (Hrun _ eq_refl).
Defined.

(** The sample package has distinct names, so both iteration orders give
    the same package. *)
Example sample_package_order_free :
  @packageOf insertionSorter rangeForward printSimple ["root"; "sub"] ["root"] "sample"
    samplePackage (Some (mkModule "example.com/m" ["root"])) =
  @packageOf insertionSorter rangeBackward printSimple ["root"; "sub"] ["root"] "sample"
    samplePackage (Some (mkModule "example.com/m" ["root"])).
Proof.
  apply distinct_names_fix_the_package.
  repeat split; apply (bool_decide_unpack _); vm_compute; exact I.
Qed.

(** ** Where the claims as written fail *)

(** C7 as written: an outer module file without module line does not
    make the lookup fail when a nearer directory declares a module. *)
Definition nestedModules : Node :=
  DirNode
    [("a",
      DirNode
        [("b", DirNode [("go.mod", textFile ["module example.com/b"])]);
         ("go.mod", textFile ["go 1.21"])])].

Lemma outer_module_file_not_consulted :
  (exists d, In d (chain ["a"; "b"]) /\ hasGoMod nestedModules d = true /\
             goModBad nestedModules d) /\
  fst (moduleForDir nestedModules newModuleLocator ["a"; "b"])
    = inr (Some (mkModule "example.com/b" ["a"; "b"])).
Proof.
  split; [|vm_compute; reflexivity].
  exists ["a"]. split; [right; now left|]. split; vm_compute; reflexivity.
Qed.

(** C5 as written: the two phrases on different lines of the header do
    not suppress the file. *)
Definition splitHeader : Node :=
  DirNode
    [("p",
      DirNode
        [("a.pb.go",
          FileNode
            (Scanned ["// Code generated by protoc-gen-go."; "// source: a.proto";
                      "// DO NOT EDIT!"; "package p"] false)
            (Parsed (ast.mkFile "p" [])))])].

Lemma phrases_on_different_lines_keep_file :
  candidate "" defaultOptions "a.pb.go" /\
  IncludeGenerated defaultOptions = false /\
  (exists lines failed l1 l2,
     fs_read splitHeader ["p"; "a.pb.go"] = Scanned lines failed /\
     In l1 (take 20 lines) /\ strings.Contains l1 "Code generated" = true /\
     In l2 (take 20 lines) /\ strings.Contains l2 "DO NOT EDIT" = true) /\
  fileFilter splitHeader ["p"] "" defaultOptions "a.pb.go" = true.
Proof.
  split; [split; [reflexivity|split; [now left|now right]]|].
  split; [reflexivity|]. split; [|vm_compute; reflexivity].
  eexists _, _, "// Code generated by protoc-gen-go.", "// DO NOT EDIT!".
  split; [vm_compute; reflexivity|].
  split; [now left|]. split; [vm_compute; reflexivity|].
  split; [right; right; now left|vm_compute; reflexivity].
Qed.

(** C6 as written: a single test file as root, with tests not included,
    leaves its directory without matching files, and the run fails. *)
Definition testOnly : Node :=
  DirNode [("p", DirNode [("a_test.go", plainFile ["package p"] (ast.mkFile "p" []))])].

Lemma single_file_without_match_fails :
  noMatchingFiles testOnly ["p"] "a_test.go" (withDefaults defaultOptions) /\
  @Generate insertionSorter rangeForward printSimple 0%Z testOnly ["p"; "a_test.go"]
    defaultOptions = inl errNoGoFiles.
Proof.
  split; [|vm_compute; reflexivity].
  eexists. split; [vm_compute; reflexivity|].
  constructor; [vm_compute; reflexivity|constructor].
Qed.

(** C4 as written: a struct type in parentheses, and a type defined as
    a struct type declared elsewhere, have a field-list aggregate as
    underlying type and are declared without the alias sign, and their
    kind is other; their members are not recorded either.
    [type Wrapped (struct{ X int })] and [type Renamed Plain] beside
    [type Plain struct{ X int }]. *)
Definition parenFile : ast.File :=
  ast.mkFile "p"
    [ typeDecl None "Wrapped"
        (ast.ParenExpr (ast.StructType (Some [member ["X"] (ast.Ident "int")])));
      typeDecl None "Plain" (ast.StructType (Some [member ["X"] (ast.Ident "int")]));
      typeDecl None "Renamed" (ast.Ident "Plain") ].

Definition parenTree : Node :=
  DirNode [("p", DirNode [("t.go", plainFile ["package p"] parenFile)])].

Lemma parenthesized_struct_is_other :
  map (fun t => (Type_Name t, Type_Kind t, map Field_Name (Type_Fields t)))
      (flat_map Package_Types
         (Model_Packages
            (modelOf (@Generate insertionSorter rangeForward printSimple 0%Z parenTree
                        ["p"] defaultOptions))))
    = [("Plain", TypeKindStruct, ["X"]); ("Renamed", TypeKindOther, []);
       ("Wrapped", TypeKindOther, [])].
Proof. vm_compute. reflexivity. Qed.

(** C3 as written: a root directory below [vendor], and a root that is a
    single file inside [vendor], each give a package, although the name
    [vendor] is excluded. *)
Lemma roots_inside_excluded_directory :
  "vendor" ∈ excludedNames defaultOptions /\
  (exists m pk,
     GenerateSample ["root"; "vendor"; "dep"] = inr m /\
     In pk (Model_Packages m) /\
     @extractedAt insertionSorter rangeForward printSimple sampleTree
       ["root"; "vendor"; "dep"] "" ["root"; "vendor"; "dep"]
       (withDefaults defaultOptions) pk) /\
  (exists m pk,
     GenerateSample ["root"; "vendor"; "box.go"] = inr m /\
     In pk (Model_Packages m) /\
     @extractedAt insertionSorter rangeForward printSimple sampleTree ["root"; "vendor"]
       "box.go" ["root"; "vendor"] (withDefaults defaultOptions) pk).
Proof.
  split; [|split].
  - apply (bool_decide_unpack _). vm_compute. exact I.
  - exists (modelOf (GenerateSample ["root"; "vendor"; "dep"])).
    eexists. split; [vm_compute; reflexivity|]. split; [vm_compute; left; reflexivity|].
    exists "sample", (mkAstPackage "sample" {[ ["root"; "vendor"; "dep"; "box.go"] := boxFile ]}),
      (Some (mkModule "example.com/m" ["root"])).
    split; [vm_compute; reflexivity|]. split; vm_compute; reflexivity.
  - assert (Hrun : GenerateSample ["root"; "vendor"; "box.go"]
                   = inr (modelOf (GenerateSample ["root"; "vendor"; "box.go"])))
      by (vm_compute; reflexivity).
    destruct (@Generate_packages insertionSorter rangeForward printSimple 0%Z sampleTree
                ["root"; "vendor"; "box.go"] defaultOptions _ Hrun) as [Horigin _].
    exists (modelOf (GenerateSample ["root"; "vendor"; "box.go"])).
    destruct (Model_Packages (modelOf (GenerateSample ["root"; "vendor"; "box.go"])))
      as [|pk pkgs] eqn:Epkgs; [vm_compute in Epkgs; discriminate|].
    exists pk. split; [exact Hrun|]. split; [now left|].
    inversion Horigin as [|pk' pkgs' Hpk _]; subst. exact Hpk.
Qed.

(** Two files of one package that each declare [init], told apart by
    their comments. *)
Definition initFile (doc : string) : ast.File :=
  ast.mkFile "p"
    [ast.DeclFunc
       (ast.mkFuncDecl (Some (ast.mkCommentGroup doc)) None "init" None (Some []) None)].

Definition twoInits : Node :=
  DirNode
    [("p",
      DirNode
        [("a.go", plainFile ["package p"] (initFile "first"));
         ("b.go", plainFile ["package p"] (initFile "second"))])].

(** C9, at the failing input.  The claim is that every order of the
    files gives the same sorted package; with the two files met in one
    order and in the other, the functions of equal name keep the order
    in which they were met, and the two models differ. *)
Theorem equal_names_keep_iteration_order :
  map Function_Doc
    (flat_map Package_Functions
       (Model_Packages
          (modelOf (@Generate insertionSorter rangeForward printSimple 0%Z twoInits ["p"]
                      defaultOptions))))
    = ["second"; "first"] /\
  map Function_Doc
    (flat_map Package_Functions
       (Model_Packages
          (modelOf (@Generate insertionSorter rangeBackward printSimple 0%Z twoInits ["p"]
                      defaultOptions))))
    = ["first"; "second"] /\
  @Generate insertionSorter rangeForward printSimple 0%Z twoInits ["p"] defaultOptions
    <> @Generate insertionSorter rangeBackward printSimple 0%Z twoInits ["p"] defaultOptions.
Proof.
  split; [vm_compute; reflexivity|]. split; [vm_compute; reflexivity|].
  vm_compute. intros E. discriminate E.
Qed.

(** The method binding scenario of the spec: plain, pointer, generic
    and parenthesized receivers on one type, and a receiver whose type
    the package does not declare. *)
Definition method (name : string) (recv : ast.Expr) : ast.Decl :=
  ast.DeclFunc
    (ast.mkFuncDecl None (Some [ast.mkField None ["r"] (Some recv) None None])
       name None (Some []) None).

Definition receiversFile : ast.File :=
  ast.mkFile "p"
    [ ast.DeclGen (ast.mkGenDecl None ast.TYPE
        [ast.SpecType (ast.mkTypeSpec None "Box"
           (Some [ast.mkField None ["K"; "V"] (Some (ast.Ident "any")) None None])
           ast.NoPos (ast.StructType (Some [])) None)]);
      method "Plain" (ast.Ident "Box");
      method "Pointer" (ast.StarExpr (ast.Ident "Box"));
      method "Generic"
        (ast.IndexListExpr (ast.Ident "Box") [ast.Ident "K"; ast.Ident "V"]);
      method "Paren"
        (ast.ParenExpr (ast.StarExpr (ast.IndexExpr (ast.Ident "Box") (ast.Ident "K"))));
      method "Stray" (ast.StarExpr (ast.Ident "Missing")) ].

Example receiver_forms_bind_alike :
  let out :=
    @extractDecls rangeForward printSimple (mkPackage "p" "" "." [] [] [])
      (mkAstPackage "p" {[ ["p"; "r.go"] := receiversFile ]}) in
  map (fun t => (Type_Name t, map Function_Name (Type_Methods t))) (Package_Types out)
    = [("Box", ["Plain"; "Pointer"; "Generic"; "Paren"])] /\
  map (fun f => (Function_Name f, Function_Receiver f)) (Package_Functions out)
    = [("Stray", "*Missing")].
Proof. vm_compute. split; reflexivity. Qed.

(** * Further properties of the code *)

(** ** Command line options ([cmd/umljson], [uml/options.go]) *)

(** [strings.Split s sep] for a separator of one character. *)
Fixpoint strings_Split (s : string) (sep : ascii) : list string :=
  match s with
  | EmptyString => [EmptyString]
  | String c s' =>
      if Ascii.eqb c sep then EmptyString :: strings_Split s' sep
      else
        match strings_Split s' sep with
        | part :: parts => String c part :: parts
        | [] => [String c EmptyString]
        end
  end.

(** [splitCommaList] of the command *)
Definition splitCommaList (value : string) : list string :=
  let parts := strings_Split value ","%char in
  flat_map (fun part =>
              let part := strings.TrimSpace part in
              if String.eqb part "" then [] else [part]) parts.

(** The options [main] builds from its flags. *)
Definition mainOptions (includeTests includeGenerated : bool) (indent exclude : string)
  : Options :=
  let opts := mkOptions includeTests includeGenerated [] indent in
  if negb (String.eqb exclude "")
  then mkOptions (IncludeTests opts) (IncludeGenerated opts) (splitCommaList exclude)
         (Indent opts)
  else opts.

Section GenerateJSON.

Context {sorter : Sorter} {order : MapRange}.
Variable printExpr : ast.Expr -> string.

(** [json.MarshalIndent] on a model, with prefix and indent. *)
Variable json_MarshalIndent : Model -> string -> string -> error + string.

Definition GenerateJSON (now : Z) (fs : Node) (root : Path) (opts : Options)
  : error + string :=
  let opts := withDefaults opts in
  match Generate printExpr now fs root opts with
  | inl err => inl err
  | inr model => json_MarshalIndent model "" (Indent opts)
  end.

End GenerateJSON.

(** *** Strings as sequences *)

Lemma append_nil_r (s : string) : (s ++ "")%string = s.
Proof.
  induction s as [|c s IH]; [reflexivity|].
  change (String c s ++ "")%string with (String c (s ++ "")). now rewrite IH.
Qed.

Lemma append_assoc (a b c : string) : ((a ++ b) ++ c)%string = (a ++ (b ++ c))%string.
Proof.
  induction a as [|x a IH]; [reflexivity|].
  change (String x a ++ b)%string with (String x (a ++ b)).
  change (String x (a ++ b) ++ c)%string with (String x ((a ++ b) ++ c)).
  now rewrite IH.
Qed.

Lemma length_append (a b : string) :
  String.length (a ++ b) = (String.length a + String.length b)%nat.
Proof.
  induction a as [|c a IH]; [reflexivity|].
  change (String c a ++ b)%string with (String c (a ++ b)). simpl. now rewrite IH.
Qed.

Lemma append_empty (a b : string) : (a ++ b)%string = "" -> a = "" /\ b = "".
Proof. destruct a; [now split|discriminate]. Qed.

Lemma substring_all (s : string) : String.substring 0 (String.length s) s = s.
Proof. induction s as [|c s IH]; simpl; [reflexivity|]. now rewrite IH. Qed.

Lemma substring_append_l (a b : string) :
  String.substring 0 (String.length a) (a ++ b) = a.
Proof.
  induction a as [|c a IH]; [now destruct b|].
  change (String c a ++ b)%string with (String c (a ++ b)). simpl. now rewrite IH.
Qed.

Lemma substring_append_r (a b : string) :
  String.substring (String.length a) (String.length b) (a ++ b) = b.
Proof.
  induction a as [|c a IH]; [apply substring_all|].
  change (String c a ++ b)%string with (String c (a ++ b)). simpl. exact IH.
Qed.

Lemma substring_split (k : nat) (s : string) :
  (k <= String.length s)%nat ->
  s = (String.substring 0 k s ++ String.substring k (String.length s - k) s)%string.
Proof.
  revert k; induction s as [|c s IH]; intros [|k] Hk; simpl in *; try lia.
  - reflexivity.
  - now rewrite substring_all.
  - change (String c ?a ++ ?b)%string with (String c (a ++ b)). f_equal.
    apply IH. lia.
Qed.

Lemma prefix_append (p r : string) : String.prefix p (p ++ r) = true.
Proof.
  induction p as [|c p IH]; [now destruct r|].
  change (String c p ++ r)%string with (String c (p ++ r)). simpl.
  destruct (ascii_dec c c); [exact IH|contradiction].
Qed.

Lemma prefix_TrimPrefix (p s : string) :
  String.prefix p s = true -> s = (p ++ strings.TrimPrefix s p)%string.
Proof.
  intros Hp. unfold strings.TrimPrefix. rewrite Hp. revert s Hp.
  induction p as [|a p IH]; intros s Hp.
  - simpl. rewrite Nat.sub_0_r. now rewrite substring_all.
  - destruct s as [|b s]; [discriminate|]. simpl in Hp.
    destruct (ascii_dec a b) as [->|]; [|discriminate].
    cbn [String.length Nat.sub String.substring].
    transitivity (String b (p ++ String.substring (String.length p)
                                   (String.length s - String.length p) s)%string);
      [f_equal; now apply IH|reflexivity].
Qed.

Lemma TrimPrefix_append (p r : string) : strings.TrimPrefix (p ++ r) p = r.
Proof.
  pose proof (prefix_TrimPrefix p (p ++ r) (prefix_append p r)) as E.
  apply String.app_inj in E. now symmetry.
Qed.

Lemma prefix_app (p s u : string) :
  String.prefix p s = true -> String.prefix p (s ++ u) = true.
Proof.
  intros Hp. rewrite (prefix_TrimPrefix p s Hp), append_assoc. apply prefix_append.
Qed.

Lemma HasSuffix_append (p e : string) : strings.HasSuffix (p ++ e) e = true.
Proof.
  unfold strings.HasSuffix. rewrite length_append.
  replace (String.length p + String.length e - String.length e)%nat
    with (String.length p) by lia.
  rewrite substring_append_r, String.eqb_refl.
  apply andb_true_iff. split; [apply Nat.leb_le; lia|reflexivity].
Qed.

Lemma HasSuffix_TrimSuffix (s e : string) :
  strings.HasSuffix s e = true -> s = (strings.TrimSuffix s e ++ e)%string.
Proof.
  intros Hs. unfold strings.TrimSuffix. rewrite Hs. unfold strings.HasSuffix in Hs.
  apply andb_true_iff in Hs as [Hle He]. apply Nat.leb_le in Hle.
  apply String.eqb_eq in He.
  rewrite (substring_split (String.length s - String.length e) s) at 1 by lia.
  f_equal. rewrite <- He at 3. f_equal. lia.
Qed.

Lemma TrimSuffix_append (p e : string) : strings.TrimSuffix (p ++ e) e = p.
Proof.
  unfold strings.TrimSuffix. rewrite HasSuffix_append, length_append.
  replace (String.length p + String.length e - String.length e)%nat
    with (String.length p) by lia.
  apply substring_append_l.
Qed.

Lemma HasSuffix_app (u s e : string) :
  strings.HasSuffix s e = true -> strings.HasSuffix (u ++ s) e = true.
Proof.
  intros Hs. rewrite (HasSuffix_TrimSuffix s e Hs), <- append_assoc.
  apply HasSuffix_append.
Qed.

(** *** White space *)

Lemma spaceRunes_nonempty (e : string) : In e strings.spaceRunes -> e <> "".
Proof.
  intros Hin ->. revert Hin. vm_compute. intuition discriminate.
Qed.

Lemma leadingSpace_Some (s e : string) :
  strings.leadingSpace s = Some e ->
  In e strings.spaceRunes /\ s = (e ++ strings.TrimPrefix s e)%string.
Proof.
  unfold strings.leadingSpace. intros Hfind. apply find_some in Hfind as [Hin Hp].
  split; [exact Hin|]. now apply prefix_TrimPrefix.
Qed.

Lemma trailingSpace_Some (s e : string) :
  strings.trailingSpace s = Some e ->
  In e strings.spaceRunes /\ s = (strings.TrimSuffix s e ++ e)%string.
Proof.
  unfold strings.trailingSpace. intros Hfind. apply find_some in Hfind as [Hin Hs].
  split; [exact Hin|]. now apply HasSuffix_TrimSuffix.
Qed.

Lemma leadingSpace_starts (e r : string) :
  In e strings.spaceRunes -> strings.leadingSpace (e ++ r) <> None.
Proof.
  intros Hin Hnone. unfold strings.leadingSpace in Hnone.
  eapply find_none in Hnone; [|exact Hin].
  unfold strings.HasPrefix in Hnone. now rewrite prefix_append in Hnone.
Qed.

Lemma trailingSpace_ends (p e : string) :
  In e strings.spaceRunes -> strings.trailingSpace (p ++ e) <> None.
Proof.
  intros Hin Hnone. unfold strings.trailingSpace in Hnone.
  eapply find_none in Hnone; [|exact Hin].
  now rewrite HasSuffix_append in Hnone.
Qed.

(** White space at the start of a part is white space at the start of
    the whole, and likewise at the end. *)
Lemma leadingSpace_app (a b : string) :
  strings.leadingSpace (a ++ b) = None -> strings.leadingSpace a = None.
Proof.
  intros Hnone. destruct (strings.leadingSpace a) as [e|] eqn:Ea; [|reflexivity].
  apply leadingSpace_Some in Ea as [Hin Ea]. exfalso.
  rewrite Ea, append_assoc in Hnone. exact (leadingSpace_starts e _ Hin Hnone).
Qed.

Lemma trailingSpace_app (a b : string) :
  strings.trailingSpace (a ++ b) = None -> strings.trailingSpace b = None.
Proof.
  intros Hnone. destruct (strings.trailingSpace b) as [e|] eqn:Eb; [|reflexivity].
  apply trailingSpace_Some in Eb as [Hin Eb]. exfalso.
  rewrite Eb, <- append_assoc in Hnone. exact (trailingSpace_ends _ e Hin Hnone).
Qed.

(** *** White space and rune decoding

    [strings.TrimSpace] decodes the runes at both ends of the string
    and tests them with [unicode.IsSpace]; [leadingSpace] and
    [trailingSpace] compare with the encodings of the white space
    runes.  The two agree on every string of bytes. *)

(** The 256 bytes, for properties of encodings that are settled by
    running through them. *)
Definition allBytes : list ascii := map ascii_of_nat (seq 0 256).

Lemma allBytes_complete (c : ascii) : In c allBytes.
Proof.
  unfold allBytes. rewrite <- (ascii_nat_embedding c). apply in_map, in_seq.
  pose proof (nat_ascii_bounded c). lia.
Qed.

Definition forallByte (p : ascii -> bool) : bool := forallb p allBytes.

Lemma forallByte_spec (p : ascii -> bool) :
  forallByte p = true -> forall c, p c = true.
Proof.
  intros H c. unfold forallByte in H. rewrite forallb_forall in H.
  apply H, allBytes_complete.
Qed.

(** [String.prefix], by recursion on the prefix. *)
Fixpoint startsWith (p s : string) : bool :=
  match p with
  | EmptyString => true
  | String a p' =>
      match s with
      | EmptyString => false
      | String b s' => Ascii.eqb a b && startsWith p' s'
      end
  end.

Lemma startsWith_prefix (p s : string) : String.prefix p s = startsWith p s.
Proof.
  revert s. induction p as [|a p IH]; intros [|b s]; try reflexivity.
  cbn. destruct (ascii_dec a b) as [->|Hne].
  - rewrite Ascii.eqb_refl. apply IH.
  - apply Ascii.eqb_neq in Hne. now rewrite Hne.
Qed.

Definition spaceFirst (s : string) : bool :=
  existsb (fun e => startsWith e s) strings.spaceRunes.

Lemma spaceFirst_leading (s : string) :
  spaceFirst s = true <-> strings.leadingSpace s <> None.
Proof.
  unfold spaceFirst, strings.leadingSpace. rewrite existsb_exists. split.
  - intros (e & Hin & He) Hnone.
    eapply find_none in Hnone; [|exact Hin].
    unfold strings.HasPrefix in Hnone. rewrite startsWith_prefix in Hnone. congruence.
  - destruct (find _ _) as [e|] eqn:E; [|congruence]. intros _.
    apply find_some in E as [Hin He]. exists e. split; [exact Hin|].
    unfold strings.HasPrefix in He. now rewrite startsWith_prefix in He.
Qed.

(** The two tests on the beginning of [s] give the same answer. *)
Definition agree (s : string) : bool :=
  Bool.eqb (unicode.IsSpace (fst (utf8.DecodeRuneInString s))) (spaceFirst s).

(** The byte [c] is between [lo] and [hi]. *)
Definition lead (lo hi : Z) (c : ascii) : bool := utf8.inRange lo hi (utf8.byte c).

Lemma agree_single (s1 : string) :
  forallByte (fun c0 => if lead 194 244 c0 then true else agree (String c0 s1)) = true.
Proof. vm_compute. reflexivity. Qed.

Lemma agree_two (s2 : string) :
  forallByte (fun c0 =>
    if lead 194 223 c0
    then forallByte (fun c1 => agree (String c0 (String c1 s2)))
    else true) = true.
Proof. vm_compute. reflexivity. Qed.

Lemma agree_short1 :
  forallByte (fun c0 => agree (String c0 "")) = true.
Proof. vm_compute. reflexivity. Qed.

Lemma agree_short2 :
  forallByte (fun c0 => forallByte (fun c1 => agree (String c0 (String c1 "")))) = true.
Proof. vm_compute. reflexivity. Qed.

Lemma agree_short3 (c1 c2 : ascii) :
  forallByte (fun c0 =>
    if lead 240 244 c0 then agree (String c0 (String c1 (String c2 ""))) else true) = true.
Proof. vm_compute. reflexivity. Qed.

Lemma agree_three_off (c2 : ascii) (s3 : string) :
  forallByte (fun c0 =>
    if lead 224 239 c0
    then forallByte (fun c1 =>
           if lead 128 191 c1 then true
           else agree (String c0 (String c1 (String c2 s3))))
    else true) = true.
Proof. vm_compute. reflexivity. Qed.

Lemma agree_three (s3 : string) :
  forallByte (fun c0 =>
    if lead 224 239 c0
    then forallByte (fun c1 =>
           if lead 128 191 c1
           then forallByte (fun c2 => agree (String c0 (String c1 (String c2 s3))))
           else true)
    else true) = true.
Proof. vm_compute. reflexivity. Qed.


(** A rune of four bytes is outside the Basic Multilingual Plane. *)
Lemma four_bytes_high :
  forallByte (fun c0 =>
    if lead 240 244 c0
    then forallByte (fun c1 =>
           let b0 := utf8.byte c0 in
           let b1 := utf8.byte c1 in
           let lo := if (b0 =? 240)%Z then 144%Z else 128%Z in
           let hi := if (b0 =? 244)%Z then 143%Z else 191%Z in
           if utf8.inRange lo hi b1
           then (65536 <=? Z.lor (Z.shiftl (Z.land b0 7) 18) (Z.shiftl (Z.land b1 63) 12))%Z
           else true)
    else true) = true.
Proof. vm_compute. reflexivity. Qed.

Lemma lor_high (a b : Z) : (0 <= b -> 65536 <= a -> 65536 <= Z.lor a b)%Z.
Proof.
  intros Hb Ha.
  assert (Hlog : (16 <= Z.log2 (Z.lor a b))%Z).
  { rewrite Z.log2_lor by lia. change 16%Z with (Z.log2 65536).
    etransitivity; [apply Z.log2_le_mono; exact Ha|]. apply Z.le_max_l. }
  destruct (Z.le_gt_cases (Z.lor a b) 0) as [Hle|Hpos].
  - rewrite Z.log2_nonpos in Hlog by exact Hle. lia.
  - destruct (Z.log2_spec _ Hpos) as [Hlow _].
    etransitivity; [|exact Hlow]. change 65536%Z with (2 ^ 16)%Z.
    apply Z.pow_le_mono_r; lia.
Qed.

Lemma IsSpace_low (r : Z) : unicode.IsSpace r = true -> (r <= 12288)%Z.
Proof.
  unfold unicode.IsSpace. rewrite existsb_exists. intros (k & Hin & Hk).
  apply Z.eqb_eq in Hk. subst k. unfold unicode.White_Space in Hin.
  repeat (destruct Hin as [<-|Hin]; [lia|]). destruct Hin.
Qed.

Lemma spaceFirst_four (s1 : string) :
  forallByte (fun c0 => if lead 240 244 c0 then negb (spaceFirst (String c0 s1)) else true)
  = true.
Proof. vm_compute. reflexivity. Qed.

Lemma agree_four (c0 c1 c2 c3 : ascii) (s4 : string) :
  lead 240 244 c0 = true ->
  agree (String c0 (String c1 (String c2 (String c3 s4)))) = true.
Proof.
  intros L. unfold agree.
  pose proof (forallByte_spec _ (spaceFirst_four (String c1 (String c2 (String c3 s4)))) c0)
    as Hfirst.
  cbv beta in Hfirst. rewrite L in Hfirst. apply negb_true_iff in Hfirst. rewrite Hfirst.
  apply eqb_true_iff.
  destruct (unicode.IsSpace _) eqn:Esp; [exfalso|reflexivity].
  apply IsSpace_low in Esp.
  pose proof (forallByte_spec _ four_bytes_high c0) as Hhigh.
  cbv beta in Hhigh. rewrite L in Hhigh.
  pose proof (forallByte_spec _ Hhigh c1) as Hhigh1. cbv beta zeta in Hhigh1.
  clear Hhigh. rename Hhigh1 into Hhigh.
  unfold utf8.DecodeRuneInString in Esp. unfold lead in L.
  unfold utf8.inRange in L at 1. apply andb_true_iff in L as [L1 L2].
  apply Z.leb_le in L1, L2.
  replace (utf8.byte c0 <? 128)%Z with false in Esp by (symmetry; apply Z.ltb_ge; lia).
  replace (utf8.inRange 194 223 (utf8.byte c0)) with false in Esp
    by (symmetry; unfold utf8.inRange; apply andb_false_iff; right; apply Z.leb_gt; lia).
  replace (utf8.inRange 224 239 (utf8.byte c0)) with false in Esp
    by (symmetry; unfold utf8.inRange; apply andb_false_iff; right; apply Z.leb_gt; lia).
  replace (utf8.inRange 240 244 (utf8.byte c0)) with true in Esp
    by (symmetry; unfold utf8.inRange; apply andb_true_iff; split; apply Z.leb_le; lia).
  cbv zeta in Esp.
  destruct (utf8.inRange _ _ (utf8.byte c1)); cbn [andb] in Esp;
    [|cbn [fst] in Esp; unfold utf8.RuneError in Esp; lia].
  cbv beta iota in Hhigh.
  destruct (utf8.cont (utf8.byte c2) && utf8.cont (utf8.byte c3));
    cbn [fst] in Esp; [|unfold utf8.RuneError in Esp; lia].
  apply Z.leb_le in Hhigh. rewrite Z.lor_assoc in Esp.
  assert (65536 <= Z.lor (Z.lor (Z.shiftl (Z.land (utf8.byte c0) 7) 18)
                            (Z.shiftl (Z.land (utf8.byte c1) 63) 12))
                          (Z.lor (Z.shiftl (Z.land (utf8.byte c2) 63) 6)
                                 (Z.land (utf8.byte c3) 63)))%Z; [|lia].
  apply lor_high; [|exact Hhigh].
  apply Z.lor_nonneg. split.
  - apply Z.shiftl_nonneg, Z.land_nonneg. now right.
  - apply Z.land_nonneg. now right.
Qed.

Lemma lead_classes (c : ascii) :
  lead 194 244 c = true ->
  lead 194 223 c = true \/ lead 224 239 c = true \/ lead 240 244 c = true.
Proof.
  unfold lead, utf8.inRange. rewrite !andb_true_iff, !Z.leb_le. lia.
Qed.

Lemma agree_all (s : string) : agree s = true.
Proof.
  destruct s as [|c0 s1]; [vm_compute; reflexivity|].
  destruct (lead 194 244 c0) eqn:L.
  - destruct s1 as [|c1 s2]; [exact (forallByte_spec _ agree_short1 c0)|].
    destruct (lead_classes c0 L) as [L2|[L3|L4]].
    + pose proof (forallByte_spec _ (agree_two s2) c0) as H. cbv beta in H.
      rewrite L2 in H. exact (forallByte_spec _ H c1).
    + destruct s2 as [|c2 s3];
        [exact (forallByte_spec _ (forallByte_spec _ agree_short2 c0) c1)|].
      destruct (lead 128 191 c1) eqn:Lc.
      * pose proof (forallByte_spec _ (agree_three s3) c0) as H. cbv beta in H.
        rewrite L3 in H. pose proof (forallByte_spec _ H c1) as H1. cbv beta in H1.
        rewrite Lc in H1. exact (forallByte_spec _ H1 c2).
      * pose proof (forallByte_spec _ (agree_three_off c2 s3) c0) as H. cbv beta in H.
        rewrite L3 in H. pose proof (forallByte_spec _ H c1) as H1. cbv beta in H1.
        now rewrite Lc in H1.
    + destruct s2 as [|c2 s3];
        [exact (forallByte_spec _ (forallByte_spec _ agree_short2 c0) c1)|].
      destruct s3 as [|c3 s4].
      * pose proof (forallByte_spec _ (agree_short3 c1 c2) c0) as H. cbv beta in H.
        now rewrite L4 in H.
      * now apply agree_four.
  - pose proof (forallByte_spec _ (agree_single s1) c0) as H. cbv beta in H.
    now rewrite L in H.
Qed.

(** A string starts with the encoding of a white space rune exactly
    when its first rune, as [utf8.DecodeRuneInString] reads it, is
    white space. *)
Theorem leadingSpace_first_rune (s : string) :
  strings.leadingSpace s <> None <->
  unicode.IsSpace (fst (utf8.DecodeRuneInString s)) = true.
Proof.
  rewrite <- spaceFirst_leading. pose proof (agree_all s) as H. unfold agree in H.
  apply eqb_prop in H. rewrite H. reflexivity.
Qed.

Lemma list_ascii_of_string_append (a b : string) :
  list_ascii_of_string (a ++ b) = list_ascii_of_string a ++ list_ascii_of_string b.
Proof.
  induction a as [|c a IH]; [reflexivity|].
  change (String c a ++ b)%string with (String c (a ++ b)). cbn. now rewrite IH.
Qed.

Lemma string_of_list_ascii_app (a b : list ascii) :
  string_of_list_ascii (a ++ b) = (string_of_list_ascii a ++ string_of_list_ascii b)%string.
Proof.
  induction a as [|c a IH]; [reflexivity|].
  cbn [app string_of_list_ascii]. now rewrite IH.
Qed.

Lemma length_string_of_list_ascii (l : list ascii) :
  String.length (string_of_list_ascii l) = length l.
Proof. induction l as [|c l IH]; [reflexivity|]. cbn. now rewrite IH. Qed.

Lemma runeWindow_spec (n : nat) (r w : list ascii) :
  exists pre tail, utf8.runeWindow n r w = pre ++ w /\ r = rev pre ++ tail.
Proof.
  revert n w. induction r as [|c r IH]; intros n w.
  - exists [], []. now split.
  - destruct n as [|n]; cbn [utf8.runeWindow].
    + exists [c], r. now split.
    + destruct (utf8.RuneStart (utf8.byte c)).
      * exists [c], r. now split.
      * destruct (IH n (c :: w)) as (pre & tail & Hw & Hr).
        exists (pre ++ [c]), tail. split.
        -- rewrite Hw, <- app_assoc. reflexivity.
        -- rewrite rev_app_distr. cbn. now rewrite Hr.
Qed.

(** What [utf8.DecodeLastRuneInString] returns, when it is not the error
    rune, is the rune whose encoding the bytes end with. *)
Lemma decodeLast_window (r : list ascii) (rune : Z) :
  fst (utf8.decodeLast r) = rune -> rune <> utf8.RuneError ->
  exists w tail, r = rev w ++ tail /\
                 utf8.DecodeRuneInString (string_of_list_ascii w) = (rune, length w).
Proof.
  destruct r as [|c r1]; [intros <- Hne; now contradiction Hne|].
  cbn [utf8.decodeLast]. destruct (utf8.byte c <? 128)%Z eqn:Eascii.
  - intros <- _. exists [c], r1. split; [reflexivity|].
    cbn [string_of_list_ascii utf8.DecodeRuneInString length]. cbv zeta.
    now rewrite Eascii.
  - destruct (runeWindow_spec 3 r1 [c]) as (pre & tail & Hw & Hr).
    destruct (utf8.DecodeRuneInString (string_of_list_ascii (utf8.runeWindow 3 r1 [c])))
      as [rune' size] eqn:Edec.
    destruct (Nat.eqb_spec size (length (utf8.runeWindow 3 r1 [c]))) as [->|_];
      [|intros <- Hne; now contradiction Hne].
    intros <- _. exists (utf8.runeWindow 3 r1 [c]), tail. split; [|exact Edec].
    rewrite Hw, rev_app_distr, Hr. reflexivity.
Qed.

(** The first rune of a string that starts with the encoding of a white
    space rune is that rune, as long as its encoding. *)
Lemma leadingSpace_decode (e rest : string) :
  In e strings.spaceRunes ->
  unicode.IsSpace (fst (utf8.DecodeRuneInString (e ++ rest))) = true /\
  snd (utf8.DecodeRuneInString (e ++ rest)) = String.length e.
Proof.
  intros Hin. unfold strings.spaceRunes, unicode.White_Space in Hin.
  cbn [map In] in Hin.
  repeat (destruct Hin as [<-|Hin]; [vm_compute; split; reflexivity|]).
  destruct Hin.
Qed.

Lemma decodeLast_space (e : string) (tail : list ascii) :
  In e strings.spaceRunes ->
  unicode.IsSpace (fst (utf8.decodeLast (rev (list_ascii_of_string e) ++ tail))) = true.
Proof.
  intros Hin. unfold strings.spaceRunes, unicode.White_Space in Hin.
  cbn [map In] in Hin.
  repeat (destruct Hin as [<-|Hin]; [vm_compute; reflexivity|]).
  destruct Hin.
Qed.

(** A string ends with the encoding of a white space rune exactly when
    its last rune, as [utf8.DecodeLastRuneInString] reads it, is white
    space. *)
Theorem trailingSpace_last_rune (s : string) :
  strings.trailingSpace s <> None <->
  unicode.IsSpace (fst (utf8.DecodeLastRuneInString s)) = true.
Proof.
  unfold utf8.DecodeLastRuneInString. split.
  - destruct (strings.trailingSpace s) as [e|] eqn:Etrail; [intros _|congruence].
    apply trailingSpace_Some in Etrail as [Hin Hs]. rewrite Hs.
    rewrite list_ascii_of_string_append, rev_app_distr.
    now apply decodeLast_space.
  - intros Hsp.
    destruct (decodeLast_window (rev (list_ascii_of_string s)) _ eq_refl)
      as (w & tail & Hr & Hdec).
    { intros E. rewrite E in Hsp. vm_compute in Hsp. discriminate. }
    assert (Hlead : strings.leadingSpace (string_of_list_ascii w) <> None).
    { apply leadingSpace_first_rune. now rewrite Hdec. }
    destruct (strings.leadingSpace (string_of_list_ascii w)) as [e|] eqn:Elead;
      [clear Hlead|congruence].
    apply leadingSpace_Some in Elead as [Hin Hw].
    destruct (leadingSpace_decode e (strings.TrimPrefix (string_of_list_ascii w) e) Hin)
      as [_ Hsize].
    rewrite <- Hw, Hdec in Hsize. cbn [snd] in Hsize.
    assert (Hrest : strings.TrimPrefix (string_of_list_ascii w) e = "").
    { apply (f_equal String.length) in Hw.
      rewrite length_append, length_string_of_list_ascii in Hw.
      destruct (strings.TrimPrefix _ e); [reflexivity|cbn in Hw; lia]. }
    rewrite Hrest, append_nil_r in Hw.
    assert (Hs : s = (string_of_list_ascii (rev tail) ++ e)%string).
    { rewrite <- Hw, <- string_of_list_ascii_app.
      rewrite <- (string_of_list_ascii_of_string s) at 1. f_equal.
      rewrite <- (rev_involutive (list_ascii_of_string s)), Hr, rev_app_distr.
      now rewrite rev_involutive. }
    rewrite Hs. now apply trailingSpace_ends.
Qed.

(** Exported names are those whose first rune is an upper case letter,
    in ASCII or outside: [Zebra] is exported, and so is a name that
    starts with U+00C4; [zebra], [_X], a name that starts with U+00E4
    and the empty name are not. *)
Example IsExported_first_rune :
  ast.IsExported "Zebra" = true /\
  ast.IsExported (utf8.bytes [195; 132]%Z ++ "tna") = true /\
  ast.IsExported "zebra" = false /\
  ast.IsExported "_X" = false /\
  ast.IsExported (utf8.bytes [195; 164]%Z ++ "tna") = false /\
  ast.IsExported "" = false.
Proof. vm_compute. repeat split; reflexivity. Qed.

Lemma leadingSpace_empty : strings.leadingSpace "" = None.
Proof. reflexivity. Qed.

Lemma trailingSpace_empty : strings.trailingSpace "" = None.
Proof. reflexivity. Qed.

Lemma trimLeftN_spec (n : nat) (s : string) :
  (exists sp, s = (sp ++ strings.trimLeftN n s)%string) /\
  ((String.length s <= n)%nat -> strings.leadingSpace (strings.trimLeftN n s) = None).
Proof.
  revert s; induction n as [|n IH]; intros s; cbn [strings.trimLeftN].
  - split; [now exists ""|]. intros Hlen. destruct s; [reflexivity|simpl in Hlen; lia].
  - destruct (strings.leadingSpace s) as [e|] eqn:Elead.
    + apply leadingSpace_Some in Elead as [Hin Es].
      destruct (IH (strings.TrimPrefix s e)) as [[sp Hsp] Hclean]. split.
      * exists (e ++ sp)%string. rewrite append_assoc, <- Hsp. exact Es.
      * intros Hlen. apply Hclean.
        pose proof (spaceRunes_nonempty e Hin) as Hne.
        rewrite Es, length_append in Hlen. destruct e; [contradiction|].
        simpl in Hlen. lia.
    + split; [now exists ""|]. intros _. exact Elead.
Qed.

Lemma trimRightN_spec (n : nat) (s : string) :
  (exists sp, s = (strings.trimRightN n s ++ sp)%string) /\
  ((String.length s <= n)%nat -> strings.trailingSpace (strings.trimRightN n s) = None).
Proof.
  revert s; induction n as [|n IH]; intros s; cbn [strings.trimRightN].
  - split; [exists ""; now rewrite append_nil_r|].
    intros Hlen. destruct s; [reflexivity|simpl in Hlen; lia].
  - destruct (strings.trailingSpace s) as [e|] eqn:Etrail.
    + apply trailingSpace_Some in Etrail as [Hin Es].
      destruct (IH (strings.TrimSuffix s e)) as [[sp Hsp] Hclean]. split.
      * exists (sp ++ e)%string. rewrite <- append_assoc, <- Hsp. exact Es.
      * intros Hlen. apply Hclean.
        pose proof (spaceRunes_nonempty e Hin) as Hne.
        rewrite Es, length_append in Hlen. destruct e; [contradiction|].
        simpl in Hlen. lia.
    + split; [exists ""; now rewrite append_nil_r|]. intros _. exact Etrail.
Qed.

Lemma trimLeft_spec (s : string) :
  (exists sp, s = (sp ++ strings.trimLeft s)%string) /\
  strings.leadingSpace (strings.trimLeft s) = None.
Proof.
  destruct (trimLeftN_spec (String.length s) s) as [Hsp Hclean].
  split; [exact Hsp|]. now apply Hclean.
Qed.

Lemma trimRight_spec (s : string) :
  (exists sp, s = (strings.trimRight s ++ sp)%string) /\
  strings.trailingSpace (strings.trimRight s) = None.
Proof.
  destruct (trimRightN_spec (String.length s) s) as [Hsp Hclean].
  split; [exact Hsp|]. now apply Hclean.
Qed.

Lemma trimLeft_fix (s : string) : strings.leadingSpace s = None -> strings.trimLeft s = s.
Proof.
  intros Hnone. unfold strings.trimLeft.
  destruct (String.length s); cbn [strings.trimLeftN]; [reflexivity|]. now rewrite Hnone.
Qed.

Lemma trimRight_fix (s : string) : strings.trailingSpace s = None -> strings.trimRight s = s.
Proof.
  intros Hnone. unfold strings.trimRight.
  destruct (String.length s); cbn [strings.trimRightN]; [reflexivity|]. now rewrite Hnone.
Qed.

(** A string that trims to nothing is empty or ends with white space. *)
Lemma trimLeftN_empty (n : nat) (s : string) :
  strings.trimLeftN n s = "" -> s = "" \/ strings.trailingSpace s <> None.
Proof.
  revert s; induction n as [|n IH]; intros s; cbn [strings.trimLeftN]; [now left|].
  destruct (strings.leadingSpace s) as [e|] eqn:Elead; [|now left].
  apply leadingSpace_Some in Elead as [Hin Es]. intros Hempty. right.
  destruct (IH _ Hempty) as [Erest|Hrest]; rewrite Es.
  - rewrite Erest. rewrite append_nil_r.
    change e with ("" ++ e)%string. now apply trailingSpace_ends.
  - intros Hnone. apply Hrest. exact (trailingSpace_app _ _ Hnone).
Qed.

Lemma trimRight_empty (s : string) :
  strings.trimRight s = "" -> s = "" \/ strings.trailingSpace s <> None.
Proof.
  intros Hempty. destruct (strings.trailingSpace s) eqn:Etrail; [now right|left].
  now rewrite (trimRight_fix s Etrail) in Hempty.
Qed.

Lemma TrimSpace_empty_ends (s : string) :
  strings.TrimSpace s = "" -> s = "" \/ strings.trailingSpace s <> None.
Proof.
  unfold strings.TrimSpace. intros Hempty.
  destruct (trimLeft_spec s) as [[sp Hsp] _].
  destruct (trimRight_empty _ Hempty) as [Eleft|Hends].
  - now apply (trimLeftN_empty (String.length s)).
  - right. intros Hnone. apply Hends. rewrite Hsp in Hnone.
    exact (trailingSpace_app _ _ Hnone).
Qed.

(** No white space at either end. *)
Definition trimmed (s : string) : Prop :=
  strings.leadingSpace s = None /\ strings.trailingSpace s = None.

Lemma TrimSpace_trimmed (s : string) : trimmed (strings.TrimSpace s).
Proof.
  unfold trimmed, strings.TrimSpace.
  destruct (trimLeft_spec s) as [_ Hleft].
  destruct (trimRight_spec (strings.trimLeft s)) as [[sp Hsp] Hright].
  split; [|exact Hright]. rewrite Hsp in Hleft. exact (leadingSpace_app _ _ Hleft).
Qed.

Lemma TrimSpace_fix (s : string) : trimmed s -> strings.TrimSpace s = s.
Proof.
  intros [Hleft Hright]. unfold strings.TrimSpace.
  rewrite (trimLeft_fix s Hleft). now apply trimRight_fix.
Qed.

Lemma TrimSpace_idem (s : string) :
  strings.TrimSpace (strings.TrimSpace s) = strings.TrimSpace s.
Proof. apply TrimSpace_fix, TrimSpace_trimmed. Qed.

Lemma TrimSpace_part (s : string) :
  exists a b, s = (a ++ strings.TrimSpace s ++ b)%string.
Proof.
  unfold strings.TrimSpace.
  destruct (trimLeft_spec s) as [[a Ha] _].
  destruct (trimRight_spec (strings.trimLeft s)) as [[b Hb] _].
  exists a, b. now rewrite <- Hb.
Qed.

(** The bytes of a string. *)
Definition chars (s : string) : list ascii := list_ascii_of_string s.

Lemma chars_append (a b : string) : chars (a ++ b) = chars a ++ chars b.
Proof.
  induction a as [|c a IH]; [reflexivity|].
  change (String c a ++ b)%string with (String c (a ++ b)). simpl. now rewrite IH.
Qed.

Lemma TrimSpace_chars (s : string) (c : ascii) :
  In c (chars (strings.TrimSpace s)) -> In c (chars s).
Proof.
  destruct (TrimSpace_part s) as (a & b & E). intros Hin.
  rewrite E, !chars_append. apply in_or_app. right. apply in_or_app. now left.
Qed.

(** *** Defaults *)

Definition defaultExcludeDirNames : list string :=
  [".git"; ".idea"; ".vscode"; "node_modules"; "testdata"; "vendor"].

(** X1. Applying the defaults twice is applying them once; the result
    never has an empty exclusion list or an empty indent, keeps the two
    inclusion flags, and keeps an exclusion list and an indent that were
    given. *)
Theorem defaults_fill_gaps_once (o : Options) :
  withDefaults (withDefaults o) = withDefaults o /\
  ExcludeDirNames (withDefaults o) <> [] /\
  Indent (withDefaults o) <> "" /\
  IncludeTests (withDefaults o) = IncludeTests o /\
  IncludeGenerated (withDefaults o) = IncludeGenerated o /\
  ExcludeDirNames (withDefaults o) =
    (if decide (ExcludeDirNames o = []) then defaultExcludeDirNames
     else ExcludeDirNames o) /\
  Indent (withDefaults o) = (if decide (Indent o = "") then "  " else Indent o).
Proof.
  destruct o as [tests generated excl indent]. unfold withDefaults.
  cbn [ExcludeDirNames Indent IncludeTests IncludeGenerated].
  destruct excl as [|name excl]; destruct (String.eqb_spec indent "") as [->|Hindent];
    cbn [length Nat.eqb ExcludeDirNames Indent IncludeTests IncludeGenerated String.eqb];
    try (destruct (String.eqb_spec indent "") as [E|_]; [contradiction|]);
    cbn [length Nat.eqb ExcludeDirNames Indent IncludeTests IncludeGenerated String.eqb];
    try (destruct (String.eqb_spec indent "") as [E|_]; [contradiction|]);
    repeat split; try discriminate; try assumption;
    try (rewrite decide_False by assumption; reflexivity);
    try (rewrite decide_False by discriminate; reflexivity).
Qed.

(** *** Comma-separated lists *)

Lemma strings_Split_nonempty (s : string) (sep : ascii) : strings_Split s sep <> [].
Proof.
  induction s as [|c s IH]; simpl; [discriminate|].
  destruct (Ascii.eqb c sep); [discriminate|].
  destruct (strings_Split s sep); discriminate.
Qed.

Lemma strings_Split_parts (s : string) (sep : ascii) (part : string) :
  In part (strings_Split s sep) -> ~ In sep (chars part).
Proof.
  revert part; induction s as [|c s IH]; intros part; simpl.
  - intros [<-|[]]. simpl. tauto.
  - destruct (Ascii.eqb_spec c sep) as [->|Hne].
    + intros [<-|Hin]; [simpl; tauto|now apply IH].
    + destruct (strings_Split s sep) as [|p parts]; simpl.
      * intros [<-|[]]. simpl. intros [E|[]]. contradiction.
      * intros [<-|Hin].
        -- simpl. intros [E|Hin]; [contradiction|]. revert Hin. apply IH. now left.
        -- apply IH. now right.
Qed.

Lemma strings_Split_plain (x : string) (sep : ascii) :
  ~ In sep (chars x) -> strings_Split x sep = [x].
Proof.
  induction x as [|c x IH]; simpl; [reflexivity|]. intros Hn.
  destruct (Ascii.eqb_spec c sep) as [->|_]; [exfalso; apply Hn; now left|].
  rewrite IH; [reflexivity|]. intros Hin. apply Hn. now right.
Qed.

Lemma strings_Split_cons (x rest : string) (sep : ascii) :
  ~ In sep (chars x) ->
  strings_Split (x ++ String sep rest) sep = x :: strings_Split rest sep.
Proof.
  induction x as [|c x IH]; simpl.
  - intros _. now rewrite Ascii.eqb_refl.
  - intros Hn. destruct (Ascii.eqb_spec c sep) as [->|_]; [exfalso; apply Hn; now left|].
    rewrite IH; [reflexivity|]. intros Hin. apply Hn. now right.
Qed.

Lemma strings_Split_Join (names : list string) (sep : ascii) :
  names <> [] ->
  Forall (fun x => ~ In sep (chars x)) names ->
  strings_Split (strings.Join names (String sep "")) sep = names.
Proof.
  intros Hne Hnames. unfold strings.Join.
  induction Hnames as [|x names Hx Hnames IH]; [contradiction|].
  destruct names as [|y names].
  - simpl. now apply strings_Split_plain.
  - cbn [String.concat]. change (String sep "" ++ ?r)%string with (String sep r).
    rewrite strings_Split_cons by exact Hx. f_equal. apply IH. discriminate.
Qed.

(** A name as the list carries it: not empty, without white space at
    either end, without comma. *)
Definition cleanName (x : string) : Prop :=
  x <> "" /\ trimmed x /\ ~ In ","%char (chars x).

(** X2. Every element of a split comma list is non-empty, has no white
    space at either end and contains no comma. *)
Theorem splitCommaList_elements (value : string) :
  Forall cleanName (splitCommaList value).
Proof.
  apply List.Forall_forall. intros x Hin.
  unfold splitCommaList in Hin. apply in_flat_map in Hin as (part & Hpart & Hx).
  cbn zeta in Hx. destruct (String.eqb_spec (strings.TrimSpace part) "") as [|Hne];
    [destruct Hx|].
  destruct Hx as [<-|[]]. split; [exact Hne|]. split; [apply TrimSpace_trimmed|].
  intros Hin. apply TrimSpace_chars in Hin.
  exact (strings_Split_parts value ","%char part Hpart Hin).
Qed.

(** X3. Splitting the comma-joined form of a list of clean names gives
    the list back. *)
Theorem splitCommaList_Join (names : list string) :
  Forall cleanName names ->
  splitCommaList (strings.Join names ",") = names.
Proof.
  intros Hclean. unfold splitCommaList. destruct names as [|x names]; [reflexivity|].
  rewrite (strings_Split_Join (x :: names) ","%char); [|discriminate|].
  - induction Hclean as [|y ys (Hne & Htrim & _) Hys IH]; [reflexivity|].
    cbn [flat_map]. rewrite (TrimSpace_fix y Htrim).
    destruct (String.eqb_spec y "") as [E|_]; [contradiction|].
    cbn [app]. f_equal. exact IH.
  - eapply Forall_impl; [exact Hclean|]. now intros y (_ & _ & Hy).
Qed.

(** Names with a dot, with white space inside, and with a letter
    outside ASCII. *)
Definition sampleNames : list string :=
  [".git"; "third party"; ("d" ++ utf8.bytes [195; 169]%Z ++ "p" ++ utf8.bytes [195; 180]%Z ++ "t")%string].

Lemma splitCommaList_witness_names : Forall cleanName sampleNames.
Proof.
  repeat constructor; try discriminate; try (vm_compute; reflexivity);
    vm_compute; intuition discriminate.
Qed.

Lemma splitCommaList_Join_witness :
  Forall cleanName sampleNames /\
  splitCommaList (strings.Join sampleNames ",") = sampleNames.
Proof.
  split; [exact splitCommaList_witness_names|].
  exact (splitCommaList_Join sampleNames splitCommaList_witness_names).
Defined.

(** White space outside ASCII is trimmed as well: here a no-break
    space before and an em space after the name. *)
Example splitCommaList_unicode_space :
  splitCommaList (utf8.bytes [194; 160]%Z ++ "vendor" ++ utf8.bytes [226; 128; 131]%Z
                  ++ ", .git")%string
    = ["vendor"; ".git"].
Proof. vm_compute. reflexivity. Qed.

(** *** Lists of names, commas and white space *)

Lemma prefix_comparable (p a r : string) :
  String.prefix p (a ++ r) = true ->
  String.prefix p a = true \/ String.prefix a p = true.
Proof.
  revert a; induction p as [|c p IH]; intros a; [destruct a; now left|].
  destruct a as [|d a]; [now right|].
  change (String d a ++ r)%string with (String d (a ++ r)). simpl.
  destruct (ascii_dec c d) as [->|]; [|discriminate].
  destruct (ascii_dec d d); [|contradiction]. apply IH.
Qed.

Definition prefixFree (l : list string) : bool :=
  forallb (fun e =>
    forallb (fun e' => implb (String.prefix e' e || String.prefix e e') (String.eqb e' e)) l) l.

Lemma spaceRunes_prefixFree : prefixFree strings.spaceRunes = true.
Proof. vm_compute. reflexivity. Qed.

Lemma leadingSpace_unique (e r : string) :
  In e strings.spaceRunes -> strings.leadingSpace (e ++ r) = Some e.
Proof.
  intros Hin. destruct (strings.leadingSpace (e ++ r)) as [e'|] eqn:Elead.
  - f_equal. unfold strings.leadingSpace in Elead.
    apply find_some in Elead as [Hin' Hp]. unfold strings.HasPrefix in Hp.
    pose proof spaceRunes_prefixFree as Hfree. unfold prefixFree in Hfree.
    eapply forallb_forall in Hfree; [|exact Hin].
    eapply forallb_forall in Hfree; [|exact Hin'].
    apply prefix_comparable in Hp.
    destruct Hp as [Hp|Hp]; rewrite Hp in Hfree; rewrite ?orb_true_r in Hfree;
      cbn [orb implb] in Hfree; now apply String.eqb_eq in Hfree.
  - exfalso. exact (leadingSpace_starts e r Hin Elead).
Qed.

Lemma trimLeftN_enough (n : nat) (s : string) :
  (String.length s <= n)%nat -> strings.trimLeftN n s = strings.trimLeft s.
Proof.
  unfold strings.trimLeft. remember (String.length s) as m eqn:Em.
  revert s n Em; induction m as [m IH] using lt_wf_ind; intros s n Em Hle.
  destruct n as [|n].
  - assert (m = 0%nat) by lia. subst m. now rewrite H.
  - cbn [strings.trimLeftN]. destruct (strings.leadingSpace s) as [e|] eqn:Elead.
    + pose proof Elead as Hlead. apply leadingSpace_Some in Hlead as [Hin Es].
      pose proof (spaceRunes_nonempty e Hin) as Hne.
      assert (Hlen : (String.length (strings.TrimPrefix s e) < m)%nat).
      { rewrite Em. rewrite Es at 2. rewrite length_append.
        destruct e; [contradiction|simpl; lia]. }
      destruct m as [|m]; [lia|]. cbn [strings.trimLeftN]. rewrite Elead.
      rewrite (IH _ Hlen (strings.TrimPrefix s e) n eq_refl) by lia.
      rewrite (IH _ Hlen (strings.TrimPrefix s e) m eq_refl) by lia. reflexivity.
    + destruct m; cbn [strings.trimLeftN]; [reflexivity|]. now rewrite Elead.
Qed.

Lemma trimLeft_space (e r : string) :
  In e strings.spaceRunes -> strings.trimLeft (e ++ r) = strings.trimLeft r.
Proof.
  intros Hin. pose proof (spaceRunes_nonempty e Hin) as Hne.
  unfold strings.trimLeft at 1. rewrite length_append.
  destruct e as [|c e]; [contradiction|]. cbn [String.length Nat.add strings.trimLeftN].
  rewrite (leadingSpace_unique _ r Hin), TrimPrefix_append.
  apply trimLeftN_enough. lia.
Qed.

(** A part that trims to nothing from the right also does from the
    left. *)
Lemma trimRightN_empty (n : nat) (s : string) :
  strings.trimRightN n s = "" -> s = "" \/ strings.leadingSpace s <> None.
Proof.
  revert s; induction n as [|n IH]; intros s; cbn [strings.trimRightN]; [now left|].
  destruct (strings.trailingSpace s) as [e|] eqn:Etrail; [|now left].
  apply trailingSpace_Some in Etrail as [Hin Es]. intros Hempty. right.
  destruct (IH _ Hempty) as [Erest|Hrest]; rewrite Es.
  - rewrite Erest. change ("" ++ e)%string with e. rewrite <- (append_nil_r e).
    now apply leadingSpace_starts.
  - intros Hnone. apply Hrest. exact (leadingSpace_app _ _ Hnone).
Qed.

Lemma TrimSpace_empty (s : string) :
  strings.TrimSpace s = "" <-> strings.trimLeft s = "".
Proof.
  unfold strings.TrimSpace. split.
  - intros Hempty. destruct (trimLeft_spec s) as [_ Hclean].
    destruct (trimRightN_empty _ _ Hempty) as [E|Hlead]; [exact E|contradiction].
  - intros ->. reflexivity.
Qed.

Lemma strings_Split_app (x r : string) (sep : ascii) :
  ~ In sep (chars x) ->
  strings_Split (x ++ r) sep =
    match strings_Split r sep with
    | part :: parts => (x ++ part)%string :: parts
    | [] => [x]
    end.
Proof.
  induction x as [|c x IH]; intros Hn.
  - change ("" ++ r)%string with r. pose proof (strings_Split_nonempty r sep).
    now destruct (strings_Split r sep).
  - change (String c x ++ r)%string with (String c (x ++ r)). cbn [strings_Split].
    destruct (Ascii.eqb_spec c sep) as [->|_]; [exfalso; apply Hn; now left|].
    rewrite IH by (intros Hin; apply Hn; now right).
    pose proof (strings_Split_nonempty r sep).
    destruct (strings_Split r sep); [contradiction|reflexivity].
Qed.

Lemma strings_Split_head (s : string) (sep : ascii) :
  exists part parts r,
    strings_Split s sep = part :: parts /\ s = (part ++ r)%string /\
    (s <> "" -> String.prefix (String sep "") s = false -> part <> "").
Proof.
  induction s as [|c s (part & parts & r & IH & Es & _)]; cbn [strings_Split].
  - exists "", [], "". repeat split. congruence.
  - destruct (Ascii.eqb_spec c sep) as [->|Hne].
    + exists "", (strings_Split s sep), (String sep s). repeat split.
      intros _. simpl. destruct (ascii_dec sep sep); [|contradiction].
      now destruct s.
    + rewrite IH. exists (String c part), parts, r. split; [reflexivity|].
      split; [|discriminate].
      change (String c part ++ r)%string with (String c (part ++ r)). now rewrite <- Es.
Qed.

Lemma spaceRunes_no_comma (e : string) :
  In e strings.spaceRunes -> ~ In ","%char (chars e).
Proof.
  assert (Hall : forallb (fun e => negb (existsb (Ascii.eqb ",") (chars e)))
                   strings.spaceRunes = true) by (vm_compute; reflexivity).
  intros Hin Hc. eapply forallb_forall in Hall; [|exact Hin].
  apply negb_true_iff in Hall.
  assert (Ht : existsb (Ascii.eqb ",") (chars e) = true).
  { apply existsb_exists. exists ","%char. split; [exact Hc|apply Ascii.eqb_refl]. }
  congruence.
Qed.

(** Nothing but commas and white space: the test strips a leading comma
    or white space rune as long as there is one. *)
Fixpoint blankN (n : nat) (s : string) : bool :=
  match s, n with
  | EmptyString, _ => true
  | _, O => false
  | _, S n' =>
      if strings.HasPrefix s ","
      then blankN n' (strings.TrimPrefix s ",")
      else
        match strings.leadingSpace s with
        | Some e => blankN n' (strings.TrimPrefix s e)
        | None => false
        end
  end.

Definition blank (s : string) : bool := blankN (String.length s) s.

Lemma blankN_parts (n : nat) (s : string) :
  (String.length s <= n)%nat ->
  blankN n s = true <->
  Forall (fun part => strings.trimLeft part = "") (strings_Split s ","%char).
Proof.
  revert s; induction n as [|n IH]; intros s Hlen.
  - destruct s; [|simpl in Hlen; lia]. cbn. split; [|reflexivity].
    intros _. constructor; [reflexivity|constructor].
  - destruct (String.eqb_spec s "") as [->|Hs].
    { cbn. split; [|reflexivity]. intros _. constructor; [reflexivity|constructor]. }
    assert (Hstep : blankN (S n) s =
              if strings.HasPrefix s ","
              then blankN n (strings.TrimPrefix s ",")
              else match strings.leadingSpace s with
                   | Some e => blankN n (strings.TrimPrefix s e)
                   | None => false
                   end) by (destruct s; [contradiction|reflexivity]).
    rewrite Hstep. clear Hstep.
    destruct (strings.HasPrefix s ",") eqn:Ecomma.
    + unfold strings.HasPrefix in Ecomma.
      pose proof (prefix_TrimPrefix _ _ Ecomma) as E.
      rewrite IH by (rewrite E, length_append in Hlen; simpl in Hlen; lia).
      rewrite E at 2. change ("," ++ ?r)%string with (String "," r).
      cbn [strings_Split]. rewrite Ascii.eqb_refl. split.
      * intros Hall. constructor; [reflexivity|exact Hall].
      * intros Hall. now inversion Hall.
    + destruct (strings.leadingSpace s) as [e|] eqn:Elead.
      * pose proof Elead as Hlead. apply leadingSpace_Some in Hlead as [Hin E].
        pose proof (spaceRunes_nonempty e Hin) as Hne.
        rewrite IH.
        2:{ rewrite E, length_append in Hlen. destruct e; [contradiction|].
            simpl in Hlen. lia. }
        rewrite E at 2.
        rewrite (strings_Split_app e _ ","%char (spaceRunes_no_comma e Hin)).
        pose proof (strings_Split_nonempty (strings.TrimPrefix s e) ","%char).
        destruct (strings_Split (strings.TrimPrefix s e) ","%char) as [|part parts];
          [contradiction|].
        split.
        -- intros Hall. inversion Hall as [|? ? Hp Hps]; subst.
           constructor; [|exact Hps]. now rewrite trimLeft_space.
        -- intros Hall. inversion Hall as [|? ? Hp Hps]; subst.
           constructor; [|exact Hps]. now rewrite trimLeft_space in Hp.
      * split; [discriminate|]. intros Hall. exfalso.
        destruct (strings_Split_head s ","%char) as (part & parts & r & Esplit & E & Hne).
        rewrite Esplit in Hall. inversion Hall as [|? ? Hp _]; subst part parts.
        rewrite E in Elead. apply leadingSpace_app in Elead.
        rewrite (trimLeft_fix _ Elead) in Hp. exact (Hne Hs Ecomma Hp).
Qed.

Lemma splitCommaList_empty (value : string) :
  splitCommaList value = [] <-> blank value = true.
Proof.
  unfold blank. rewrite (blankN_parts _ value (Nat.le_refl _)). unfold splitCommaList.
  induction (strings_Split value ","%char) as [|part parts IH]; cbn [flat_map].
  - split; [constructor|reflexivity].
  - destruct (String.eqb_spec (strings.TrimSpace part) "") as [E|Hne]; cbn [app].
    + rewrite IH. apply TrimSpace_empty in E. split.
      * intros Hall. now constructor.
      * intros Hall. now inversion Hall.
    + split; [discriminate|]. intros Hall. inversion Hall as [|? ? Hp _]; subst.
      apply TrimSpace_empty in Hp. contradiction.
Qed.

Lemma withDefaults_idem (o : Options) : withDefaults (withDefaults o) = withDefaults o.
Proof.
  destruct o as [tests generated excl indent]. unfold withDefaults.
  cbn [ExcludeDirNames Indent IncludeTests IncludeGenerated].
  destruct excl as [|name excl]; destruct (String.eqb_spec indent "") as [->|Hindent];
    cbn [length Nat.eqb ExcludeDirNames Indent IncludeTests IncludeGenerated String.eqb];
    try (destruct (String.eqb_spec indent "") as [E|_]; [contradiction|]);
    cbn [length Nat.eqb ExcludeDirNames Indent IncludeTests IncludeGenerated String.eqb];
    try (destruct (String.eqb_spec indent "") as [E|_]; [contradiction|]);
    reflexivity.
Qed.

(** X4. The exclusion list in force for a run of the command: the
    default list when the exclude flag is empty or holds nothing but
    commas and white space, and otherwise the non-empty list of its
    names.  The indent in force is the indent flag, or two spaces when
    that is empty. *)
Theorem flags_in_force (includeTests includeGenerated : bool) (indent exclude : string) :
  let o := withDefaults (mainOptions includeTests includeGenerated indent exclude) in
  ExcludeDirNames o =
    (if blank exclude then defaultExcludeDirNames else splitCommaList exclude) /\
  (blank exclude = false -> splitCommaList exclude <> []) /\
  Indent o = (if String.eqb indent "" then "  " else indent) /\
  IncludeTests o = includeTests /\ IncludeGenerated o = includeGenerated.
Proof.
  cbn zeta.
  assert (Hlist : ExcludeDirNames (mainOptions includeTests includeGenerated indent exclude)
                  = splitCommaList exclude).
  { unfold mainOptions. destruct (String.eqb_spec exclude "") as [->|_]; reflexivity. }
  assert (Hind : Indent (mainOptions includeTests includeGenerated indent exclude) = indent).
  { unfold mainOptions. destruct (String.eqb exclude ""); reflexivity. }
  assert (Ht : IncludeTests (mainOptions includeTests includeGenerated indent exclude)
               = includeTests).
  { unfold mainOptions. destruct (String.eqb exclude ""); reflexivity. }
  assert (Hg : IncludeGenerated (mainOptions includeTests includeGenerated indent exclude)
               = includeGenerated).
  { unfold mainOptions. destruct (String.eqb exclude ""); reflexivity. }
  destruct (mainOptions includeTests includeGenerated indent exclude)
    as [tests generated excl ind]. cbn [ExcludeDirNames Indent IncludeTests
                                          IncludeGenerated] in *. subst.
  pose proof (splitCommaList_empty exclude) as Hempty.
  unfold withDefaults. cbn [ExcludeDirNames Indent IncludeTests IncludeGenerated].
  destruct (blank exclude).
  - rewrite (proj2 Hempty eq_refl). cbn [length Nat.eqb Indent ExcludeDirNames
                                             IncludeTests IncludeGenerated].
    destruct (String.eqb indent ""); repeat split; discriminate.
  - assert (Hne : splitCommaList exclude <> []).
    { intros E. apply Hempty in E. discriminate. }
    destruct (splitCommaList exclude) as [|x xs] eqn:Esplit; [contradiction|].
    cbn [length Nat.eqb Indent ExcludeDirNames IncludeTests IncludeGenerated].
    destruct (String.eqb indent ""); repeat split; discriminate.
Qed.

(** An exclude flag of commas, blanks and a no-break space leaves the
    defaults in force. *)
Example exclude_flag_of_padding :
  blank (" , " ++ utf8.bytes [194; 160]%Z ++ ",")%string = true /\
  ExcludeDirNames
    (withDefaults (mainOptions false false ""
                     (" , " ++ utf8.bytes [194; 160]%Z ++ ",")%string))
    = defaultExcludeDirNames.
Proof. vm_compute. split; reflexivity. Qed.

Section GenerateJSONFacts.

Context {sorter : Sorter} {order : MapRange}.
Variable printExpr : ast.Expr -> string.
Variable json_MarshalIndent : Model -> string -> string -> error + string.

(** X5. Applying the defaults before the call changes nothing, so
    [GenerateJSON], which does, marshals the model of [Generate] on the
    options it was given; the indent it marshals with is the given one
    or two spaces, never empty. *)
Theorem GenerateJSON_on_given_options (now : Z) (fs : Node) (root : Path) (opts : Options) :
  Generate printExpr now fs root (withDefaults opts) = Generate printExpr now fs root opts /\
  GenerateJSON printExpr json_MarshalIndent now fs root opts =
    match Generate printExpr now fs root opts with
    | inl err => inl err
    | inr model =>
        json_MarshalIndent model ""
          (if String.eqb (Indent opts) "" then "  " else Indent opts)
    end /\
  (if String.eqb (Indent opts) "" then "  " else Indent opts) <> "".
Proof.
  assert (Hgen : Generate printExpr now fs root (withDefaults opts)
                 = Generate printExpr now fs root opts).
  { unfold Generate. now rewrite withDefaults_idem. }
  split; [exact Hgen|]. split.
  - unfold GenerateJSON. rewrite Hgen.
    destruct (Generate printExpr now fs root opts) as [err|model]; [reflexivity|].
    f_equal. destruct opts as [tests generated excl indent]. unfold withDefaults.
    cbn [ExcludeDirNames Indent IncludeTests IncludeGenerated].
    destruct (length excl =? 0)%nat; cbn [Indent];
      destruct (String.eqb indent ""); reflexivity.
  - destruct (String.eqb_spec (Indent opts) ""); [discriminate|assumption].
Qed.

End GenerateJSONFacts.

(** ** Module locator: further properties *)

(** After a keyword that ends in white space, a trimmed line carries a
    name. *)
Lemma trimmed_line_rest (l keyword : string) :
  strings.HasPrefix (strings.TrimSpace l) keyword = true ->
  strings.trailingSpace keyword <> None ->
  strings.TrimSpace (strings.TrimPrefix (strings.TrimSpace l) keyword) <> "".
Proof.
  intros Hp Hkeyword Hempty. unfold strings.HasPrefix in Hp.
  pose proof (prefix_TrimPrefix keyword _ Hp) as Hline.
  destruct (TrimSpace_trimmed l) as [_ Hright]. rewrite Hline in Hright.
  destruct (TrimSpace_empty_ends _ Hempty) as [Erest|Hrest].
  - rewrite Erest, append_nil_r in Hright. contradiction.
  - apply Hrest. exact (trailingSpace_app _ _ Hright).
Qed.

Lemma scanModuleLine_path (lines : list string) (modPath : string) :
  scanModuleLine lines = Some modPath ->
  modPath <> "" /\ trimmed modPath.
Proof.
  induction lines as [|l lines IH]; cbn [scanModuleLine]; [discriminate|]. cbn zeta.
  destruct (strings.HasPrefix (strings.TrimSpace l) "module ") eqn:Esp.
  - intros [= <-]. split; [|apply TrimSpace_trimmed].
    apply trimmed_line_rest; [exact Esp|]. vm_compute. discriminate.
  - destruct (strings.HasPrefix (strings.TrimSpace l)
                ("module" ++ String (ascii_of_nat 9) "")%string) eqn:Etab; [|exact IH].
    intros [= <-]. split; [|apply TrimSpace_trimmed].
    apply trimmed_line_rest; [exact Etab|]. vm_compute. discriminate.
Qed.

(** X6. A module path read from a module declaration file is not empty
    and has no white space at either end. *)
Theorem module_path_is_a_name (fs : Node) (goModPath : Path) (modPath : string) :
  readModulePath fs goModPath = inr modPath ->
  modPath <> "" /\ trimmed modPath.
Proof.
  unfold readModulePath. destruct (fs_read fs goModPath) as [|lines failed]; [discriminate|].
  destruct (scanModuleLine lines) as [p|] eqn:Escan.
  - intros [= <-]. now apply (scanModuleLine_path lines).
  - destruct failed; discriminate.
Qed.

(** A module declaration file with white space of several kinds: the
    first line has the keyword and a no-break space only, the second a
    path between a tab and a no-break space. *)
Definition paddedGoMod : Node :=
  DirNode
    [("go.mod",
      textFile [("module " ++ utf8.bytes [194; 160]%Z)%string;
                ("  module" ++ utf8.bytes [9]%Z ++ utf8.bytes [226; 128; 131]%Z
                 ++ "example.com/z" ++ utf8.bytes [194; 160]%Z ++ " ")%string])].

Lemma module_path_is_a_name_witness :
  readModulePath paddedGoMod ["go.mod"] = inr "example.com/z" /\
  "example.com/z" <> "" /\ trimmed "example.com/z".
Proof.
  assert (Hread : readModulePath paddedGoMod ["go.mod"] = inr "example.com/z")
    by (vm_compute; reflexivity).
  split; [exact Hread|].
  exact (module_path_is_a_name paddedGoMod ["go.mod"] "example.com/z" Hread).
Defined.


Lemma chainUp_head (rdir : list string) : In (rev rdir) (chainUp rdir).
Proof. destruct rdir; now left. Qed.

Lemma moduleForDirUp_memo (fs : Node) (rdir : list string) (ml : moduleLocator) :
  (forall d v, ml !! d = Some v -> snd (moduleForDirUp fs rdir ml) !! d = Some v) /\
  (forall d v, snd (moduleForDirUp fs rdir ml) !! d = Some v ->
     ml !! d = Some v \/
     (In d (chainUp rdir) /\ fst (moduleForDirUp fs rdir ml) = inr v)) /\
  match fst (moduleForDirUp fs rdir ml) with
  | inr found => snd (moduleForDirUp fs rdir ml) !! rev rdir = Some found
  | inl _ => snd (moduleForDirUp fs rdir ml) = ml
  end.
Proof.
  assert (Hins : forall (m0 m1 : moduleLocator) (k : Path) (found : option Module_)
                   (res : error + option Module_) (visited : list Path),
             m0 !! k = None -> In k visited -> res = inr found ->
             (forall d v, m0 !! d = Some v -> m1 !! d = Some v) ->
             (forall d v, m1 !! d = Some v ->
                m0 !! d = Some v \/ (In d visited /\ res = inr v)) ->
             (forall d v, m0 !! d = Some v -> <[k := found]> m1 !! d = Some v) /\
             (forall d v, <[k := found]> m1 !! d = Some v ->
                m0 !! d = Some v \/ (In d visited /\ res = inr v)) /\
             <[k := found]> m1 !! k = Some found).
  { intros m0 m1 k found res visited Hnone Hin -> Hkeep Hadd.
    split; [|split; [|apply lookup_insert_eq]].
    - intros d v Hd. rewrite lookup_insert_ne; [now apply Hkeep|].
      intros ->. rewrite Hnone in Hd. discriminate.
    - intros d v. destruct (decide (k = d)) as [<-|Hne].
      + rewrite lookup_insert_eq. intros [= <-]. right. now split.
      + rewrite lookup_insert_ne by exact Hne. apply Hadd. }
  revert ml; induction rdir as [|c rparent IH]; intros ml; rewrite moduleForDirUp_eq.
  all: destruct (ml !! rev _) as [cached|] eqn:Ecache;
    [cbn [fst snd]; split; [tauto|]; split; [tauto|exact Ecache]|].
  all: destruct (fileExists fs _);
    [ destruct (readModulePath fs _) as [err|modPath]; cbn [fst snd];
      [ split; [tauto|]; split; [tauto|reflexivity]
      | apply Hins; [exact Ecache|apply chainUp_head|reflexivity|tauto|tauto] ] |].
  - cbn [fst snd].
    apply Hins; [exact Ecache|apply chainUp_head|reflexivity|tauto|tauto].
  - destruct (IH ml) as (Hkeep & Hadd & Hres).
    destruct (moduleForDirUp fs rparent ml) as [[err|found] ml']; cbn [fst snd] in *.
    + subst ml'. split; [tauto|]. split; [tauto|reflexivity].
    + apply Hins; [exact Ecache|apply chainUp_head|reflexivity|exact Hkeep|].
      intros d v Hd. destruct (Hadd d v Hd) as [Hold|[Hin Hv]]; [now left|right].
      split; [cbn [chainUp]; now right|exact Hv].
Qed.

(** X7. The locator memoizes: a lookup keeps every entry of the cache,
    adds entries only for directories on the walk from the directory up
    and only with the module it returns, and after a lookup that
    succeeds the directory itself is cached, so that the same lookup
    again returns the same module and leaves the cache as it is.  A
    lookup that fails leaves the cache unchanged. *)
Theorem moduleForDir_memoizes (fs : Node) (ml : moduleLocator) (dir : Path) :
  (forall d v, ml !! d = Some v -> snd (moduleForDir fs ml dir) !! d = Some v) /\
  (forall d v, snd (moduleForDir fs ml dir) !! d = Some v ->
     ml !! d = Some v \/ (In d (chain dir) /\ fst (moduleForDir fs ml dir) = inr v)) /\
  match fst (moduleForDir fs ml dir) with
  | inr found =>
      snd (moduleForDir fs ml dir) !! dir = Some found /\
      moduleForDir fs (snd (moduleForDir fs ml dir)) dir
        = (inr found, snd (moduleForDir fs ml dir))
  | inl _ => snd (moduleForDir fs ml dir) = ml
  end.
Proof.
  unfold moduleForDir, chain.
  destruct (moduleForDirUp_memo fs (rev dir) ml) as (Hkeep & Hadd & Hres).
  split; [exact Hkeep|]. split; [exact Hadd|].
  destruct (fst (moduleForDirUp fs (rev dir) ml)) as [err|found]; [exact Hres|].
  rewrite rev_involutive in Hres. split; [exact Hres|].
  rewrite moduleForDirUp_eq, rev_involutive, Hres. reflexivity.
Qed.

(** X8. The cache does not show: with any two caches that agree with
    the file system a lookup gives the same result, the one of the walk
    without cache, and the cache it leaves agrees with the file system
    again. *)
Theorem module_cache_transparent (fs : Node) (ml1 ml2 : moduleLocator) (dir : Path) :
  cacheOK fs ml1 -> cacheOK fs ml2 ->
  fst (moduleForDir fs ml1 dir) = fst (moduleForDir fs ml2 dir) /\
  fst (moduleForDir fs ml1 dir) = fst (moduleForDir fs newModuleLocator dir) /\
  cacheOK fs (snd (moduleForDir fs ml1 dir)).
Proof.
  intros Hok1 Hok2.
  destruct (moduleForDir_locate fs ml1 dir Hok1) as [E1 Hok1'].
  destruct (moduleForDir_locate fs ml2 dir Hok2) as [E2 _].
  destruct (moduleForDir_locate fs newModuleLocator dir (cacheOK_empty fs)) as [E0 _].
  split; [congruence|]. split; [congruence|exact Hok1'].
Qed.

Lemma module_cache_transparent_witness :
  cacheOK sampleTree newModuleLocator /\
  cacheOK sampleTree (snd (moduleForDir sampleTree newModuleLocator ["root"; "sub"])) /\
  fst (moduleForDir sampleTree newModuleLocator ["root"; "docs"])
    = fst (moduleForDir sampleTree
             (snd (moduleForDir sampleTree newModuleLocator ["root"; "sub"]))
             ["root"; "docs"]).
Proof.
  assert (H0 : cacheOK sampleTree newModuleLocator) by apply cacheOK_empty.
  assert (H1 : cacheOK sampleTree
                 (snd (moduleForDir sampleTree newModuleLocator ["root"; "sub"])))
    by apply (moduleForDir_locate sampleTree newModuleLocator ["root"; "sub"] H0).
  split; [exact H0|]. split; [exact H1|].
  exact (proj1 (module_cache_transparent sampleTree newModuleLocator _ ["root"; "docs"]
                  H0 H1)).
Defined.

Lemma app_snoc_cases {A} (l1 l2 l : list A) (x : A) :
  l1 ++ l2 = l ++ [x] ->
  (l2 = [] /\ l1 = l ++ [x]) \/ (exists l2', l2 = l2' ++ [x] /\ l1 ++ l2' = l).
Proof.
  destruct l2 as [|y l2] using rev_ind.
  - rewrite app_nil_r. intros ->. now left.
  - rewrite app_assoc. intros E. apply app_inj_tail in E as [E ->].
    right. now exists l2.
Qed.

Lemma locateUp_enclosing (fs : Node) (rdir : list string) (found : Module_) :
  locateUp fs rdir = inr (Some found) ->
  readModulePath fs (filepath.Join (Module_Dir found) [goModName])
    = inr (Module_Path found) /\
  hasGoMod fs (Module_Dir found) = true /\
  exists rel,
    rev rdir = Module_Dir found ++ rel /\
    forall rel1 rel2, rel = rel1 ++ rel2 -> rel1 <> [] ->
      hasGoMod fs (Module_Dir found ++ rel1) = false.
Proof.
  induction rdir as [|c rparent IH]; intros Hloc; rewrite locateUp_eq in Hloc.
  all: match type of Hloc with
       | (if fileExists ?t ?p then _ else _) = _ =>
           destruct (fileExists t p) eqn:Eex;
           [ destruct (readModulePath t p) as [err|modPath] eqn:Eread;
             [discriminate Hloc|];
             injection Hloc as <-; cbn [Module_Dir Module_Path];
             split; [exact Eread|]; split; [exact Eex|];
             exists []; split; [now rewrite app_nil_r|];
             intros rel1 rel2 E Hne; symmetry in E; apply app_eq_nil in E as [-> _];
             contradiction |]
       end.
  - discriminate Hloc.
  - destruct (IH Hloc) as (Hread & Hhas & rel & Hrel & Hnear).
    split; [exact Hread|]. split; [exact Hhas|].
    exists (rel ++ [c]). split; [cbn [rev]; rewrite Hrel; now rewrite <- app_assoc|].
    intros rel1 rel2 E Hne. symmetry in E.
    apply app_snoc_cases in E as [[-> ->]|(rel2' & -> & E)].
    + unfold hasGoMod. rewrite app_assoc, <- Hrel.
      change (rev rparent ++ [c]) with (rev (c :: rparent)). exact Eex.
    + apply (Hnear rel1 rel2'); [now symmetry|exact Hne].
Qed.

(** X9. The module found for a directory is the nearest enclosing one:
    its directory is the directory itself or one above it, holds the
    module declaration file from which its path was read, and no
    directory strictly between the two (nor the directory itself,
    unless it is the module's) holds such a file. *)
Theorem module_is_nearest_enclosing (fs : Node) (ml : moduleLocator) (dir : Path)
    (found : Module_) :
  cacheOK fs ml ->
  fst (moduleForDir fs ml dir) = inr (Some found) ->
  readModulePath fs (filepath.Join (Module_Dir found) [goModName])
    = inr (Module_Path found) /\
  hasGoMod fs (Module_Dir found) = true /\
  exists rel,
    dir = Module_Dir found ++ rel /\
    forall rel1 rel2, rel = rel1 ++ rel2 -> rel1 <> [] ->
      hasGoMod fs (Module_Dir found ++ rel1) = false.
Proof.
  intros Hok Hres. destruct (moduleForDir_locate fs ml dir Hok) as [Hloc _].
  rewrite Hres in Hloc. symmetry in Hloc. unfold locate in Hloc.
  pose proof (locateUp_enclosing fs (rev dir) found Hloc) as Hen.
  rewrite rev_involutive in Hen. exact Hen.
Qed.

Lemma module_is_nearest_enclosing_witness :
  cacheOK nestedModules newModuleLocator /\
  fst (moduleForDir nestedModules newModuleLocator ["a"; "b"; "c"])
    = inr (Some (mkModule "example.com/b" ["a"; "b"])) /\
  hasGoMod nestedModules ["a"; "b"] = true /\
  exists rel,
    ["a"; "b"; "c"] = ["a"; "b"] ++ rel /\
    forall rel1 rel2, rel = rel1 ++ rel2 -> rel1 <> [] ->
      hasGoMod nestedModules (["a"; "b"] ++ rel1) = false.
Proof.
  assert (Hres : fst (moduleForDir nestedModules newModuleLocator ["a"; "b"; "c"])
                 = inr (Some (mkModule "example.com/b" ["a"; "b"])))
    by (vm_compute; reflexivity).
  split; [apply cacheOK_empty|]. split; [exact Hres|].
  exact (proj2 (module_is_nearest_enclosing nestedModules newModuleLocator
                  ["a"; "b"; "c"] _ (cacheOK_empty nestedModules) Hres)).
Defined.

(** ** File filter: further properties *)

(** X10. The file filter only ever lets source files through, and
    lets more through as the options include more: a name accepted has
    the source suffix and is the single file asked for, if one is; it
    is still accepted with tests or generated files switched on,
    whatever the other options, and without the restriction to a single
    file. *)
Theorem fileFilter_monotone (fs : Node) (dir : Path) (onlyFile : string)
    (opts opts' : Options) (name : string) :
  (IncludeTests opts = true -> IncludeTests opts' = true) ->
  (IncludeGenerated opts = true -> IncludeGenerated opts' = true) ->
  fileFilter fs dir onlyFile opts name = true ->
  strings.HasSuffix name ".go" = true /\
  (onlyFile = "" \/ name = onlyFile) /\
  fileFilter fs dir onlyFile opts' name = true /\
  fileFilter fs dir "" opts' name = true.
Proof.
  intros Htests Hgen. unfold fileFilter.
  destruct (strings.HasSuffix name ".go"); cbn [negb]; [|discriminate].
  destruct (String.eqb_spec onlyFile "") as [->|Hfile]; cbn [negb andb].
  - destruct (IncludeTests opts); cbn [negb andb].
    + rewrite (Htests eq_refl). cbn [negb andb].
      destruct (IncludeGenerated opts); cbn [negb].
      * rewrite (Hgen eq_refl). cbn [negb]. intros _. repeat split; now left.
      * destruct (isGeneratedFile fs _) as [isGen err].
        destruct (negb err && isGen); [discriminate|].
        intros _. destruct (IncludeGenerated opts'); repeat split; now left.
    + destruct (strings.HasSuffix name "_test.go"); [discriminate|].
      rewrite andb_false_r.
      destruct (IncludeGenerated opts); cbn [negb].
      * rewrite (Hgen eq_refl). cbn [negb]. intros _. repeat split; now left.
      * destruct (isGeneratedFile fs _) as [isGen err].
        destruct (negb err && isGen); [discriminate|].
        intros _. destruct (IncludeGenerated opts'); repeat split; now left.
  - destruct (String.eqb_spec name onlyFile) as [->|Hname]; cbn [negb]; [|discriminate].
    destruct (IncludeTests opts); cbn [negb andb].
    + rewrite (Htests eq_refl). cbn [negb andb].
      destruct (IncludeGenerated opts); cbn [negb].
      * rewrite (Hgen eq_refl). cbn [negb]. intros _. repeat split; now right.
      * destruct (isGeneratedFile fs _) as [isGen err].
        destruct (negb err && isGen); [discriminate|].
        intros _. destruct (IncludeGenerated opts'); repeat split; now right.
    + destruct (strings.HasSuffix onlyFile "_test.go"); [discriminate|].
      rewrite andb_false_r.
      destruct (IncludeGenerated opts); cbn [negb].
      * rewrite (Hgen eq_refl). cbn [negb]. intros _. repeat split; now right.
      * destruct (isGeneratedFile fs _) as [isGen err].
        destruct (negb err && isGen); [discriminate|].
        intros _. destruct (IncludeGenerated opts'); repeat split; now right.
Qed.

Lemma fileFilter_monotone_witness :
  fileFilter sampleTree ["root"; "sub"] "" defaultOptions "box.go" = true /\
  fileFilter sampleTree ["root"; "sub"] "" (mkOptions true true ["sub"] "") "box.go" = true.
Proof.
  assert (H : fileFilter sampleTree ["root"; "sub"] "" defaultOptions "box.go" = true)
    by (vm_compute; reflexivity).
  split; [exact H|].
  apply (fileFilter_monotone sampleTree ["root"; "sub"] "" defaultOptions
           (mkOptions true true ["sub"] "") "box.go"
           (fun _ => eq_refl) (fun _ => eq_refl) H).
Defined.

(** ** Signatures *)

Section Signatures.

Variable printExpr : ast.Expr -> string.

Lemma parseParams_loop (n : nat) (l : list ast.Field) (out : list Param)
    (variadic : bool) (i : nat) :
  (i + length l = n)%nat ->
  fold_left (fun '(out, variadic, i) field =>
      let variadic' :=
        if (i =? n - 1)%nat then isEllipsis (ast.Field_Type field) else variadic in
      (out ++ paramsOfField printExpr field, variadic', Datatypes.S i)) l (out, variadic, i)
  = (out ++ flat_map (paramsOfField printExpr) l,
     match last l with
     | Some field => isEllipsis (ast.Field_Type field)
     | None => variadic
     end,
     n).
Proof.
  revert out variadic i; induction l as [|field l IH]; intros out variadic i Hn.
  - cbn [fold_left flat_map last length] in *. rewrite app_nil_r. do 2 f_equal. lia.
  - cbn [fold_left]. cbn [length] in Hn. rewrite IH by lia.
    cbn [flat_map]. rewrite <- app_assoc. f_equal. f_equal.
    destruct l as [|field' l].
    + cbn [last length] in *.
      destruct (Nat.eqb_spec i (n - 1)) as [_|Hne]; [reflexivity|lia].
    + change (last (field :: field' :: l)) with (last (field' :: l)).
      destruct (last (field' :: l)) eqn:Elast; [reflexivity|].
      apply last_None in Elast. discriminate.
Qed.

(** X11. Parameters and results are read alike: each group gives one
    entry per name, with the printed type of the group, or one unnamed
    entry when it has no name, in order.  A parameter list is variadic
    exactly when the type of its last group is an ellipsis. *)
Theorem parameters_read_like_results (params : ast.FieldList) :
  fst (parseParams printExpr params) = parseResults printExpr params /\
  parseResults printExpr params =
    flat_map (fun field =>
        match ast.Field_Names field with
        | [] => [mkParam "" (exprString printExpr (ast.Field_Type field))]
        | names =>
            map (fun name => mkParam name (exprString printExpr (ast.Field_Type field)))
                names
        end)
      (default [] params) /\
  snd (parseParams printExpr params) =
    match last (default [] params) with
    | Some field => isEllipsis (ast.Field_Type field)
    | None => false
    end.
Proof.
  destruct params as [[|field l]|]; [now repeat split| |now repeat split].
  pose proof (parseParams_loop (length (field :: l)) (field :: l) [] false 0 eq_refl)
    as Hloop.
  unfold parseParams, parseResults. cbv zeta in Hloop |- *. rewrite Hloop.
  cbn [fst snd app default]. repeat split.
Qed.

End Signatures.

(** ** Extraction: nothing lost, nothing twice *)

Section Conservation.

Context {order : MapRange}.
Variable printExpr : ast.Expr -> string.

(** The functions of a package record, free and bound. *)
Definition allFunctions (p : Package) : list Function :=
  Package_Functions p ++ flat_map Type_Methods (Package_Types p).

(** [t] is [t0] with methods appended. *)
Definition extendsMethods (t t0 : Type_) : Prop :=
  Type_Name t = Type_Name t0 /\ Type_Kind t = Type_Kind t0 /\
  Type_Exported t = Type_Exported t0 /\ Type_Doc t = Type_Doc t0 /\
  Type_TypeParams t = Type_TypeParams t0 /\ Type_Fields t = Type_Fields t0 /\
  Type_Embedded t = Type_Embedded t0 /\
  exists added, Type_Methods t = Type_Methods t0 ++ added.

Lemma alter_methods (b : Function) (idx : nat) (l : list Type_) :
  (idx < length l)%nat ->
  Permutation
    (flat_map Type_Methods
       (alter (fun t => Type_setMethods t (Type_Methods t ++ [b])) idx l))
    (flat_map Type_Methods l ++ [b]).
Proof.
  revert idx; induction l as [|t l IH]; intros idx Hlt; cbn [length] in Hlt; [lia|].
  destruct idx as [|idx].
  - cbn [alter list_alter flat_map Type_setMethods Type_Methods].
    rewrite <- !app_assoc. apply Permutation_app_head, Permutation_app_comm.
  - change (alter ?f (Datatypes.S idx) (t :: l)) with (t :: alter f idx l).
    cbn [flat_map]. rewrite IH by lia. now rewrite app_assoc.
Qed.

Lemma alter_names (b : Function) (idx : nat) (l : list Type_) :
  map Type_Name (alter (fun t => Type_setMethods t (Type_Methods t ++ [b])) idx l)
    = map Type_Name l.
Proof.
  revert idx; induction l as [|t l IH]; intros [|idx]; try reflexivity.
  change (alter ?f (Datatypes.S idx) (t :: l)) with (t :: alter f idx l).
  cbn [map]. now rewrite IH.
Qed.

Lemma bind_conserves (typesByName : gmap string nat) (funcs : list ast.FuncDecl)
    (p : Package) :
  (forall n, typesByName !! n = lastIndex n (map Type_Name (Package_Types p))) ->
  Permutation
    (allFunctions (fold_left (bindFunc printExpr typesByName) funcs p))
    (allFunctions p ++ map (boundFunction printExpr) funcs).
Proof.
  revert p; induction funcs as [|fn funcs IH]; intros p Hidx; cbn [fold_left map].
  - now rewrite app_nil_r.
  - rewrite (bindFunc_spec printExpr typesByName _ p fn Hidx).
    destruct (methodTarget (map Type_Name (Package_Types p)) fn) as [idx|] eqn:Etarget.
    + rewrite IH.
      * apply methodTarget_Some in Etarget as (_ & Hat & _).
        apply lookup_lt_Some in Hat. rewrite length_map in Hat.
        unfold allFunctions at 1.
        cbn [appendMethod Package_setTypes Package_Functions Package_Types].
        rewrite (alter_methods _ idx _ Hat). unfold allFunctions.
        rewrite <- !app_assoc. reflexivity.
      * cbn [appendMethod Package_setTypes Package_Types]. now rewrite alter_names.
    + rewrite IH by exact Hidx.
      unfold allFunctions.
      cbn [appendFunction Package_setFunctions Package_Functions Package_Types].
      rewrite <- !app_assoc. apply Permutation_app_head.
      rewrite (app_assoc [_]).
      rewrite (Permutation_app_comm [_] (flat_map _ _)). now rewrite <- app_assoc.
Qed.

(** X12. Extraction loses nothing and records nothing twice: the free
    functions of a package together with the methods of its types are,
    up to order, the methods written in its interface types and one
    record for each function declaration of its files.  The types are
    those of the type specs, one each and in the order of pass 1;
    binding only ever appends to their method lists. *)
Theorem declarations_conserved (pkgName importPath pkgDir : string)
    (fileNames : list string) (pkg : ast_Package) :
  let typeFiles := range rangeTypes (ast_Package_Files pkg) in
  let funcFiles := range rangeFuncs (ast_Package_Files pkg) in
  let out :=
    extractDecls printExpr (mkPackage pkgName importPath pkgDir fileNames [] []) pkg in
  Permutation
    (Package_Functions out ++ flat_map Type_Methods (Package_Types out))
    (flat_map Type_Methods (declaredTypes printExpr typeFiles)
     ++ map (boundFunction printExpr) (funcDecls funcFiles)) /\
  Forall2 extendsMethods (Package_Types out) (declaredTypes printExpr typeFiles).
Proof.
  intros typeFiles funcFiles out. split.
  - unfold out, extractDecls. fold typeFiles funcFiles.
    pose proof (pass1_spec printExpr (mkPackage pkgName importPath pkgDir fileNames [] [])
                  typeFiles eq_refl) as [Hfst Hidx].
    destruct (fold_left (declareFile printExpr) typeFiles _) as [pkgModel1 typesByName].
    cbn [fst snd] in Hfst, Hidx. subst pkgModel1.
    rewrite bindFile_funcs.
    exact (bind_conserves typesByName (funcDecls funcFiles)
             (Package_setTypes (mkPackage pkgName importPath pkgDir fileNames [] [])
                (declaredTypes printExpr typeFiles)) Hidx).
  - destruct (extractDecls_spec printExpr
                (mkPackage pkgName importPath pkgDir fileNames [] []) pkg eq_refl)
      as (_ & _ & _ & _ & _ & Hty).
    fold typeFiles funcFiles out in Hty. rewrite Hty.
    apply Forall2_same_length_lookup_2; [now rewrite length_imap|].
    intros i t t0. rewrite list_lookup_imap. intros Ht Ht0. rewrite Ht0 in Ht.
    injection Ht as <-. unfold extendsMethods. cbn [Type_setMethods Type_Name Type_Kind
      Type_Exported Type_Doc Type_TypeParams Type_Fields Type_Embedded Type_Methods].
    repeat split. eexists; reflexivity.
Qed.

End Conservation.

(** ** Canonicalizer: contents *)

Section SortContents.

Context {sorter : Sorter}.

Lemma sort_Strings_perm (l : list string) : Permutation (sort_Strings l) l.
Proof. apply sort_Slice_perm. Qed.

(** X13. Canonicalizing a package only reorders: name, import path and
    directory stay, the files and the free functions are permuted, and
    the types are the given ones permuted, each with its own name, kind,
    export flag, documentation and type parameters and with its fields,
    embedded names and methods permuted.  The functions and methods of
    the package taken together are the same before and after: nothing
    is added, dropped or merged, also among entries of equal name. *)
Theorem sortPackage_only_reorders (pk : Package) :
  Package_Name (sortPackage pk) = Package_Name pk /\
  Package_ImportPath (sortPackage pk) = Package_ImportPath pk /\
  Package_Dir (sortPackage pk) = Package_Dir pk /\
  Permutation (Package_Files (sortPackage pk)) (Package_Files pk) /\
  Permutation (Package_Functions (sortPackage pk)) (Package_Functions pk) /\
  Permutation (Package_Types (sortPackage pk)) (map sortType (Package_Types pk)) /\
  Permutation (allFunctions (sortPackage pk)) (allFunctions pk) /\
  forall t : Type_,
    Type_Name (sortType t) = Type_Name t /\
    Type_Kind (sortType t) = Type_Kind t /\
    Type_Exported (sortType t) = Type_Exported t /\
    Type_Doc (sortType t) = Type_Doc t /\
    Type_TypeParams (sortType t) = Type_TypeParams t /\
    Permutation (Type_Fields (sortType t)) (Type_Fields t) /\
    Permutation (Type_Embedded (sortType t)) (Type_Embedded t) /\
    Permutation (Type_Methods (sortType t)) (Type_Methods t).
Proof.
  split; [reflexivity|]. split; [reflexivity|]. split; [reflexivity|].
  split; [apply sort_Strings_perm|]. split; [apply sort_Slice_perm|].
  split; [apply Permutation_map, sort_Slice_perm|].
  split.
  - unfold allFunctions, sortPackage. cbn [Package_Functions Package_Types].
    apply Permutation_app; [apply sort_Slice_perm|].
    transitivity (flat_map Type_Methods (map sortType (Package_Types pk))).
    + apply Permutation_flat_map, Permutation_map, sort_Slice_perm.
    + induction (Package_Types pk) as [|t l IH]; [reflexivity|].
      cbn [map flat_map]. apply Permutation_app; [apply sort_Slice_perm|exact IH].
  - intros t. unfold sortType. cbn.
    repeat split; try apply sort_Slice_perm; apply sort_Strings_perm.
Qed.

End SortContents.

(** ** The packages of a directory *)

Section DirectoryPackages.

Context {sorter : Sorter} {order : MapRange}.
Variable printExpr : ast.Expr -> string.

Lemma moduleForDir_cached (fs : Node) (ml : moduleLocator) (dir : Path)
    (cached : option Module_) :
  ml !! dir = Some cached -> moduleForDir fs ml dir = (inr cached, ml).
Proof.
  intros Hc. unfold moduleForDir. rewrite moduleForDirUp_eq, rev_involutive.
  unfold Path in *. now rewrite Hc.
Qed.

Lemma moduleForDir_caches (fs : Node) (ml : moduleLocator) (dir : Path)
    (found : option Module_) :
  fst (moduleForDir fs ml dir) = inr found ->
  snd (moduleForDir fs ml dir) !! dir = Some found.
Proof.
  unfold moduleForDir. intros Hres.
  destruct (moduleForDirUp_memo fs (rev dir) ml) as (_ & _ & Hr).
  rewrite Hres, rev_involutive in Hr. exact Hr.
Qed.

(** The packages of the parsed files of a directory under the module
    [modl], in the order the loop of [parseDir] meets them. *)
Definition packagesOf (dir relBase : Path) (modl : option Module_)
    (parsed : list (string * ast_Package)) : list Package :=
  map (fun entry => packageOf printExpr dir relBase (fst entry) (snd entry) modl) parsed.

Lemma extractAll_cached (fs : Node) (ml : moduleLocator) (dir relBase : Path)
    (modl : option Module_) (parsed : list (string * ast_Package)) (out : list Package) :
  ml !! dir = Some modl ->
  extractAll printExpr fs ml dir relBase parsed out
    = (inr (out ++ packagesOf dir relBase modl parsed), ml).
Proof.
  intros Hc. revert out; induction parsed as [|[pkgName pkg] rest IH]; intros out;
    cbn [extractAll packagesOf map].
  - now rewrite app_nil_r.
  - unfold extractPackage. rewrite (moduleForDir_cached fs ml dir modl Hc).
    rewrite IH. unfold packagesOf. now rewrite <- app_assoc.
Qed.

Lemma extractAll_once (fs : Node) (ml : moduleLocator) (dir relBase : Path)
    (parsed : list (string * ast_Package)) :
  parsed <> [] ->
  extractAll printExpr fs ml dir relBase parsed [] =
    match moduleForDir fs ml dir with
    | (inl err, ml') => (inl err, ml')
    | (inr modl, ml') => (inr (packagesOf dir relBase modl parsed), ml')
    end.
Proof.
  destruct parsed as [|[pkgName pkg] rest]; [congruence|]. intros _.
  cbn [extractAll]. unfold extractPackage.
  pose proof (moduleForDir_caches fs ml dir) as Hcache.
  destruct (moduleForDir fs ml dir) as [[err|modl] ml']; [reflexivity|].
  cbn [fst snd] in Hcache.
  rewrite (extractAll_cached fs ml' dir relBase modl rest _ (Hcache modl eq_refl)).
  reflexivity.
Qed.

Lemma packageOf_header (dir relBase : Path) (pkgName : string) (pkg : ast_Package)
    (modl : option Module_) :
  Package_Name (packageOf printExpr dir relBase pkgName pkg modl) = pkgName /\
  Package_Dir (packageOf printExpr dir relBase pkgName pkg modl) = toRelPath relBase dir /\
  Package_ImportPath (packageOf printExpr dir relBase pkgName pkg modl)
    = importPathFor modl dir.
Proof.
  unfold packageOf.
  destruct (extractDecls_spec printExpr
              (mkPackage pkgName (importPathFor modl dir) (toRelPath relBase dir)
                 (packageFiles relBase dir pkg) [] []) pkg eq_refl)
    as (Hn & Hip & Hd & _).
  unfold sortPackage. cbn [Package_Name Package_Dir Package_ImportPath].
  now rewrite Hn, Hip, Hd.
Qed.

Lemma range_nonempty {A} (site : RangeSite) (m : gmap string A) :
  size m <> 0%nat -> range site m <> [].
Proof.
  intros Hsize Hnil. apply Hsize.
  rewrite <- length_map_to_list.
  unfold range in Hnil.
  rewrite <- (Permutation_length (rangeOrder_perm site _ _ (map_to_list m))).
  now rewrite Hnil.
Qed.

Lemma range_keys_NoDup {A} (site : RangeSite) (m : gmap string A) :
  NoDup (map fst (range site m)).
Proof.
  unfold range. rewrite (rangeOrder_perm site _ _ (map_to_list m)).
  apply NoDup_fst_map_to_list.
Qed.

(** [parseDir] succeeds with the packages of the parsed files under the
    module of a single lookup. *)
Lemma parseDir_success (fs : Node) (ml : moduleLocator) (dir : Path)
    (onlyFile : string) (relBase : Path) (opts : Options) (pkgs : list Package) :
  fst (parseDir printExpr fs ml dir onlyFile relBase opts) = inr pkgs ->
  exists modl,
    moduleForDir fs ml dir
      = (inr modl, snd (parseDir printExpr fs ml dir onlyFile relBase opts)) /\
    pkgs = packagesOf dir relBase modl
             (range rangeParsed (fst (ParseDir fs dir (fileFilter fs dir onlyFile opts)))) /\
    pkgs <> [].
Proof.
  unfold parseDir.
  destruct (ParseDir fs dir (fileFilter fs dir onlyFile opts))
    as [parsed [[notExist msg]|]]; cbn [fst snd].
  - destruct notExist; [discriminate|].
    destruct (strings.Contains msg "no Go files"); discriminate.
  - destruct (Nat.eqb_spec (size parsed) 0) as [|Hsize]; [discriminate|].
    pose proof (range_nonempty rangeParsed parsed Hsize) as Hne.
    rewrite (extractAll_once fs ml dir relBase (range rangeParsed parsed) Hne).
    destruct (moduleForDir fs ml dir) as [[err|modl] ml']; cbn [fst snd]; [discriminate|].
    intros [= <-]. exists modl. split; [reflexivity|]. split; [reflexivity|].
    unfold packagesOf. destruct (range rangeParsed parsed); [congruence|discriminate].
Qed.

(** X14. When a directory gives packages, it gives one for each package
    name found in its parsed files and no other, so no two have the
    same name and there is at least one; all of them carry the path of
    the directory relative to the base and the import path under the
    one module found for the directory.  The module is looked up once:
    the cache afterwards is that of a single lookup. *)
Theorem directory_packages (fs : Node) (ml : moduleLocator) (dir : Path)
    (onlyFile : string) (relBase : Path) (opts : Options) (pkgs : list Package) :
  fst (parseDir printExpr fs ml dir onlyFile relBase opts) = inr pkgs ->
  exists modl,
    moduleForDir fs ml dir
      = (inr modl, snd (parseDir printExpr fs ml dir onlyFile relBase opts)) /\
    pkgs = packagesOf dir relBase modl
             (range rangeParsed (fst (ParseDir fs dir (fileFilter fs dir onlyFile opts)))) /\
    pkgs <> [] /\
    NoDup (map Package_Name pkgs) /\
    Forall (fun pk => Package_Dir pk = toRelPath relBase dir /\
                      Package_ImportPath pk = importPathFor modl dir) pkgs.
Proof.
  intros Hres.
  destruct (parseDir_success fs ml dir onlyFile relBase opts pkgs Hres)
    as (modl & Hmod & Hpkgs & Hne).
  exists modl. split; [exact Hmod|]. split; [exact Hpkgs|]. split; [exact Hne|].
  rewrite Hpkgs. split.
  - assert (Hnames :
        map Package_Name
          (packagesOf dir relBase modl
             (range rangeParsed (fst (ParseDir fs dir (fileFilter fs dir onlyFile opts)))))
        = map fst (range rangeParsed (fst (ParseDir fs dir (fileFilter fs dir onlyFile opts))))).
    { unfold packagesOf. rewrite map_map. apply map_ext.
      intros [n p]. apply packageOf_header. }
    rewrite Hnames. apply range_keys_NoDup.
  - unfold packagesOf. apply List.Forall_forall. intros pk Hin.
    apply in_map_iff in Hin as ([n p] & <- & _).
    split; apply packageOf_header.
Qed.

End DirectoryPackages.

Definition subPackages : list Package :=
  match fst (@parseDir insertionSorter rangeForward printSimple sampleTree
               newModuleLocator ["root"; "sub"] "" ["root"] defaultOptions) with
  | inr pkgs => pkgs
  | inl _ => []
  end.

Lemma directory_packages_witness :
  fst (@parseDir insertionSorter rangeForward printSimple sampleTree
         newModuleLocator ["root"; "sub"] "" ["root"] defaultOptions) = inr subPackages /\
  subPackages <> [] /\
  NoDup (map Package_Name subPackages).
Proof.
  assert (H : fst (@parseDir insertionSorter rangeForward printSimple sampleTree
                     newModuleLocator ["root"; "sub"] "" ["root"] defaultOptions)
              = inr subPackages) by (vm_compute; reflexivity).
  split; [exact H|].
  destruct (@directory_packages insertionSorter rangeForward printSimple sampleTree
              newModuleLocator ["root"; "sub"] "" ["root"] defaultOptions subPackages H)
    as (modl & _ & _ & Hne & Hnd & _).
  split; [exact Hne|exact Hnd].
Defined.

(** ** A file that does not parse *)

Section ParseFailure.

Context {sorter : Sorter} {order : MapRange}.
Variable printExpr : ast.Expr -> string.

(** The error, if any, that a directory entry adds to the run of
    [parser.ParseDir]: that of a file with the source suffix which the
    filter lets through and which does not parse. *)
Definition parseFailure (filter : string -> bool) (entry : string * Node)
  : option (bool * string) :=
  if IsDir (snd entry) || negb (strings.HasSuffix (fst entry) ".go") then None
  else if negb (filter (fst entry)) then None
  else
    match nodeParsed (snd entry) with
    | ParseError notExist msg => Some (notExist, msg)
    | Parsed _ => None
    end.

Lemma parseEntry_failed (dir : Path) (filter : string -> bool) (es : list (string * Node))
    (pkgs : gmap string ast_Package) (first : bool * string) :
  snd (fold_left (parseEntry dir filter) es (pkgs, Some first)) = Some first.
Proof.
  revert pkgs; induction es as [|[name d] es IH]; intros pkgs; [reflexivity|].
  cbn [fold_left]. unfold parseEntry at 2.
  destruct (IsDir d || negb (strings.HasSuffix name ".go")); [apply IH|].
  destruct (negb (filter name)); [apply IH|].
  destruct (nodeParsed d); apply IH.
Qed.

Lemma parseEntry_first (dir : Path) (filter : string -> bool)
    (before after : list (string * Node)) (entry : string * Node)
    (pkgs : gmap string ast_Package) (failure : bool * string) :
  Forall (fun e => parseFailure filter e = None) before ->
  parseFailure filter entry = Some failure ->
  snd (fold_left (parseEntry dir filter) (before ++ entry :: after) (pkgs, None))
    = Some failure.
Proof.
  intros Hbefore Hentry. revert pkgs.
  induction Hbefore as [|[name d] before Hhead _ IH]; intros pkgs.
  - destruct entry as [name d]. cbn [app fold_left]. unfold parseEntry at 2.
    unfold parseFailure in Hentry. cbn [fst snd] in Hentry.
    destruct (IsDir d || negb (strings.HasSuffix name ".go")); [discriminate|].
    destruct (negb (filter name)); [discriminate|].
    destruct (nodeParsed d) as [notExist msg|src]; [|discriminate].
    injection Hentry as <-. apply parseEntry_failed.
  - cbn [app fold_left]. unfold parseEntry at 2.
    unfold parseFailure in Hhead. cbn [fst snd] in Hhead.
    destruct (IsDir d || negb (strings.HasSuffix name ".go")); [apply IH|].
    destruct (negb (filter name)); [apply IH|].
    destruct (nodeParsed d) as [notExist msg|src]; [discriminate|apply IH].
Qed.

(** X15. One file that does not parse fails its whole directory: when
    among the source files that pass the filter the first, in directory
    order, that does not parse reports [msg], the directory gives no
    package at all, whatever its other files hold, and leaves the
    module cache as it was.  The error is the parse error of that file,
    which ends a walk, unless the file is reported missing or the
    message contains [no Go files]: then it is the internal no-sources
    error, and a walk passes the directory over in silence. *)
Theorem unparsable_file_fails_directory (fs : Node) (ml : moduleLocator) (dir : Path)
    (onlyFile : string) (relBase : Path) (opts : Options)
    (before after : list (string * Node)) (entry : string * Node)
    (notExist : bool) (msg : string)
    (excluded : gset string) (pkgs : list Package) :
  fs_lookup fs dir = Some (DirNode (before ++ entry :: after)) ->
  Forall (fun e => parseFailure (fileFilter fs dir onlyFile opts) e = None) before ->
  parseFailure (fileFilter fs dir onlyFile opts) entry = Some (notExist, msg) ->
  parseDir printExpr fs ml dir onlyFile relBase opts
    = (inl (if notExist || strings.Contains msg "no Go files"
            then errNoGoFiles else errParseDir dir msg), ml) /\
  (List.last dir "/" ∉ excluded ->
   onlyFile = "" ->
   walkFn printExpr fs excluded relBase opts dir (List.last dir "/") true (pkgs, ml)
     = (if notExist || strings.Contains msg "no Go files"
        then walkNil else walkFail (errParseDir dir msg), (pkgs, ml))).
Proof.
  intros Hdir Hbefore Hentry.
  assert (Hparse : forall onlyFile',
             onlyFile' = onlyFile ->
             parseDir printExpr fs ml dir onlyFile' relBase opts
             = (inl (if notExist || strings.Contains msg "no Go files"
                     then errNoGoFiles else errParseDir dir msg), ml)).
  { intros ? ->. unfold parseDir, ParseDir. rewrite Hdir.
    pose proof (parseEntry_first dir (fileFilter fs dir onlyFile opts) before after entry
                  ∅ (notExist, msg) Hbefore Hentry) as Hfirst.
    destruct (fold_left _ _ _) as [parsed first]. cbn [snd] in Hfirst. subst first.
    destruct notExist; [reflexivity|]. cbn [orb].
    now destruct (strings.Contains msg "no Go files"). }
  split; [now apply Hparse|].
  intros Hname Honly. unfold walkFn. cbn [negb].
  rewrite bool_decide_eq_false_2 by exact Hname.
  rewrite (Hparse "" (eq_sym Honly)).
  destruct (notExist || strings.Contains msg "no Go files"); reflexivity.
Qed.

End ParseFailure.

Definition brokenFile : Node :=
  FileNode (Scanned ["package sample"; "func"] false)
           (ParseError false "expected 'IDENT', found 'EOF'").

(** A directory with a source file that parses and one that does not. *)
Definition brokenTree : Node :=
  DirNode
    [("p",
      DirNode
        [("a.go", plainFile ["package sample"] boxFile);
         ("b.go", brokenFile)])].

Lemma unparsable_file_fails_directory_witness :
  fs_lookup brokenTree ["p"]
    = Some (DirNode ([("a.go", plainFile ["package sample"] boxFile)]
                     ++ ("b.go", brokenFile) :: [])) /\
  parseFailure (fileFilter brokenTree ["p"] "" defaultOptions) ("b.go", brokenFile)
    = Some (false, "expected 'IDENT', found 'EOF'") /\
  @parseDir insertionSorter rangeForward printSimple brokenTree newModuleLocator
     ["p"] "" ["p"] defaultOptions
    = (inl (errParseDir ["p"] "expected 'IDENT', found 'EOF'"), newModuleLocator).
Proof.
  assert (Hdir : fs_lookup brokenTree ["p"]
                 = Some (DirNode ([("a.go", plainFile ["package sample"] boxFile)]
                                  ++ ("b.go", brokenFile) :: []))) by reflexivity.
  assert (Hbefore : Forall (fun e => parseFailure
                              (fileFilter brokenTree ["p"] "" defaultOptions) e = None)
                      [("a.go", plainFile ["package sample"] boxFile)]).
  { constructor; [vm_compute; reflexivity|constructor]. }
  assert (Hentry : parseFailure (fileFilter brokenTree ["p"] "" defaultOptions)
                     ("b.go", brokenFile)
                   = Some (false, "expected 'IDENT', found 'EOF'"))
    by (vm_compute; reflexivity).
  split; [exact Hdir|]. split; [exact Hentry|].
  exact (proj1 (@unparsable_file_fails_directory insertionSorter rangeForward printSimple
                  brokenTree newModuleLocator ["p"] "" ["p"] defaultOptions
                  _ [] _ false _ ∅ [] Hdir Hbefore Hentry)).
Defined.

(** ** The directory and the files of a package *)

Section PackageFiles.

Context {sorter : Sorter} {order : MapRange}.
Variable printExpr : ast.Expr -> string.

(** What [parser.ParseDir] keeps of a directory: each package under its
    own name, with at least one file, and each of its files under the
    path of a directory entry that is no directory, passed the filter
    and parsed with the package's name in its clause. *)
Definition parsedFrom (dir : Path) (filter : string -> bool) (es : list (string * Node))
    (pkgs : gmap string ast_Package) : Prop :=
  forall pname pkg, pkgs !! pname = Some pkg ->
    ast_Package_Name pkg = pname /\
    ast_Package_Files pkg <> ∅ /\
    forall path f, ast_Package_Files pkg !! path = Some f ->
      exists name d,
        In (name, d) es /\ path = filepath.Join dir [name] /\
        IsDir d = false /\ filter name = true /\
        nodeParsed d = Parsed f /\ ast.File_Name f = pname.

Lemma parseEntry_parsedFrom (dir : Path) (filter : string -> bool)
    (es l : list (string * Node)) (acc : gmap string ast_Package * option (bool * string)) :
  (forall e, In e l -> In e es) ->
  parsedFrom dir filter es (fst acc) ->
  parsedFrom dir filter es (fst (fold_left (parseEntry dir filter) l acc)).
Proof.
  revert acc; induction l as [|[name d] l IH]; intros acc Hsub Hacc; [exact Hacc|].
  cbn [fold_left]. apply IH; [intros e He; apply Hsub; now right|].
  destruct acc as [pkgs first]. unfold parseEntry.
  destruct (IsDir d) eqn:Edir; cbn [orb]; [exact Hacc|].
  destruct (negb (strings.HasSuffix name ".go")); [exact Hacc|].
  destruct (filter name) eqn:Efilter; cbn [negb]; [|exact Hacc].
  destruct (nodeParsed d) as [notExist msg|src] eqn:Eparsed; [exact Hacc|].
  cbn [fst] in *. intros pname pkg.
  destruct (decide (ast.File_Name src = pname)) as [<-|Hne].
  - rewrite lookup_insert_eq. intros [= <-]. cbn [ast_Package_Name ast_Package_Files].
    split; [|split].
    + destruct (pkgs !! ast.File_Name src) as [pkg0|] eqn:Epkg0; [|reflexivity].
      apply (Hacc _ _ Epkg0).
    + apply insert_non_empty.
    + intros path f. destruct (decide (filepath.Join dir [name] = path)) as [<-|Hnp].
      * rewrite lookup_insert_eq. intros [= <-]. exists name, d.
        repeat split; try assumption; try reflexivity. apply Hsub. now left.
      * rewrite lookup_insert_ne by exact Hnp.
        destruct (pkgs !! ast.File_Name src) as [pkg0|] eqn:Epkg0.
        -- apply (Hacc _ _ Epkg0).
        -- cbn [ast_Package_Files]. now rewrite lookup_empty.
  - rewrite lookup_insert_ne by exact Hne. apply Hacc.
Qed.

Lemma ParseDir_parsedFrom (fs : Node) (dir : Path) (filter : string -> bool)
    (pname : string) (pkg : ast_Package) :
  fst (ParseDir fs dir filter) !! pname = Some pkg ->
  exists es, fs_lookup fs dir = Some (DirNode es) /\
             parsedFrom dir filter es (fst (ParseDir fs dir filter)).
Proof.
  unfold ParseDir.
  destruct (fs_lookup fs dir) as [[content parsed|es]|] eqn:Elookup;
    cbn [fst]; try (now rewrite lookup_empty).
  intros _. exists es. split; [reflexivity|].
  apply parseEntry_parsedFrom; [auto|].
  intros pn pk. cbn [fst]. now rewrite lookup_empty.
Qed.

Lemma range_length `{Countable K} {A} (site : RangeSite) (m : gmap K A) :
  length (range site m) = size m.
Proof.
  unfold range. rewrite (Permutation_length (rangeOrder_perm site _ _ (map_to_list m))).
  apply length_map_to_list.
Qed.

Lemma range_In `{Countable K} {A} (site : RangeSite) (m : gmap K A) (k : K) (v : A) :
  In (k, v) (range site m) -> m !! k = Some v.
Proof.
  unfold range. intros Hin. apply elem_of_map_to_list.
  apply list_elem_of_In. eapply Permutation_in; [apply rangeOrder_perm|exact Hin].
Qed.

Lemma toRelPath_below (relBase rel : Path) :
  toRelPath relBase (relBase ++ rel)
    = if decide (rel = []) then "." else strings.Join rel "/".
Proof. unfold toRelPath. now rewrite Rel_below. Qed.

(** The directory and the files of the package of the files [pkg] that
    [parser.ParseDir] keeps under [pname] for the directory [rel] below
    the base. *)
Lemma packageOf_shape (fs : Node) (relBase rel : Path) (filter : string -> bool)
    (pname : string) (pkg : ast_Package) (modl : option Module_) :
  fst (ParseDir fs (relBase ++ rel) filter) !! pname = Some pkg ->
  Package_Name (packageOf printExpr (relBase ++ rel) relBase pname pkg modl) = pname /\
  Package_Dir (packageOf printExpr (relBase ++ rel) relBase pname pkg modl)
    = (if decide (rel = []) then "." else strings.Join rel "/") /\
  Package_Files (packageOf printExpr (relBase ++ rel) relBase pname pkg modl) <> [] /\
  exists es,
    fs_lookup fs (relBase ++ rel) = Some (DirNode es) /\
    forall file,
      In file (Package_Files (packageOf printExpr (relBase ++ rel) relBase pname pkg modl)) ->
      exists name d f,
        In (name, d) es /\ IsDir d = false /\ filter name = true /\
        nodeParsed d = Parsed f /\ ast.File_Name f = pname /\
        file = strings.Join (rel ++ (relBase ++ rel) ++ [name]) "/".
Proof.
  intros Hin.
  destruct (ParseDir_parsedFrom fs (relBase ++ rel) _ pname pkg Hin)
    as (es & Hdir & Hfrom).
  destruct (Hfrom pname pkg Hin) as (_ & Hfiles & Hkeys).
  destruct (packageOf_header printExpr (relBase ++ rel) relBase pname pkg modl)
    as (Hname & Hd & _).
  rewrite Hname, Hd, toRelPath_below. split; [reflexivity|]. split; [reflexivity|].
  assert (Hlist : Permutation
            (Package_Files (packageOf printExpr (relBase ++ rel) relBase pname pkg modl))
            (map (fun file => toRelPath relBase (filepath.Join (relBase ++ rel) (fst file)))
                 (range rangeFiles (ast_Package_Files pkg)))).
  { unfold packageOf, sortPackage. cbn [Package_Files].
    destruct (extractDecls_spec printExpr
                (mkPackage pname (importPathFor modl (relBase ++ rel))
                   (toRelPath relBase (relBase ++ rel))
                   (packageFiles relBase (relBase ++ rel) pkg) [] []) pkg eq_refl)
      as (_ & _ & _ & -> & _).
    cbn [Package_Files]. unfold packageFiles, sort_Strings.
    etransitivity; apply sort_Slice_perm. }
  split.
  - intros Hnil. rewrite Hnil in Hlist. apply Permutation_nil in Hlist.
    apply map_eq_nil in Hlist. apply Hfiles. apply map_size_empty_iff.
    rewrite <- (range_length rangeFiles), Hlist. reflexivity.
  - exists es. split; [exact Hdir|]. intros file Hfile.
    eapply Permutation_in in Hfile; [|exact Hlist].
    apply in_map_iff in Hfile as ([path f] & <- & Hpath). cbn [fst].
    apply range_In in Hpath.
    destruct (Hkeys path f Hpath)
      as (name & d & Hentry & -> & Hnodir & Hfilter & Hparsed & Hclause).
    exists name, d, f. repeat split; try assumption.
    unfold filepath.Join. rewrite <- (app_assoc relBase rel).
    unfold toRelPath. rewrite Rel_below.
    rewrite decide_False; [now rewrite <- !app_assoc|].
    destruct rel; cbn; [destruct relBase|]; discriminate.
Qed.

(** X16. A package found in the directory [rel] below the base carries
    as its directory the slash path [rel], a dot for the base itself.
    It lists at least one file, and each file it lists belongs to a
    directory entry that is no directory, passed the filter and parsed
    with the package's name in its clause.  The path listed is not the
    file's path below the base: the directory is joined onto the full
    path under which the parser keeps the file, so the entry reads
    [rel], then the whole path of the directory, then the file name. *)
Theorem package_directory_and_files (fs : Node) (ml : moduleLocator)
    (relBase rel : Path) (onlyFile : string) (opts : Options)
    (pkgs : list Package) (pk : Package) :
  fst (parseDir printExpr fs ml (relBase ++ rel) onlyFile relBase opts) = inr pkgs ->
  In pk pkgs ->
  Package_Dir pk = (if decide (rel = []) then "." else strings.Join rel "/") /\
  Package_Files pk <> [] /\
  exists es,
    fs_lookup fs (relBase ++ rel) = Some (DirNode es) /\
    forall file, In file (Package_Files pk) ->
      exists name d f,
        In (name, d) es /\ IsDir d = false /\
        fileFilter fs (relBase ++ rel) onlyFile opts name = true /\
        nodeParsed d = Parsed f /\ ast.File_Name f = Package_Name pk /\
        file = strings.Join (rel ++ (relBase ++ rel) ++ [name]) "/".
Proof.
  intros Hres Hin.
  destruct (parseDir_success printExpr fs ml (relBase ++ rel) onlyFile relBase opts pkgs
              Hres) as (modl & _ & -> & _).
  unfold packagesOf in Hin. apply in_map_iff in Hin as ([pname pkg] & <- & Hin).
  cbn [fst snd]. apply range_In in Hin.
  destruct (packageOf_shape fs relBase rel _ pname pkg modl Hin)
    as (Hname & Hd & Hne & es & Hdir & Hfiles).
  split; [exact Hd|]. split; [exact Hne|].
  exists es. split; [exact Hdir|]. rewrite Hname. exact Hfiles.
Qed.

(** X17. What a run settles before it looks at any source file: without
    a node at the root it fails with the stat error; otherwise the
    module of the base directory (the root, or the directory of a root
    that is a file) is looked up, and an error there is the error of
    the run whatever the options.  A model, when one is given, carries
    the time of the run, the root as given and that module. *)
Theorem Generate_header (now : Z) (fs : Node) (root : Path) (opts : Options) :
  match fs_lookup fs root with
  | None => Generate printExpr now fs root opts = inl (errStatRoot root)
  | Some rootInfo =>
      match locate fs (if IsDir rootInfo then root else filepath.Dir root) with
      | inl err => Generate printExpr now fs root opts = inl err
      | inr modl =>
          match Generate printExpr now fs root opts with
          | inr m =>
              Model_GeneratedAt m = now /\ Model_Root m = root /\ Model_Module m = modl
          | inl _ => True
          end
      end
  end.
Proof.
  unfold Generate. destruct (fs_lookup fs root) as [rootInfo|]; [|reflexivity].
  destruct (IsDir rootInfo); cbn [negb].
  - destruct (moduleForDir_locate fs newModuleLocator root (cacheOK_empty fs))
      as [Hloc _].
    destruct (moduleForDir fs newModuleLocator root) as [[err|modl] ml];
      cbn [fst] in Hloc; rewrite <- Hloc; [reflexivity|].
    destruct (collectPackages _ _ _ _ _ _ _ _); [trivial|now repeat split].
  - destruct (moduleForDir_locate fs newModuleLocator (filepath.Dir root)
                (cacheOK_empty fs)) as [Hloc _].
    destruct (moduleForDir fs newModuleLocator (filepath.Dir root)) as [[err|modl] ml];
      cbn [fst] in Hloc; rewrite <- Hloc; [reflexivity|].
    destruct (collectPackages _ _ _ _ _ _ _ _); [trivial|now repeat split].
Qed.

(** X18. The paths in a model.  Each package of a model comes from a
    directory [rel] below the base directory, with no excluded name on
    the way and [rel] empty when the root is a file.  Its directory
    field is the slash path [rel], a dot for the base directory itself;
    it lists at least one file, and each entry is [rel], then the whole
    path of the package's directory, then the name of a file that
    passed the filter, joined by slashes. *)
Theorem model_package_paths (now : Z) (fs : Node) (root : Path) (opts : Options)
    (m : Model) (pk : Package) :
  Generate printExpr now fs root opts = inr m ->
  In pk (Model_Packages m) ->
  exists (rootInfo : Node) (rel : Path),
    fs_lookup fs root = Some rootInfo /\
    let baseDir := if IsDir rootInfo then root else filepath.Dir root in
    let onlyFile := if IsDir rootInfo then "" else filepath.Base root in
    (IsDir rootInfo = false -> rel = []) /\
    Forall (fun n => n ∉ excludedNames opts) rel /\
    Package_Dir pk = (if decide (rel = []) then "." else strings.Join rel "/") /\
    Package_Files pk <> [] /\
    forall file, In file (Package_Files pk) ->
      exists name,
        fileFilter fs (baseDir ++ rel) onlyFile (withDefaults opts) name = true /\
        file = strings.Join (rel ++ (baseDir ++ rel) ++ [name]) "/".
Proof.
  intros Hgen Hin.
  destruct (Generate_packages printExpr now fs root opts m Hgen) as [Horigin _].
  eapply List.Forall_forall in Horigin; [|exact Hin].
  unfold packageOrigin in Horigin.
  destruct (fs_lookup fs root) as [[content parsed|es]|] eqn:Eroot; [| |contradiction].
  - exists (FileNode content parsed), []. split; [reflexivity|]. cbn [IsDir].
    destruct Horigin as (pname & pkg & modl & Hparsed & _ & ->).
    rewrite <- (app_nil_r (filepath.Dir root)) in Hparsed.
    destruct (packageOf_shape fs (filepath.Dir root) [] _ pname pkg modl Hparsed)
      as (_ & Hd & Hne & es' & _ & Hfiles).
    rewrite !app_nil_r in *.
    split; [reflexivity|]. split; [constructor|]. split; [exact Hd|]. split; [exact Hne|].
    intros file Hfile. destruct (Hfiles file Hfile) as (name & d & f & _ & _ & Hf & _ & _ & E).
    exists name. split; [exact Hf|exact E].
  - exists (DirNode es). destruct Horigin as (rel & Hrel & pname & pkg & modl & Hparsed & _ & ->).
    exists rel. split; [reflexivity|]. cbn [IsDir].
    destruct (packageOf_shape fs root rel _ pname pkg modl Hparsed)
      as (_ & Hd & Hne & es' & _ & Hfiles).
    split; [discriminate|]. split; [now inversion Hrel|].
    split; [exact Hd|]. split; [exact Hne|].
    intros file Hfile. destruct (Hfiles file Hfile) as (name & d & f & _ & _ & Hf & _ & _ & E).
    exists name. split; [exact Hf|exact E].
Qed.

End PackageFiles.

Definition subPackage : Package :=
  List.hd (mkPackage "" "" "" [] [] []) subPackages.

Lemma package_directory_and_files_witness :
  fst (@parseDir insertionSorter rangeForward printSimple sampleTree
         newModuleLocator (["root"] ++ ["sub"]) "" ["root"] defaultOptions)
    = inr subPackages /\
  In subPackage subPackages /\
  Package_Dir subPackage = "sub" /\
  Package_Files subPackage <> [].
Proof.
  assert (Hres : fst (@parseDir insertionSorter rangeForward printSimple sampleTree
                        newModuleLocator (["root"] ++ ["sub"]) "" ["root"] defaultOptions)
                 = inr subPackages) by (vm_compute; reflexivity).
  assert (Hin : In subPackage subPackages) by (vm_compute; left; reflexivity).
  split; [exact Hres|]. split; [exact Hin|].
  destruct (@package_directory_and_files insertionSorter rangeForward printSimple
              sampleTree newModuleLocator ["root"] ["sub"] "" defaultOptions
              subPackages subPackage Hres Hin) as (Hdir & Hfiles & _).
  split; [exact Hdir|exact Hfiles].
Defined.

Example sample_file_entry : Package_Files subPackage = ["sub/root/sub/box.go"].
Proof. vm_compute. reflexivity. Qed.

Lemma model_package_paths_witness :
  GenerateSample ["root"] = inr (modelOf (GenerateSample ["root"])) /\
  In subPackage (Model_Packages (modelOf (GenerateSample ["root"]))) /\
  Package_Files subPackage <> [].
Proof.
  assert (Hrun : GenerateSample ["root"] = inr (modelOf (GenerateSample ["root"])))
    by (vm_compute; reflexivity).
  assert (Hin : In subPackage (Model_Packages (modelOf (GenerateSample ["root"]))))
    by (vm_compute; left; reflexivity).
  split; [exact Hrun|]. split; [exact Hin|].
  destruct (@model_package_paths insertionSorter rangeForward printSimple 0%Z
              sampleTree ["root"] defaultOptions _ subPackage Hrun Hin)
    as (rootInfo & rel & _ & _ & _ & _ & Hne & _).
  exact Hne.
Defined.

(** ** What a run uses of its options *)

Section OptionsUsed.

Context {sorter : Sorter} {order : MapRange}.
Variable printExpr : ast.Expr -> string.

Lemma withDefaults_flags (o : Options) :
  IncludeTests (withDefaults o) = IncludeTests o /\
  IncludeGenerated (withDefaults o) = IncludeGenerated o.
Proof.
  destruct o as [tests generated excl indent]. unfold withDefaults.
  cbn [ExcludeDirNames Indent IncludeTests IncludeGenerated].
  destruct (length excl =? 0)%nat;
    cbn [ExcludeDirNames Indent IncludeTests IncludeGenerated];
    destruct (String.eqb indent ""); split; reflexivity.
Qed.

Lemma collectPackages_options (fs : Node) (ml : moduleLocator) (rootAbs baseDir : Path)
    (onlyFile : string) (rootInfo : Node) (tests generated : bool)
    (excl1 excl2 : list string) (indent1 indent2 : string) :
  (forall n, In n excl1 <-> In n excl2) ->
  collectPackages printExpr fs ml rootAbs baseDir onlyFile rootInfo
    (mkOptions tests generated excl1 indent1)
  = collectPackages printExpr fs ml rootAbs baseDir onlyFile rootInfo
      (mkOptions tests generated excl2 indent2).
Proof.
  intros Hsame.
  assert (Hset : (list_to_set excl1 : gset string) = list_to_set excl2).
  { apply set_eq. intros n. rewrite !elem_of_list_to_set, !list_elem_of_In. apply Hsame. }
  unfold collectPackages. cbn [ExcludeDirNames]. rewrite Hset. reflexivity.
Qed.

(** X19. A run uses of its options the two inclusion flags and the
    exclusion list in force, and the list only as a set: options that
    agree on the flags and on which names are excluded, after the
    defaults are filled in, give the same result, whatever the order
    and the repetitions in the lists and whatever the indentation. *)
Theorem Generate_uses_flags_and_excluded_set (now : Z) (fs : Node) (root : Path)
    (opts opts' : Options) :
  IncludeTests opts = IncludeTests opts' ->
  IncludeGenerated opts = IncludeGenerated opts' ->
  (forall n, In n (ExcludeDirNames (withDefaults opts)) <->
             In n (ExcludeDirNames (withDefaults opts'))) ->
  Generate printExpr now fs root opts = Generate printExpr now fs root opts'.
Proof.
  intros Htests Hgen Hsame. unfold Generate.
  destruct (withDefaults_flags opts) as [Ht Hg].
  destruct (withDefaults_flags opts') as [Ht' Hg'].
  rewrite <- Ht, <- Ht' in Htests. rewrite <- Hg, <- Hg' in Hgen.
  destruct (withDefaults opts) as [tests generated excl indent].
  destruct (withDefaults opts') as [tests' generated' excl' indent'].
  cbn [IncludeTests IncludeGenerated ExcludeDirNames] in *. subst tests' generated'.
  destruct (fs_lookup fs root) as [rootInfo|]; [|reflexivity].
  destruct (negb (IsDir rootInfo)).
  - destruct (moduleForDir fs newModuleLocator (filepath.Dir root)) as [[err|modl] ml];
      [reflexivity|].
    now rewrite (collectPackages_options fs ml root (filepath.Dir root)
                   (filepath.Base root) rootInfo tests generated excl excl'
                   indent indent' Hsame).
  - destruct (moduleForDir fs newModuleLocator root) as [[err|modl] ml]; [reflexivity|].
    now rewrite (collectPackages_options fs ml root root "" rootInfo tests generated
                   excl excl' indent indent' Hsame).
Qed.

End OptionsUsed.

(** The default exclusion list in another order, with a name twice, and
    another indentation. *)
Definition shuffledOptions : Options :=
  mkOptions false false
    ["vendor"; "testdata"; "node_modules"; ".vscode"; ".idea"; ".git"; "vendor"] "    ".

Lemma Generate_uses_flags_and_excluded_set_witness :
  (forall n, In n (ExcludeDirNames (withDefaults defaultOptions)) <->
             In n (ExcludeDirNames (withDefaults shuffledOptions))) /\
  GenerateSample ["root"] =
    @Generate insertionSorter rangeForward printSimple 0%Z sampleTree ["root"]
      shuffledOptions.
Proof.
  assert (Hsame : forall n,
            In n (ExcludeDirNames (withDefaults defaultOptions)) <->
            In n (ExcludeDirNames (withDefaults shuffledOptions)))
    by (intros n; cbn; tauto).
  split; [exact Hsame|].
  exact (@Generate_uses_flags_and_excluded_set insertionSorter rangeForward printSimple
           0%Z sampleTree ["root"] defaultOptions shuffledOptions eq_refl eq_refl Hsame).
Defined.

(** ** Interface types *)

Section InterfaceMembers.

Variable printExpr : ast.Expr -> string.

(** The method record of one member of an interface type: of a member
    with exactly one name and a function type. *)
Definition methodOfMember (field : ast.Field) : list Function :=
  match ast.Field_Names field, ast.Field_Type field with
  | [name], Some (ast.FuncType typeParams params results) =>
      [mkFunction name (ast.IsExported name)
         (docText (ast.Field_Doc field) (ast.Field_Comment field) false) ""
         (parseTypeParams printExpr typeParams)
         (fst (parseParams printExpr params))
         (parseResults printExpr results)
         (snd (parseParams printExpr params))]
  | _, _ => []
  end.

Definition unnamedMember (field : ast.Field) : bool :=
  match ast.Field_Names field with
  | [] => true
  | _ => false
  end.

Lemma parseInterfaceMethods_loop (l : list ast.Field) (out : list Function)
    (emb : list string) :
  fold_left (fun '(out, embedded) field =>
      match ast.Field_Names field with
      | [] => (out, embedded ++ [exprString printExpr (ast.Field_Type field)])
      | [name] =>
          match ast.Field_Type field with
          | Some (ast.FuncType typeParams params results) =>
              let '(ps, variadic) := parseParams printExpr params in
              let fnModel :=
                mkFunction name (ast.IsExported name)
                  (docText (ast.Field_Doc field) (ast.Field_Comment field) false)
                  "" (parseTypeParams printExpr typeParams) ps
                  (parseResults printExpr results) variadic in
              (out ++ [fnModel], embedded)
          | _ => (out, embedded)
          end
      | _ => (out, embedded)
      end) l (out, emb)
  = (out ++ flat_map methodOfMember l,
     emb ++ map (fun field => exprString printExpr (ast.Field_Type field))
                (List.filter unnamedMember l)).
Proof.
  revert out emb; induction l as [|field l IH]; intros out emb.
  - cbn. now rewrite !app_nil_r.
  - cbn [fold_left flat_map List.filter]. unfold methodOfMember at 1, unnamedMember at 1.
    destruct (ast.Field_Names field) as [|name [|name' names]].
    + rewrite IH. cbn [map app]. now rewrite <- app_assoc.
    + destruct (ast.Field_Type field) as [[]|]; try (rewrite IH; reflexivity).
      destruct (parseParams printExpr _) as [ps variadic]. cbn [fst snd].
      rewrite IH. now rewrite <- app_assoc.
    + destruct (ast.Field_Type field) as [[]|]; rewrite IH; reflexivity.
Qed.

Lemma parseInterfaceMethods_members (methods : ast.FieldList) :
  parseInterfaceMethods printExpr methods
  = (flat_map methodOfMember (default [] methods),
     map (fun field => exprString printExpr (ast.Field_Type field))
         (List.filter unnamedMember (default [] methods))).
Proof.
  destruct methods as [[|field l]|]; try reflexivity.
  unfold parseInterfaceMethods.
  exact (parseInterfaceMethods_loop (field :: l) [] []).
Qed.

(** X20. The members of an interface type: a member without a name is
    an embedded type and gives its printed type, in order; a member
    with exactly one name and a function type gives a method, with its
    signature read as that of a function, in order; any other member
    gives nothing.  A method of an interface never has a receiver, and
    a member is never both a method and an embedded type. *)
Theorem interface_members (methods : ast.FieldList) :
  fst (parseInterfaceMethods printExpr methods)
    = flat_map methodOfMember (default [] methods) /\
  snd (parseInterfaceMethods printExpr methods)
    = map (fun field => exprString printExpr (ast.Field_Type field))
          (List.filter unnamedMember (default [] methods)) /\
  Forall (fun fn => Function_Receiver fn = "")
         (fst (parseInterfaceMethods printExpr methods)) /\
  (length (fst (parseInterfaceMethods printExpr methods))
   + length (snd (parseInterfaceMethods printExpr methods))
   <= length (default [] methods))%nat.
Proof.
  rewrite parseInterfaceMethods_members. cbn [fst snd].
  split; [reflexivity|]. split; [reflexivity|].
  generalize (default [] methods) as l. intros l. split.
  - apply List.Forall_forall. intros fn Hin.
    apply in_flat_map in Hin as (field & _ & Hin). unfold methodOfMember in Hin.
    destruct (ast.Field_Names field) as [|name [|name' names]]; try contradiction.
    destruct (ast.Field_Type field) as [[]|]; try contradiction.
    destruct Hin as [<-|[]]. reflexivity.
  - induction l as [|field l IH]; [cbn; lia|].
    cbn [flat_map List.filter length]. rewrite length_app.
    unfold methodOfMember at 1, unnamedMember at 1.
    destruct (ast.Field_Names field) as [|name [|name' names]]; cbn [length map];
      try lia.
    destruct (ast.Field_Type field) as [[]|]; cbn [length]; lia.
Qed.

End InterfaceMembers.

(** ** Documentation strings *)

Section Documentation.

Context {sorter : Sorter} {order : MapRange}.
Variable printExpr : ast.Expr -> string.

Definition functionDocsTrimmed (fns : list Function) : Prop :=
  Forall (fun fn => trimmed (Function_Doc fn)) fns.

Definition docsTrimmed (pk : Package) : Prop :=
  functionDocsTrimmed (Package_Functions pk) /\
  Forall (fun t => trimmed (Type_Doc t) /\ functionDocsTrimmed (Type_Methods t))
         (Package_Types pk).

Lemma docText_trimmed (primary fallback : option ast.CommentGroup) (allowed : bool) :
  trimmed (docText primary fallback allowed).
Proof.
  unfold docText.
  destruct primary; [apply TrimSpace_trimmed|].
  destruct fallback; [|now split].
  destruct allowed; [apply TrimSpace_trimmed|now split].
Qed.

Lemma boundFunction_trimmed (fn : ast.FuncDecl) :
  trimmed (Function_Doc (boundFunction printExpr fn)).
Proof.
  unfold boundFunction, functionOfDecl.
  destruct (parseParams printExpr _) as [ps variadic].
  destruct (ast.FuncDecl_Recv fn) as [[|recv recvs]|];
    cbn [Function_setReceiver Function_Doc]; apply docText_trimmed.
Qed.

Lemma typeOfSpec_trimmed (gen : ast.GenDecl) (ts : ast.TypeSpec) :
  trimmed (Type_Doc (typeOfSpec printExpr gen ts)) /\
  functionDocsTrimmed (Type_Methods (typeOfSpec printExpr gen ts)).
Proof.
  unfold typeOfSpec, functionDocsTrimmed.
  destruct (ast.TypeSpec_Type ts) as [| | | | | | | | | |fields|methods| |];
    try (cbn [Type_Doc Type_Methods]; split; [apply docText_trimmed|constructor]).
  - destruct (parseStructFields printExpr fields). cbn [Type_Doc Type_Methods].
    split; [apply docText_trimmed|constructor].
  - rewrite parseInterfaceMethods_members. cbn [Type_Doc Type_Methods].
    split; [apply docText_trimmed|].
    apply List.Forall_forall. intros fn Hin.
    apply in_flat_map in Hin as (field & _ & Hin). unfold methodOfMember in Hin.
    destruct (ast.Field_Names field) as [|name [|name' names]]; try contradiction.
    destruct (ast.Field_Type field) as [[]|]; try contradiction.
    destruct Hin as [<-|[]]. cbn [Function_Doc]. apply docText_trimmed.
Qed.

Lemma packageOf_docsTrimmed (dir relBase : Path) (pkgName : string) (pkg : ast_Package)
    (modl : option Module_) :
  docsTrimmed (packageOf printExpr dir relBase pkgName pkg modl).
Proof.
  unfold packageOf, docsTrimmed, functionDocsTrimmed, sortPackage.
  cbn [Package_Functions Package_Types].
  destruct (extractDecls_spec printExpr
              (mkPackage pkgName (importPathFor modl dir) (toRelPath relBase dir)
                 (packageFiles relBase dir pkg) [] []) pkg eq_refl)
    as (_ & _ & _ & _ & Hfn & Hty).
  rewrite Hfn, Hty. cbn [Package_Functions app]. split.
  - apply List.Forall_forall. intros fn Hin.
    eapply Permutation_in in Hin; [|apply sort_Slice_perm].
    apply in_flat_map in Hin as (decl & _ & Hin).
    destruct (methodTarget _ decl); [contradiction|].
    destruct Hin as [<-|[]]. apply boundFunction_trimmed.
  - apply List.Forall_forall. intros t Hin.
    apply in_map_iff in Hin as (t1 & <- & Hin).
    eapply Permutation_in in Hin; [|apply sort_Slice_perm].
    apply list_elem_of_In, list_elem_of_lookup in Hin as [i Hi].
    rewrite list_lookup_imap in Hi.
    destruct (declaredTypes printExpr (range rangeTypes (ast_Package_Files pkg)) !! i)
      as [t0|] eqn:Et0; [|discriminate].
    injection Hi as <-.
    assert (Hin0 : In t0 (declaredTypes printExpr
                            (range rangeTypes (ast_Package_Files pkg)))).
    { apply list_elem_of_In, list_elem_of_lookup. now exists i. }
    apply declaredTypes_origin in Hin0 as (file & gen & ts & _ & _ & _ & ->).
    destruct (typeOfSpec_trimmed gen ts) as [Hdoc Hmethods].
    cbn [sortType Type_setMethods Type_Doc Type_Methods]. split; [exact Hdoc|].
    apply List.Forall_forall. intros fn Hfn'.
    eapply Permutation_in in Hfn'; [|apply sort_Slice_perm].
    apply in_app_or in Hfn' as [Hown|Hbound].
    + eapply List.Forall_forall in Hmethods; [exact Hmethods|exact Hown].
    + apply in_flat_map in Hbound as (decl & _ & Hbound).
      destruct (decide _); [|contradiction].
      destruct Hbound as [<-|[]]. apply boundFunction_trimmed.
Qed.

(** X21. No documentation string of a model starts or ends with white
    space: not that of a type, of a free function, of a bound method,
    or of a method of an interface. *)
Theorem model_docs_trimmed (now : Z) (fs : Node) (root : Path) (opts : Options)
    (m : Model) :
  Generate printExpr now fs root opts = inr m ->
  Forall docsTrimmed (Model_Packages m).
Proof.
  intros Hgen.
  destruct (Generate_packages printExpr now fs root opts m Hgen) as [Horigin _].
  eapply Forall_impl; [exact Horigin|].
  intros pk Hpk. unfold packageOrigin in Hpk.
  destruct (fs_lookup fs root) as [[content parsed|es]|]; [| |contradiction].
  - destruct Hpk as (pname & pkg & modl & _ & _ & ->). apply packageOf_docsTrimmed.
  - destruct Hpk as (rel & _ & pname & pkg & modl & _ & _ & ->).
    apply packageOf_docsTrimmed.
Qed.

End Documentation.

Lemma model_docs_trimmed_witness :
  GenerateZoo = inr (modelOf GenerateZoo) /\
  Type_Doc zebraType = "Zebra is striped." /\
  flat_map (fun t => map Function_Doc (Type_Methods t)) (Package_Types zooPackage)
    = [""; "Sound is heard."; ""; ""; "Run runs."] /\
  map Function_Doc (Package_Functions zooPackage) = ["Helper helps."; ""] /\
  Forall docsTrimmed (Model_Packages (modelOf GenerateZoo)).
Proof.
  assert (Hrun : GenerateZoo = inr (modelOf GenerateZoo)) by (vm_compute; reflexivity).
  split; [exact Hrun|].
  split; [vm_compute; reflexivity|].
  split; [vm_compute; reflexivity|].
  split; [vm_compute; reflexivity|].
  exact (@model_docs_trimmed insertionSorter rangeMixed printSimple 0%Z
           zooTree ["ws"] defaultOptions _ Hrun).
Defined.
